(** * 486tang host tools: a shallow embedding of [tools/486tang.py] and
    [tools/mksdcard.py]

    Python integers are unbounded, so every integer is a [Z]; a byte of a
    [bytes]/[bytearray] object is a [Z] in [0, 256) (predicate [is_byte]).
    Exceptions are explicit: a function that can raise returns an
    [outcome].  The frame reader's inner [while True] loop is run with an
    explicit amount of fuel ([None] when it runs out), and the fuel handed
    out is proved sufficient. *)

From Stdlib Require Import ZArith Lia.
From stdpp Require Import base option list strings gmap sorting.

Local Open Scope Z_scope.

(** ** Exceptions and outcomes *)

(** The exceptions the modelled code can raise. *)
Inductive exn : Type :=
| ValueError (msg : string)
| KeyError (msg : string)
| IndexError
| StructError.

(** What running a piece of Python gives: a value or an exception. *)
Inductive outcome (A : Type) : Type :=
| Done (a : A)
| Raised (e : exn).
Arguments Done {A} a.
Arguments Raised {A} e.

Definition obind {A B : Type} (m : outcome A) (k : A → outcome B) : outcome B :=
  match m with
  | Done a => k a
  | Raised e => Raised e
  end.

Notation "x ←! m ; k" := (obind m (λ x, k))
  (at level 20, m at level 100, k at level 200, right associativity,
   format "x  ←!  m ;  '/' k").
Notation "' p ←! m ; k" := (obind m (λ x, let 'p := x in k))
  (at level 20, p pattern, m at level 100, k at level 200, right associativity).

(** ** Bytes and Python sequence operations *)

Definition is_byte (b : Z) : Prop := 0 ≤ b < 256.
Definition is_bytes (l : list Z) : Prop := Forall is_byte l.

Definition is_byteb (b : Z) : bool := (0 <=? b) && (b <? 256).

(** [len(l)] as a Python integer. *)
Definition len {A : Type} (l : list A) : Z := Z.of_nat (length l).

(** [l[i]] for [i >= 0]; out of range raises [IndexError]. *)
Definition index {A : Type} (l : list A) (i : Z) : outcome A :=
  match l !! Z.to_nat i with
  | Some x => Done x
  | None => Raised IndexError
  end.

(** [l[lo:hi]] for [0 <= lo] and [0 <= hi]: slicing never raises and clips
    at the end of the sequence. *)
Definition slice {A : Type} (l : list A) (lo hi : Z) : list A :=
  take (Z.to_nat hi - Z.to_nat lo)%nat (drop (Z.to_nat lo) l).

(** [l[k:]] and the in-place [del l[:k]] for [k >= 0]. *)
Definition slice_from {A : Type} (l : list A) (k : Z) : list A :=
  drop (Z.to_nat k) l.

(** [l[-3:]], the last three elements (all of [l] when it is shorter). *)
Definition last3 {A : Type} (l : list A) : list A :=
  drop (length l - 3)%nat l.

(** [buf.find(bytes([b]))]: the index of the first occurrence, [None] for
    Python's [-1]. *)
Fixpoint find_byte (b : Z) (buf : list Z) : option nat :=
  match buf with
  | [] => None
  | x :: rest => if x =? b then Some 0%nat else S <$> find_byte b rest
  end.

(** * tools/486tang.py *)

Definition CMD_PS2_SCANCODE : Z := 0x0C.
Definition CMD_PS2_MOUSE : Z := 0x0E.

(** ** Frame codec *)

Module Frame.

(** [frame(payload)] *)
Definition frame (payload : list Z) : outcome (list Z) :=
  let length := len payload in
  if 0x07FF <? length then Raised (ValueError "frame too long")
  else Done ([0xAA; Z.land (Z.shiftr length 8) 0xFF; Z.land length 0xFF] ++ payload).

(** [build_scancode_frame(scancodes)] *)
Definition build_scancode_frame (scancodes : list Z) : outcome (list Z) :=
  let payload := [CMD_PS2_SCANCODE] ++ scancodes in
  frame payload.

(** [build_mouse_frame(mouse_bytes)] *)
Definition build_mouse_frame (mouse_bytes : list Z) : outcome (list Z) :=
  let payload := [CMD_PS2_MOUSE] ++ mouse_bytes in
  frame payload.

(** *** The UART frame reader of [run_interactive]

    The variables [rx_buf], [rx_state], [rx_len] and [rx_payload] of
    [run_interactive] live across polls, so they are the fields of the
    reader's state. *)

Inductive rx_state_t : Type := SEEK | HAVE.

Record rx : Type := mk_rx {
  rx_buf : list Z;
  rx_state : rx_state_t;
  rx_len : Z;
  rx_payload : list Z;
}.

(** The state [run_interactive] sets up before its main loop. *)
Definition rx_init : rx :=
  {| rx_buf := []; rx_state := SEEK; rx_len := 0; rx_payload := [] |}.

(** A received frame as the reader hands it to the dispatch code:
    [(rtype, body)]. *)
Definition rx_frame : Type := Z * list Z.

(** How one pass through the body of the inner [while True] ends. *)
Inductive pass : Type :=
| Break (st : rx)                          (* [break] *)
| Again (st : rx) (got : list rx_frame).   (* [continue], or the end of the body *)

(** The [if rx_state == 'SEEK':] block.  [inl st] is a [break] out of the
    loop, [inr st] falls through to the second [if]. *)
Definition seek_block (st : rx) : outcome (rx + rx) :=
  match rx_state st with
  | HAVE => Done (inr st)
  | SEEK =>
      match find_byte 0xAA (rx_buf st) with
      | None =>
          (* idx < 0: rx_buf.clear(); break *)
          Done (inl (mk_rx [] SEEK (rx_len st) (rx_payload st)))
      | Some idx =>
          (* if idx > 0: del rx_buf[:idx] *)
          let buf := drop idx (rx_buf st) in
          if len buf <? 4 then Done (inl (mk_rx buf SEEK (rx_len st) (rx_payload st)))
          else
            b1 ←! index buf 1;
            b2 ←! index buf 2;
            let rxlen := Z.lor (Z.shiftl b1 8) b2 in
            if len buf <? 3 + rxlen then Done (inl (mk_rx buf SEEK rxlen (rx_payload st)))
            else
              let payload := slice buf 3 (3 + rxlen) in
              Done (inr (mk_rx (slice_from buf (3 + rxlen)) HAVE rxlen payload))
      end
  end.

(** The [if rx_state == 'HAVE':] block; the frame it dispatches is recorded. *)
Definition have_block (st : rx) : outcome pass :=
  match rx_state st with
  | SEEK => Done (Again st [])
  | HAVE =>
      match rx_payload st with
      | [] =>
          (* if not rx_payload: rx_state = 'SEEK'; continue *)
          Done (Again (mk_rx (rx_buf st) SEEK (rx_len st) (rx_payload st)) [])
      | _ =>
          rtype ←! index (rx_payload st) 0;
          let body := slice_from (rx_payload st) 1 in
          Done (Again (mk_rx (rx_buf st) SEEK (rx_len st) (rx_payload st)) [(rtype, body)])
      end
  end.

(** One pass through the loop body. *)
Definition parse_pass (st : rx) : outcome pass :=
  r ←! seek_block st;
  match r with
  | inl st' => Done (Break st')
  | inr st' => have_block st'
  end.

(** The inner [while True] ("parse frames"), with fuel: [None] when the
    fuel runs out, else the state at the [break] and the frames dispatched on
    the way, or the exception that ended the loop. *)
Fixpoint parse_loop (fuel : nat) (st : rx) : option (outcome (rx * list rx_frame)) :=
  match fuel with
  | O => None
  | S fuel' =>
      match parse_pass st with
      | Raised e => Some (Raised e)
      | Done (Break st') => Some (Done (st', []))
      | Done (Again st' got) =>
          match parse_loop fuel' st' with
          | Some (Done (st'', more)) => Some (Done (st'', got ++ more))
          | other => other
          end
      end
  end.

(** Every pass that does not break removes at least three bytes from the
    buffer or leaves the [HAVE] state, so this much fuel is enough
    ([parse_frames_terminates]). *)
Definition parse_fuel (st : rx) : nat := S (S (length (rx_buf st))).

Definition parse_frames (st : rx) : option (outcome (rx * list rx_frame)) :=
  parse_loop (parse_fuel st) st.

(** One poll that returned [data]: [rx_buf.extend(data)], then parse. *)
Definition feed (st : rx) (data : list Z) : option (outcome (rx * list rx_frame)) :=
  parse_frames (mk_rx (rx_buf st ++ data) (rx_state st) (rx_len st) (rx_payload st)).

(** A sequence of polls, each returning one chunk. *)
Fixpoint feed_chunks (st : rx) (chunks : list (list Z))
  : option (outcome (rx * list rx_frame)) :=
  match chunks with
  | [] => Some (Done (st, []))
  | data :: rest =>
      match feed st data with
      | Some (Done (st', got)) =>
          match feed_chunks st' rest with
          | Some (Done (st'', more)) => Some (Done (st'', got ++ more))
          | other => other
          end
      | other => other
      end
  end.

(** Delivery one byte at a time. *)
Definition feed_bytes (st : rx) (bytes : list Z) : option (outcome (rx * list rx_frame)) :=
  feed_chunks st ((λ b, [b]) <$> bytes).

End Frame.

(** ** PS/2 Set 2 scancodes and the keyboard encoder *)

Module Keyboard.

(** A value of the [KEYMAP] dictionary: a list [[make...]] (the break
    sequence is generated) or a tuple [(make_list, break_list)]. *)
Inductive keyval : Type :=
| KList (make : list Z)
| KTuple (make brk : list Z).

(** The [KEYMAP] literal, in source order. *)
Definition KEYMAP_items : list (string * keyval) :=
  [ (* Letters *)
    ("a", KList [0x1C]); ("b", KList [0x32]); ("c", KList [0x21]); ("d", KList [0x23]);
    ("e", KList [0x24]); ("f", KList [0x2B]); ("g", KList [0x34]); ("h", KList [0x33]);
    ("i", KList [0x43]); ("j", KList [0x3B]); ("k", KList [0x42]); ("l", KList [0x4B]);
    ("m", KList [0x3A]); ("n", KList [0x31]); ("o", KList [0x44]); ("p", KList [0x4D]);
    ("q", KList [0x15]); ("r", KList [0x2D]); ("s", KList [0x1B]); ("t", KList [0x2C]);
    ("u", KList [0x3C]); ("v", KList [0x2A]); ("w", KList [0x1D]); ("x", KList [0x22]);
    ("y", KList [0x35]); ("z", KList [0x1A]);
    (* Digits *)
    ("1", KList [0x16]); ("2", KList [0x1E]); ("3", KList [0x26]); ("4", KList [0x25]);
    ("5", KList [0x2E]); ("6", KList [0x36]); ("7", KList [0x3D]); ("8", KList [0x3E]);
    ("9", KList [0x46]); ("0", KList [0x45]);
    (* Punctuation / symbols *)
    ("backquote", KList [0x0E]);
    ("minus", KList [0x4E]); ("underscore", KList [0x4E]);
    ("equals", KList [0x55]); ("plus", KList [0x55]);
    ("leftbracket", KList [0x54]); ("rightbracket", KList [0x5B]);
    ("backslash", KList [0x5D]);
    ("semicolon", KList [0x4C]); ("colon", KList [0x4C]);
    ("quote", KList [0x52]); ("doublequote", KList [0x52]);
    ("comma", KList [0x41]); ("less", KList [0x41]);
    ("period", KList [0x49]); ("greater", KList [0x49]);
    ("slash", KList [0x4A]); ("question", KList [0x4A]);
    (* Control and lock keys *)
    ("enter", KList [0x5A]); ("esc", KList [0x76]); ("backspace", KList [0x66]);
    ("tab", KList [0x0D]); ("space", KList [0x29]);
    ("capslock", KList [0x58]); ("numlock", KList [0x77]); ("scrolllock", KList [0x7E]);
    ("leftshift", KList [0x12]); ("rightshift", KList [0x59]);
    ("leftctrl", KList [0x14]); ("rightctrl", KList [0xE0; 0x14]);
    ("leftalt", KList [0x11]); ("rightalt", KList [0xE0; 0x11]);
    (* Function keys *)
    ("f1", KList [0x05]); ("f2", KList [0x06]); ("f3", KList [0x04]); ("f4", KList [0x0C]);
    ("f5", KList [0x03]); ("f6", KList [0x0B]); ("f7", KList [0x83]); ("f8", KList [0x0A]);
    ("f9", KList [0x01]); ("f10", KList [0x09]); ("f11", KList [0x78]); ("f12", KList [0x07]);
    (* Special multi-byte *)
    ("printscreen", KTuple [0xE0; 0x12; 0xE0; 0x7C] [0xE0; 0xF0; 0x7C; 0xE0; 0xF0; 0x12]);
    ("pause", KTuple [0xE1; 0x14; 0x77; 0xE1; 0xF0; 0x14; 0xE0; 0x77] []);
    (* Navigation / edit cluster *)
    ("insert", KList [0xE0; 0x70]); ("home", KList [0xE0; 0x6C]); ("pageup", KList [0xE0; 0x7D]);
    ("delete", KList [0xE0; 0x71]); ("end", KList [0xE0; 0x69]); ("pagedown", KList [0xE0; 0x7A]);
    (* Arrow keys *)
    ("up", KList [0xE0; 0x75]); ("down", KList [0xE0; 0x72]);
    ("left", KList [0xE0; 0x6B]); ("right", KList [0xE0; 0x74]);
    (* Numpad *)
    ("kp_divide", KList [0xE0; 0x4A]); ("kp_multiply", KList [0x7C]); ("kp_minus", KList [0x7B]);
    ("kp_7", KList [0x6C]); ("kp_8", KList [0x75]); ("kp_9", KList [0x7D]); ("kp_plus", KList [0x79]);
    ("kp_4", KList [0x6B]); ("kp_5", KList [0x73]); ("kp_6", KList [0x74]);
    ("kp_1", KList [0x69]); ("kp_2", KList [0x72]); ("kp_3", KList [0x7A]);
    ("kp_0", KList [0x70]); ("kp_period", KList [0x71]);
    ("kp_enter", KList [0xE0; 0x5A]); ("kp_equals", KList [0xE0; 0x5A]) ]%string.

(** The dictionary itself.  No key occurs twice in the literal
    ([KEYMAP_items_NoDup]), so the order of insertion is immaterial. *)
Definition KEYMAP : gmap string keyval := list_to_map KEYMAP_items.

(** [_get_make_break(keyname)]: [KEYMAP[keyname]] raises [KeyError] for an
    absent key; the break is [None] when the value is a plain list. *)
Definition _get_make_break (keyname : string) : outcome (list Z * option (list Z)) :=
  match KEYMAP !! keyname with
  | None => Raised (KeyError keyname)
  | Some (KTuple mk brk) => Done (mk, Some brk)
  | Some (KList mk) => Done (mk, None)
  end.

(** The [while i < len(make_bytes)] loop of [_derive_break_from_make];
    [make_bytes] here is what is left from index [i] on. *)
Fixpoint derive_loop (out make_bytes : list Z) : list Z :=
  match make_bytes with
  | [] => out
  | b :: rest =>
      if b =? 0xE0 then
        (* out.append(0xE0); i += 1; if i < len: out.extend([0xF0, make_bytes[i]]); i += 1 *)
        match rest with
        | [] => out ++ [0xE0]
        | c :: rest' => derive_loop ((out ++ [0xE0]) ++ [0xF0; c]) rest'
        end
      else if b =? 0xE1 then
        (* return [] *)
        []
      else derive_loop (out ++ [0xF0; b]) rest
  end.

(** [_derive_break_from_make(make_bytes)] *)
Definition _derive_break_from_make (make_bytes : list Z) : list Z :=
  derive_loop [] make_bytes.

(** [bytes(out)]: raises [ValueError] unless every element is in
    [range(256)]. *)
Definition to_bytes (out : list Z) : outcome (list Z) :=
  if forallb is_byteb out then Done out
  else Raised (ValueError "bytes must be in range(0, 256)").

Section Encoder.

(** Python's [str.lower].  Key names arrive as arbitrary Unicode strings;
    the encoder is modelled for any lowering function, and [ascii_lower]
    below is the one that evaluates on ASCII names. *)
Variable str_lower : string → string.

(** The [for name in names] loop of [expand_keys_to_scancodes]. *)
Fixpoint expand_loop (names : list string) (pressed : bool) (out : list Z)
  : outcome (list Z) :=
  match names with
  | [] => Done out
  | name :: rest =>
      let key := str_lower name in
      match KEYMAP !! key with
      | None => Raised (KeyError ("Unknown key: " +:+ name))
      | Some _ =>
          '(make, brk) ←! _get_make_break key;
          let out :=
            if pressed then out ++ make
            else match brk with
                 | Some brk => out ++ brk
                 | None => out ++ _derive_break_from_make make
                 end in
          expand_loop rest pressed out
      end
  end.

(** [expand_keys_to_scancodes(names, pressed)] *)
Definition expand_keys_to_scancodes (names : list string) (pressed : bool)
  : outcome (list Z) :=
  out ←! expand_loop names pressed [];
  to_bytes out.

End Encoder.

(** [str.lower] on ASCII text: [A-Z] to [a-z], every other character kept. *)
Definition ascii_lower_char (c : Ascii.ascii) : Ascii.ascii :=
  let n := Ascii.nat_of_ascii c in
  if ((65 <=? n) && (n <=? 90))%nat then Ascii.ascii_of_nat (n + 32) else c.

Fixpoint ascii_lower (s : string) : string :=
  match s with
  | EmptyString => EmptyString
  | String c rest => String (ascii_lower_char c) (ascii_lower rest)
  end.

(** The claimed shape of a generated break: [0xF0] before every make byte. *)
Fixpoint interleave (sep : Z) (l : list Z) : list Z :=
  match l with
  | [] => []
  | b :: rest => sep :: b :: interleave sep rest
  end.

(** One key's contribution to the output, as the specification words it:
    the make sequence when pressed, else the explicit break when the table
    has one, else the derived break. *)
Definition key_bytes (v : keyval) (pressed : bool) : list Z :=
  match v with
  | KList mk => if pressed then mk else _derive_break_from_make mk
  | KTuple mk brk => if pressed then mk else brk
  end.

End Keyboard.

(** ** PS/2 mouse: the packet encoder and the device emulation *)

Module Mouse.

(** The nested [clamp8] of [ps2_mouse_packet]. *)
Definition clamp8 (v : Z) : Z := Z.max (-128) (Z.min 127 v).

(** [ps2_mouse_packet(dx, dy, buttons)].  The three bytes are built from
    masked values, so [bytes([...])] cannot raise. *)
Definition ps2_mouse_packet (dx dy buttons : Z) : list Z :=
  let x_ovf := if (dx <? -128) || (127 <? dx) then 1 else 0 in
  let y_ovf := if (dy <? -128) || (127 <? dy) then 1 else 0 in
  let dx := clamp8 dx in
  let dy := clamp8 (- dy) in
  let b0 := 0x08 in
  let b0 := if Z.land buttons 0x1 =? 0 then b0 else Z.lor b0 0x01 in
  let b0 := if Z.land buttons 0x2 =? 0 then b0 else Z.lor b0 0x02 in
  let b0 := if Z.land buttons 0x4 =? 0 then b0 else Z.lor b0 0x04 in
  let b0 := if dx <? 0 then Z.lor b0 0x10 else b0 in
  let b0 := if dy <? 0 then Z.lor b0 0x20 else b0 in
  let b0 := if x_ovf =? 0 then b0 else Z.lor b0 0x40 in
  let b0 := if y_ovf =? 0 then b0 else Z.lor b0 0x80 in
  [b0; Z.land dx 0xFF; Z.land dy 0xFF].

(** The value of [expect_value_for] when it is not [None]: ['F3'] or ['E8']. *)
Inductive expect : Type := F3 | E8.

(** The [nonlocal] variables of [on_host_to_mouse_byte]. *)
Record mouse : Type := mk_mouse {
  ps2_id : Z;
  rate_seq : list Z;
  expect_value_for : option expect;
  streaming_enabled : bool;
}.

(** Their values when [run_interactive] starts. *)
Definition mouse_init : mouse :=
  {| ps2_id := 0x00; rate_seq := []; expect_value_for := None;
     streaming_enabled := false |}.

(** [mouse_reply_byte(b)] writes this frame to the serial port. *)
Definition mouse_reply_byte (b : Z) : outcome (list Z) :=
  Frame.build_mouse_frame [Z.land b 0xFF].

(** [on_host_to_mouse_byte(b)]: the new state and the arguments of the
    [mouse_reply_byte] calls it makes, in order. *)
Definition on_host_to_mouse_byte (m : mouse) (b : Z) : mouse * list Z :=
  match expect_value_for m with
  | Some F3 =>
      let seq := rate_seq m ++ [Z.land b 0xFF] in
      let seq := if (3 <? length seq)%nat then last3 seq else seq in
      let id := if decide (seq = [200; 100; 80]) then 0x03 else ps2_id m in
      (mk_mouse id seq None (streaming_enabled m), [0xFA])
  | Some E8 =>
      (mk_mouse (ps2_id m) (rate_seq m) None (streaming_enabled m), [0xFA])
  | None =>
      let cmd := Z.land b 0xFF in
      if cmd =? 0xFF then
        (mk_mouse 0x00 [] (expect_value_for m) false, [0xFA; 0xAA; 0x00])
      else if cmd =? 0xF2 then
        (m, [0xFA; ps2_id m])
      else if cmd =? 0xF3 then
        (mk_mouse (ps2_id m) (rate_seq m) (Some F3) (streaming_enabled m), [0xFA])
      else if cmd =? 0xE8 then
        (mk_mouse (ps2_id m) (rate_seq m) (Some E8) (streaming_enabled m), [0xFA])
      else if bool_decide (cmd ∈ [0xE6; 0xE7; 0xF0; 0xF5; 0xF6; 0xEA]) then
        let streaming :=
          if cmd =? 0xF5 then false
          else if bool_decide (cmd ∈ [0xEA; 0xF4]) then true
          else streaming_enabled m in
        (mk_mouse (ps2_id m) (rate_seq m) (expect_value_for m) streaming, [0xFA])
      else if cmd =? 0xF4 then
        (mk_mouse (ps2_id m) (rate_seq m) (expect_value_for m) true, [0xFA])
      else if cmd =? 0xE9 then
        (m, [0xFA; 0x00; 0x00; 0x00])
      else
        (m, [0xFE])
  end.

(** [for bb in body: on_host_to_mouse_byte(bb)] *)
Fixpoint host_to_mouse (m : mouse) (body : list Z) : mouse * list Z :=
  match body with
  | [] => (m, [])
  | bb :: rest =>
      let '(m', replies) := on_host_to_mouse_byte m bb in
      let '(m'', more) := host_to_mouse m' rest in
      (m'', replies ++ more)
  end.

(** The dispatch on [rtype] at the end of the frame reader's [HAVE] block:
    type [0x06] drives the emulation, every other type leaves it alone
    ([0x07] only prints). *)
Definition dispatch (m : mouse) (f : Frame.rx_frame) : mouse * list Z :=
  let '(rtype, body) := f in
  if rtype =? 0x06 then host_to_mouse m body else (m, []).

(** The status byte of a packet as the sum of its flags: sync bit, the
    three buttons, the two signs and the two overflow flags. *)
Definition status_of (l r m xs ys xo yo : bool) : Z :=
  8 + Z.b2z l + 2 * Z.b2z r + 4 * Z.b2z m + 16 * Z.b2z xs + 32 * Z.b2z ys
    + 64 * Z.b2z xo + 128 * Z.b2z yo.

End Mouse.

(** * tools/mksdcard.py *)

Module Mksdcard.

Definition SECTOR_SIZE : Z := 512.
Definition BIOS_OFFSET : Z := 0.
Definition VGA_BIOS_OFFSET : Z := 64 * 1024.
Definition CFG_SECTOR : Z := 192.
Definition CFG_OFFSET : Z := CFG_SECTOR * SECTOR_SIZE.
Definition HDD_OFFSET : Z := 128 * 1024.

(** ** Geometry inference *)

(** [decode_chs(head, sec_cyl, cyl_lo)], returning [(valid, cyl, hd, sec)]. *)
Definition decode_chs (head sec_cyl cyl_lo : Z) : bool * Z * Z * Z :=
  if (head =? 0xFF) && (sec_cyl =? 0xFF) && (cyl_lo =? 0xFF) then (false, 0, 0, 0)
  else
    let sec := Z.land sec_cyl 0x3F in
    let cyl := Z.lor (Z.shiftl (Z.land sec_cyl 0xC0) 2) cyl_lo in
    if sec =? 0 then (false, 0, 0, 0)
    else (true, cyl, head, sec).

(** [chs_to_lba(cyl, head, sec, heads, spt)] *)
Definition chs_to_lba (cyl head sec heads spt : Z) : Z :=
  ((cyl * heads) + head) * spt + (sec - 1).

(** One partition-table entry as [struct.unpack('<BBBBBBBBII', e)] reads it. *)
Record pentry : Type := mk_pentry {
  boot : Z;
  begHead : Z; begSecCyl : Z; begCylLo : Z;
  ptype : Z;
  endHead : Z; endSecCyl : Z; endCylLo : Z;
  lbaStart : Z;
  lbaSectors : Z;
}.

(** The ['<I'] field of four bytes, least significant first. *)
Definition le32 (b0 b1 b2 b3 : Z) : Z :=
  Z.lor (Z.lor b0 (Z.shiftl b1 8)) (Z.lor (Z.shiftl b2 16) (Z.shiftl b3 24)).

(** [struct.unpack('<BBBBBBBBII', e)]: [struct.error] unless [e] has
    exactly 16 bytes. *)
Definition unpack_entry (e : list Z) : outcome pentry :=
  match e with
  | [bt; bh; bsc; bcl; pt; eh; esc; ecl; s0; s1; s2; s3; n0; n1; n2; n3] =>
      Done (mk_pentry bt bh bsc bcl pt eh esc ecl (le32 s0 s1 s2 s3) (le32 n0 n1 n2 n3))
  | _ => Raised StructError
  end.

(** The [candidates] list of [calc_geometry_from_mbr]: [(heads, spt)]. *)
Definition candidates : list (Z * Z) :=
  [ (255, 63);
    (240, 63); (224, 56);
    (128, 63); (64, 63); (32, 63); (16, 63);
    (15, 63); (15, 32);
    (8, 32); (4, 32) ].

(** The body of [for e in entries] once [ptype != 0]: the two checks, each
    clearing [ok] on a mismatch. *)
Definition check_entry (heads spt : Z) (p : pentry) (ok : bool) : bool :=
  let '(valid_beg, cs, hs, ss) := decode_chs (begHead p) (begSecCyl p) (begCylLo p) in
  let ok :=
    if valid_beg then
      let lba_calc := chs_to_lba cs hs ss heads spt in
      if lba_calc =? lbaStart p then ok else false
    else ok in
  let '(valid_end, ce, he, se) := decode_chs (endHead p) (endSecCyl p) (endCylLo p) in
  if valid_end then
    let lba_end := lbaStart p + lbaSectors p - 1 in
    let lba_calc := chs_to_lba ce he se heads spt in
    if lba_calc =? lba_end then ok else false
  else ok.

(** [for e in entries: ...] for one candidate; the result is the final [ok]. *)
Fixpoint entries_loop (heads spt : Z) (entries : list (list Z)) (ok : bool)
  : outcome bool :=
  match entries with
  | [] => Done ok
  | e :: rest =>
      p ←! unpack_entry e;
      if ptype p =? 0 then entries_loop heads spt rest ok   (* continue *)
      else
        let ok := check_entry heads spt p ok in
        if negb ok then Done ok                            (* break *)
        else entries_loop heads spt rest ok
  end.

(** [for heads, spt in candidates: ...], building [plausible]. *)
Fixpoint candidates_loop (cands : list (Z * Z)) (entries : list (list Z))
    (plausible : list (Z * Z)) : outcome (list (Z * Z)) :=
  match cands with
  | [] => Done plausible
  | (heads, spt) :: rest =>
      ok ←! entries_loop heads spt entries true;
      candidates_loop rest entries (if ok then plausible ++ [(heads, spt)] else plausible)
  end.

(** The sort key [lambda x: (x[1], x[0])] and the order of Python tuples. *)
Definition sort_key (x : Z * Z) : Z * Z := (x.2, x.1).

Definition tuple_ltb (a b : Z * Z) : bool :=
  (a.1 <? b.1) || ((a.1 =? b.1) && (a.2 <? b.2)).

(** [list.sort(key=..., reverse=True)] is a stable sort into descending key
    order: elements with equal keys keep their order.  There is only one such
    arrangement of a list, and insertion from the right computes it. *)
Fixpoint insert_desc (x : Z * Z) (l : list (Z * Z)) : list (Z * Z) :=
  match l with
  | [] => [x]
  | y :: rest =>
      if tuple_ltb (sort_key x) (sort_key y) then y :: insert_desc x rest
      else x :: y :: rest
  end.

Definition sort_desc (l : list (Z * Z)) : list (Z * Z) := foldr insert_desc [] l.

(** [calc_geometry_from_mbr(mbr_data, total_bytes)], returning
    [(cylinders, heads, spt)]. *)
Definition calc_geometry_from_mbr (mbr_data : list Z) (total_bytes : Z)
  : outcome (Z * Z * Z) :=
  let entries :=
    (λ i, slice mbr_data (0x1BE + i * 16) (0x1BE + (i + 1) * 16)) <$> [0; 1; 2; 3] in
  plausible ←! candidates_loop candidates entries [];
  let '(heads, spt) :=
    match sort_desc plausible with
    | [] => (255, 63)
    | first :: _ => first
    end in
  let cylinders := total_bytes / SECTOR_SIZE / heads / spt in
  Done (cylinders, heads, spt).


(** *** Acceptance of a candidate, as the specification words it

    The definitions below follow the specification of the geometry inference
    (section 4.6), not the code; [calc_geometry_spec] compares the two. *)

(** Partition-table entry [i] of an MBR, read field by field at its offset:
    16 bytes from [0x1BE + 16 * i]; the CHS fields are a head byte, a
    sector + cylinder-high byte and a cylinder-low byte. *)
Definition byte_at (mbr : list Z) (k : nat) : Z := nth k mbr 0.

Definition entry_of (mbr : list Z) (i : nat) : pentry :=
  let at_ j := byte_at mbr (446 + 16 * i + j) in
  {| boot := at_ 0%nat;
     begHead := at_ 1%nat; begSecCyl := at_ 2%nat; begCylLo := at_ 3%nat;
     ptype := at_ 4%nat;
     endHead := at_ 5%nat; endSecCyl := at_ 6%nat; endCylLo := at_ 7%nat;
     lbaStart := le32 (at_ 8%nat) (at_ 9%nat) (at_ 10%nat) (at_ 11%nat);
     lbaSectors := le32 (at_ 12%nat) (at_ 13%nat) (at_ 14%nat) (at_ 15%nat) |}.

(** A packed CHS field is decodable unless it is the all-0xFF triple or its
    sector field is zero. *)
Definition decodable (head sec_cyl cyl_lo : Z) : Prop :=
  ¬ (head = 0xFF ∧ sec_cyl = 0xFF ∧ cyl_lo = 0xFF) ∧ Z.land sec_cyl 0x3F ≠ 0.

(** [((cyl * heads) + head) * spt + (sector - 1)] of a packed CHS field. *)
Definition packed_lba (heads spt head sec_cyl cyl_lo : Z) : Z :=
  let sector := Z.land sec_cyl 0x3F in
  let cyl := Z.lor (Z.shiftl (Z.land sec_cyl 0xC0) 2) cyl_lo in
  ((cyl * heads) + head) * spt + (sector - 1).

(** A candidate is accepted when every entry with a nonzero type agrees with
    it in each decodable field. *)
Definition entry_agrees (heads spt : Z) (p : pentry) : Prop :=
  ptype p ≠ 0 →
  (decodable (begHead p) (begSecCyl p) (begCylLo p) →
   packed_lba heads spt (begHead p) (begSecCyl p) (begCylLo p) = lbaStart p)
  ∧ (decodable (endHead p) (endSecCyl p) (endCylLo p) →
     packed_lba heads spt (endHead p) (endSecCyl p) (endCylLo p)
       = lbaStart p + lbaSectors p - 1).

Definition accepted (mbr : list Z) (heads spt : Z) : Prop :=
  ∀ i : nat, (i < 4)%nat → entry_agrees heads spt (entry_of mbr i).

(** [(h, s)] comes no later than [(heads, spt)] when candidates are put in
    descending order of (spt, heads). *)
Definition not_after (heads spt h s : Z) : Prop :=
  s < spt ∨ (s = spt ∧ h ≤ heads).

(** The synthetic MBR of the specification's example: one partition of type
    0x06, CHS start (cylinder 0, head 1, sector 1), start LBA 63, 1,000,000
    sectors (0x000F4240), end CHS not decodable (all 0xFF). *)
Definition example_mbr : list Z :=
  replicate 446 0
    ++ [0x80; 0x01; 0x01; 0x00; 0x06; 0xFF; 0xFF; 0xFF;
        0x3F; 0x00; 0x00; 0x00; 0x40; 0x42; 0x0F; 0x00]
    ++ replicate 48 0 ++ [0x55; 0xAA].

(** ** The IDENTIFY DEVICE block *)

(** [ord(c)] for the characters of a string, and [str.ljust(width)]. *)
Definition ords (s : string) : list Z :=
  (λ c, Z.of_nat (Ascii.nat_of_ascii c)) <$> String.list_ascii_of_string s.

Definition ljust (s : list Z) (width : nat) : list Z :=
  s ++ replicate (width - length s) 0x20.

(** [(ord(model[2 * i]) << 8) | ord(model[2 * i + 1])] *)
Definition model_word (model : list Z) (i : nat) : Z :=
  Z.lor (Z.shiftl (nth (2 * i) model 0) 8) (nth (2 * i + 1) model 0).

(** [build_identify_words(cyl, heads, spt)]: the assignments to the
    256-element list, in source order. *)
Definition build_identify_words (cyl heads spt : Z) : list Z :=
  let total := cyl * heads * spt in
  let ident := replicate 256 0 in
  let ident := <[0%nat := 0x0040]> ident in
  let ident := <[1%nat := Z.min 16383 cyl]> ident in
  let ident := <[3%nat := heads]> ident in
  let ident := <[4%nat := Z.land (512 * spt) 0xFFFF]> ident in
  let ident := <[5%nat := 512]> ident in
  let ident := <[6%nat := spt]> ident in
  let ident := <[10%nat := Z.lor (Z.shiftl 65 8) 79]> ident in   (* 'A' 'O' *)
  let ident := <[11%nat := Z.lor (Z.shiftl 72 8) 68]> ident in   (* 'H' 'D' *)
  let ident := <[12%nat := Z.lor (Z.shiftl 48 8) 48]> ident in   (* '0' '0' *)
  let ident := <[13%nat := Z.lor (Z.shiftl 48 8) 48]> ident in   (* '0' '0' *)
  let ident := <[14%nat := Z.lor (Z.shiftl 48 8) 32]> ident in   (* '0' ' ' *)
  let ident := <[15%nat := Z.lor (Z.shiftl 32 8) 32]> ident in
  let ident := <[16%nat := Z.lor (Z.shiftl 32 8) 32]> ident in
  let ident := <[17%nat := Z.lor (Z.shiftl 32 8) 32]> ident in
  let ident := <[18%nat := Z.lor (Z.shiftl 32 8) 32]> ident in
  let ident := <[19%nat := Z.lor (Z.shiftl 32 8) 32]> ident in
  let ident := <[20%nat := 3]> ident in
  let ident := <[21%nat := 512]> ident in
  let ident := <[22%nat := 4]> ident in
  let model := ljust (ords "AO Harddrive") 40 in
  let ident :=
    foldl (λ ident i, <[(27 + i)%nat := model_word model i]> ident) ident (seq 0 20) in
  let ident := <[47%nat := 16]> ident in
  let ident := <[48%nat := 1]> ident in
  let ident := <[49%nat := Z.shiftl 1 9]> ident in
  let ident := <[50%nat := 0]> ident in
  let ident := <[51%nat := 0x0200]> ident in
  let ident := <[52%nat := 0x0200]> ident in
  let ident := <[53%nat := 0x0007]> ident in
  let ident := <[54%nat := Z.min 16383 cyl]> ident in
  let ident := <[55%nat := heads]> ident in
  let ident := <[56%nat := spt]> ident in
  let ident := <[57%nat := Z.land total 0xFFFF]> ident in
  let ident := <[58%nat := Z.land (Z.shiftr total 16) 0xFFFF]> ident in
  let ident := <[59%nat := 0]> ident in
  let ident := <[60%nat := Z.land total 0xFFFF]> ident in
  let ident := <[61%nat := Z.land (Z.shiftr total 16) 0xFFFF]> ident in
  let ident := <[62%nat := 0]> ident in
  let ident := <[63%nat := 0]> ident in
  let ident := <[64%nat := 0]> ident in
  let ident := <[65%nat := 120]> ident in
  let ident := <[66%nat := 120]> ident in
  let ident := <[67%nat := 120]> ident in
  let ident := <[68%nat := 120]> ident in
  let ident := <[80%nat := 0x007E]> ident in
  let ident := <[81%nat := 0]> ident in
  let ident := <[82%nat := Z.shiftl 1 14]> ident in
  let ident :=
    <[83%nat := Z.lor (Z.lor (Z.lor (Z.shiftl 1 14) (Z.shiftl 1 13)) (Z.shiftl 1 12))
                      (Z.shiftl 1 10)]> ident in
  let ident := <[84%nat := Z.shiftl 1 14]> ident in
  let ident := <[85%nat := Z.shiftl 1 14]> ident in
  let ident :=
    <[86%nat := Z.lor (Z.lor (Z.lor (Z.shiftl 1 14) (Z.shiftl 1 13)) (Z.shiftl 1 12))
                      (Z.shiftl 1 10)]> ident in
  let ident := <[87%nat := Z.shiftl 1 14]> ident in
  let ident := <[88%nat := 0]> ident in
  let ident := <[93%nat := Z.lor (Z.lor 1 (Z.shiftl 1 14)) 0x2000]> ident in
  let ident := <[100%nat := Z.land total 0xFFFF]> ident in
  let ident := <[101%nat := Z.land (Z.shiftr total 16) 0xFFFF]> ident in
  ident.

(** ** The config stream *)

(** [struct.pack('<I', x & 0xFFFFFFFF)]: four bytes, least significant
    first.  The mask keeps the argument in range, so [pack] cannot raise. *)
Definition pack_I (x : Z) : list Z :=
  let x := Z.land x 0xFFFFFFFF in
  [Z.land x 0xFF; Z.land (Z.shiftr x 8) 0xFF; Z.land (Z.shiftr x 16) 0xFF;
   Z.land (Z.shiftr x 24) 0xFF].

(** The pairs appended before the geometry is known. *)
Definition cmos_pairs (mem_kb : Z) : list (Z * Z) :=
  let equip := 1 in
  let equip := Z.lor equip (Z.shiftl 1 2) in
  let equip := Z.lor equip (Z.shiftl 2 4) in
  [ (0xF400 + 0x30, Z.land mem_kb 0xFF);
    (0xF400 + 0x31, Z.land (Z.shiftr mem_kb 8) 0xFF);
    (0xF400 + 0x14, equip);
    (0xF400 + 0x10, 0x20);
    (0xF400 + 0x0D, 0x80);
    (0xF400 + 0x09, 0x24);
    (0xF400 + 0x08, 0x01);
    (0xF400 + 0x07, 0x01);
    (0xF400 + 0x32, 0x20) ].

(** The five geometry registers. *)
Definition geometry_pairs (cyl heads spt : Z) : list (Z * Z) :=
  [ (0xF001, cyl); (0xF002, heads); (0xF003, spt);
    (0xF004, spt * heads); (0xF005, spt * heads * cyl) ].

(** [for i in range(128)]: the IDENTIFY words, two per write to [0xF000].
    [ident] has 256 entries, so the two reads are in range. *)
Definition identify_pairs (ident : list Z) : list (Z * Z) :=
  (λ i : nat,
     let lo := Z.land (nth (2 * i) ident 0) 0xFFFF in
     let hi := Z.land (nth (2 * i + 1) ident 0) 0xFFFF in
     (0xF000, Z.lor (Z.shiftl hi 16) lo)) <$> seq 0 128.

(** The serialisation loop [for addr, val in pairs]. *)
Definition pack_pairs (pairs : list (Z * Z)) : list Z :=
  concat ((λ p : Z * Z, pack_I p.1 ++ pack_I p.2) <$> pairs).

(** The padding to a sector boundary. *)
Definition pad_sector (data : list Z) : list Z :=
  if len data `mod` SECTOR_SIZE =? 0 then data
  else data ++ replicate (Z.to_nat (SECTOR_SIZE - len data `mod` SECTOR_SIZE)) 0.

(** The list [pairs] of [build_config_stream] just before it is serialised. *)
Definition config_pairs (mem_kb cyl heads spt : Z) : list (Z * Z) :=
  cmos_pairs mem_kb ++ geometry_pairs cyl heads spt
    ++ identify_pairs (build_identify_words cyl heads spt).

(** [build_config_stream(mem_kb, hdd_path)]; [hdd] is the content of the
    file at [hdd_path], whose first sector is the MBR. *)
Definition build_config_stream (mem_kb : Z) (hdd : list Z) : outcome (list Z) :=
  let mbr := slice hdd 0 SECTOR_SIZE in
  let total_bytes := len hdd in
  '(cyl, heads, spt) ←! calc_geometry_from_mbr mbr total_bytes;
  let pairs := config_pairs mem_kb cyl heads spt in
  let data := pack_pairs pairs in
  let data := data ++ pack_I 0 in
  Done (pad_sector data).

(** A little-endian 32-bit field as the specification reads it back: the
    four base-256 digits of a value below [2^32], least significant first;
    and an (address32, value32) pair of the stream. *)
Definition le32_bytes (x : Z) : list Z :=
  [x `mod` 256; (x / 256) `mod` 256; (x / 65536) `mod` 256; (x / 16777216) `mod` 256].

Definition pair_bytes (p : Z * Z) : list Z :=
  le32_bytes (p.1 `mod` 2 ^ 32) ++ le32_bytes (p.2 `mod` 2 ^ 32).

(** ** The image composer *)

(** How [create_sdcard_image] ends.  It returns [False] after printing a
    message in the first three cases and [True] in the last; [Failed] is the
    [except Exception] handler, reached after the output file was opened, so
    the file then holds what had been written. *)
Inductive image_result : Type :=
| MissingInputFile (name : string)
| OversizeInput (name : string)
| Failed (e : exn) (written : list Z)
| Created (image : list Z).

Definition zeros (n : Z) : list Z := replicate (Z.to_nat n) 0.

(** The writes between opening the output file and the config stream. *)
Definition write_roms (bios vga : list Z) : list Z :=
  let outf := bios in
  let current_pos := len outf in
  let outf :=
    if current_pos <? VGA_BIOS_OFFSET then outf ++ zeros (VGA_BIOS_OFFSET - current_pos)
    else outf in
  let outf := outf ++ vga in
  let current_pos := len outf in
  if current_pos <? CFG_OFFSET then outf ++ zeros (CFG_OFFSET - current_pos)
  else outf.

(** The writes from the config stream on. *)
Definition write_cfg_hdd (outf cfg hdd : list Z) : list Z :=
  let outf := outf ++ cfg in
  let current_pos := len outf in
  let outf :=
    if current_pos <? HDD_OFFSET then outf ++ zeros (HDD_OFFSET - current_pos)
    else outf in
  outf ++ hdd.

(** [create_sdcard_image(bios_file, vga_bios_file, hdd_file, output_file,
    mem_mb)].  An input is the content of the file, [None] when the path does
    not exist. *)
Definition create_sdcard_image (bios_file vga_bios_file hdd_file : option (list Z))
    (mem_mb : Z) : image_result :=
  let mem_kb := (mem_mb - 1) * 1024 in
  match bios_file, vga_bios_file, hdd_file with
  | None, _, _ => MissingInputFile "BIOS"
  | Some _, None, _ => MissingInputFile "VGA BIOS"
  | Some _, Some _, None => MissingInputFile "HDD"
  | Some bios, Some vga, Some hdd =>
      let bios_size := len bios in
      let vga_bios_size := len vga in
      if VGA_BIOS_OFFSET <? bios_size then OversizeInput "BIOS"
      else if HDD_OFFSET <? VGA_BIOS_OFFSET + vga_bios_size then OversizeInput "VGA BIOS"
      else
        let outf := write_roms bios vga in
        match build_config_stream mem_kb hdd with
        | Done cfg => Created (write_cfg_hdd outf cfg hdd)
        | Raised e => Failed e outf
        end
  end.

End Mksdcard.

(** * The callers: command line, interactive loop and GUI helpers *)

(** ** The command line of [tools/486tang.py] *)

Module Cli.
Import Frame Keyboard.

(** What [main] ends up doing once the arguments are interpreted. *)
Inductive action : Type :=
| RunGui                                                (* run_gui() *)
| ParserError (msg : string)                            (* parser.error(msg): exit status 2 *)
| Send (port : string) (baud : Z) (payload : list Z)    (* send(port, baud, data) *)
| RunInteractive (port : string) (baud : Z).            (* run_interactive(port, baud) *)

(** The set [MODES] of [main]; only membership is tested. *)
Definition MODES : list string := ["hex"; "keys"; "key"; "interactive"]%string.

(** Truth values: [None] and the empty string are false, [None] and [0] are
    false. *)
Definition str_true (s : option string) : bool :=
  match s with
  | Some (String _ _) => true
  | _ => false
  end.

Definition int_true (n : option Z) : bool :=
  match n with
  | Some n => negb (n =? 0)
  | None => false
  end.

Section Main.

(** Python's [str.lower], [int(a, 16)] and [int(s)] on arbitrary strings, and
    the value that the call [auto_detect_port()] returns on this machine. *)
Variable str_lower : string → string.
Variable int16 : string → outcome Z.
Variable int10 : string → outcome Z.
Variable auto_detect_port : option string.

(** The [for a in args] loop of [parse_hex_bytes]. *)
Fixpoint parse_hex_loop (args : list string) (out : list Z) : outcome (list Z) :=
  match args with
  | [] => Done out
  | a :: rest =>
      v ←! int16 a;
      parse_hex_loop rest (out ++ [Z.land v 0xFF])
  end.

(** [parse_hex_bytes(args)] *)
Definition parse_hex_bytes (args : list string) : outcome (list Z) :=
  out ←! parse_hex_loop args [];
  to_bytes out.

(** The [# Execute mode] part of [main]. *)
Definition execute_mode (port : string) (baud : Z) (mode : string) (tail : list string)
  : outcome action :=
  if decide (mode = "hex"%string) then
    sc ←! parse_hex_bytes tail;
    data ←! build_scancode_frame sc;
    Done (Send port baud data)
  else if decide (mode = "keys"%string) then
    sc ←! expand_keys_to_scancodes str_lower tail true;
    data ←! build_scancode_frame sc;
    Done (Send port baud data)
  else if decide (mode = "key"%string) then
    match tail with
    | [name; act] =>
        let action := str_lower act in
        if bool_decide (action ∈ ["down"; "up"]%string) then
          sc ←! expand_keys_to_scancodes str_lower [name]
                  (bool_decide (action = "down"%string));
          data ←! build_scancode_frame sc;
          Done (Send port baud data)
        else Done (ParserError "action must be down|up")
    | _ => Done (ParserError "key mode: need <name> <down|up>")
    end
  else if decide (mode = "interactive"%string) then Done (RunInteractive port baud)
  else Done (ParserError "Unknown mode").

(** The [# Defaults / auto-detect] part of [main], then the mode. *)
Definition with_defaults (port : option string) (baud : option Z) (mode : string)
    (tail : list string) : outcome action :=
  let port :=
    match port with
    | Some p => Some p
    | None => if str_true auto_detect_port then auto_detect_port else None
    end in
  match port with
  | None =>
      Done (ParserError
        "No --port provided and auto-detect failed (looking for /dev/tty.usbserial* on macOS)")
  | Some port =>
      let baud := match baud with Some b => b | None => 115200 end in
      execute_mode port baud mode tail
  end.

(** [main()] after [parser.parse_args()]: [gui], [port], [baud] and [rest]
    are [args.gui], [args.port], [args.baud] and [args.rest]. *)
Definition main (gui : bool) (port : option string) (baud : option Z) (rest : list string)
  : outcome action :=
  if gui || (match rest with [] => true | _ => false end
             && negb (str_true port) && negb (int_true baud)) then Done RunGui
  else
    match rest with
    | [] =>
        Done (ParserError
          "Missing mode. Use: [--port P] [--baud B] <mode> [args...] or --gui for GUI interface")
    | r0 :: tail0 =>
        if bool_decide (r0 ∈ MODES) then with_defaults port baud r0 tail0
        else
          match tail0 with
          | r1 :: r2 :: tail3 =>
              if bool_decide (r2 ∈ MODES) then
                (* port = port or rest[0] *)
                let port := if str_true port then port else Some r0 in
                match baud with
                | Some _ => with_defaults port baud r2 tail3
                | None =>
                    match int10 r1 with
                    | Done b => with_defaults port (Some b) r2 tail3
                    | Raised (ValueError _) =>
                        Done (ParserError "Invalid baud in legacy form")
                    | Raised e => Raised e
                    end
                end
              else
                Done (ParserError
                  "Unrecognized arguments. Use: [--port P] [--baud B] <mode> [args...] or legacy: <port> <baud> <mode> [args...]")
          | _ =>
              Done (ParserError
                "Unrecognized arguments. Use: [--port P] [--baud B] <mode> [args...] or legacy: <port> <baud> <mode> [args...]")
          end
    end.

End Main.

(** [int(a, 16)] and [int(s)] on plain ASCII literals: an optional sign, for
    base 16 an optional [0x] prefix, then one or more digits.  Python accepts
    more (blanks around the literal, underscores between digits, other
    scripts' digits), so this function stands for [int] on such literals
    only; it evaluates the examples, and the properties are proved for any
    parsing function. *)
Definition digit_value (base : Z) (c : Ascii.ascii) : option Z :=
  let n := Z.of_nat (Ascii.nat_of_ascii c) in
  let d :=
    if (48 <=? n) && (n <=? 57) then Some (n - 48)
    else if (97 <=? n) && (n <=? 102) then Some (n - 87)
    else if (65 <=? n) && (n <=? 70) then Some (n - 55)
    else None in
  match d with
  | Some d => if d <? base then Some d else None
  | None => None
  end.

Fixpoint digits_value (base : Z) (acc : Z) (s : string) : option Z :=
  match s with
  | EmptyString => Some acc
  | String c rest =>
      match digit_value base c with
      | Some d => digits_value base (acc * base + d) rest
      | None => None
      end
  end.

Definition unsigned_value (base : Z) (s : string) : option Z :=
  match s with
  | EmptyString => None
  | _ => digits_value base 0 s
  end.

(** The sign and the [0x] prefix, by character code: 45 and 43 are the two
    signs, 48 is the digit zero, 120 and 88 the letter x. *)
Definition strip_sign (s : string) : Z * string :=
  match s with
  | String c rest =>
      let n := Ascii.nat_of_ascii c in
      if (n =? 45)%nat then (-1, rest)
      else if (n =? 43)%nat then (1, rest)
      else (1, s)
  | EmptyString => (1, s)
  end.

Definition strip_0x (s : string) : string :=
  match s with
  | String c0 (String c1 rest) =>
      let n0 := Ascii.nat_of_ascii c0 in
      let n1 := Ascii.nat_of_ascii c1 in
      if ((n0 =? 48) && ((n1 =? 120) || (n1 =? 88)))%nat then rest else s
  | _ => s
  end.

Definition ascii_int (base : Z) (s : string) : outcome Z :=
  let '(sign, body) := strip_sign s in
  let body := if base =? 16 then strip_0x body else body in
  match unsigned_value base body with
  | Some v => Done (sign * v)
  | None => Raised (ValueError "invalid literal for int()")
  end.

End Cli.

(** ** The event loop of [run_interactive] *)

Module Interactive.
Import Frame Keyboard Mouse.

(** A pygame event as the loop reads it: its type and the attributes used
    ([ev.button], [ev.rel], [ev.key] and [ev.mod]). *)
Inductive event : Type :=
| QUIT
| MOUSEBUTTONDOWN (button : Z)
| MOUSEBUTTONUP (button : Z)
| MOUSEMOTION (rel : Z * Z)
| KEYDOWN (key mod_ : Z)
| KEYUP (key mod_ : Z)
| OTHER.

(** The variables [captured], [buttons] and [running].  The status texts
    [last_text] and [mouse_text] are only drawn and are left out. *)
Record ui : Type := mk_ui {
  captured : bool;
  buttons : Z;
  running : bool;
}.

Definition ui_init : ui := {| captured := false; buttons := 0; running := true |}.

(** [send_sc(sc_bytes)] and [send_mouse(mouse_bytes)]: the arguments of the
    [ser.write] calls they make. *)
Definition send_sc (sc_bytes : list Z) : outcome (list (list Z)) :=
  data ←! build_scancode_frame sc_bytes;
  Done [data].

Definition send_mouse (mouse_bytes : list Z) : outcome (list (list Z)) :=
  match mouse_bytes with
  | [] => Done []
  | _ =>
      data ←! build_mouse_frame mouse_bytes;
      Done [data]
  end.

(** [set_capture(on)]; the grab and the cursor belong to pygame. *)
Definition set_capture (s : ui) (on : bool) : ui :=
  {| captured := on; buttons := buttons s; running := running s |}.

(** The replies of the device emulation go out one frame per byte. *)
Fixpoint reply_writes (replies : list Z) : outcome (list (list Z)) :=
  match replies with
  | [] => Done []
  | b :: rest =>
      data ←! mouse_reply_byte b;
      more ←! reply_writes rest;
      Done (data :: more)
  end.

(** [mapping.get(k)] on a dictionary written as a literal: of two entries
    with the same key the later one counts. *)
Fixpoint dict_get (items : list (Z * string)) (k : Z) : option string :=
  match items with
  | [] => None
  | (k', v) :: rest =>
      match dict_get rest k with
      | Some v' => Some v'
      | None => if k' =? k then Some v else None
      end
  end.

Section Loop.

(** Python's [str.lower] and [chr], and the [pygame] module as the loop
    sees it: [pygame name] is the value of the attribute [pygame.<name>] and
    [pygame_has name] is [hasattr(pygame, name)].  The attributes that the
    code reads without a default are taken to exist. *)
Variable str_lower : string → string.
Variable chr : Z → outcome string.
Variable pygame : string → Z.
Variable pygame_has : string → bool.

(** [getattr(pygame, name, default)] *)
Definition getattr (name : string) (default : Z) : Z :=
  if pygame_has name then pygame name else default.

(** The dictionary [mapping] of [pygame_key_to_name], in source order. *)
Definition mapping : list (Z * string) :=
  [
    (pygame "K_RETURN"%string, "enter"%string);
    (pygame "K_ESCAPE"%string, "esc"%string);
    (pygame "K_BACKSPACE"%string, "backspace"%string);
    (pygame "K_TAB"%string, "tab"%string);
    (pygame "K_SPACE"%string, "space"%string);
    (pygame "K_LSHIFT"%string, "leftshift"%string);
    (pygame "K_RSHIFT"%string, "rightshift"%string);
    (pygame "K_LCTRL"%string, "leftctrl"%string);
    (pygame "K_RCTRL"%string, "rightctrl"%string);
    (pygame "K_LALT"%string, "leftalt"%string);
    (pygame "K_RALT"%string, "rightalt"%string);
    (pygame "K_CAPSLOCK"%string, "capslock"%string);
    (getattr "K_NUMLOCKCLEAR"%string (pygame "K_CLEAR"%string), "numlock"%string);
    ((if pygame_has "K_SCROLLOCK"%string
      then getattr "K_SCROLLOCK"%string (pygame "K_SCROLLLOCK"%string)
      else pygame "K_SCROLLLOCK"%string), "scrolllock"%string);
    (pygame "K_UP"%string, "up"%string);
    (pygame "K_DOWN"%string, "down"%string);
    (pygame "K_LEFT"%string, "left"%string);
    (pygame "K_RIGHT"%string, "right"%string);
    (pygame "K_F1"%string, "f1"%string);
    (pygame "K_F2"%string, "f2"%string);
    (pygame "K_F3"%string, "f3"%string);
    (pygame "K_F4"%string, "f4"%string);
    (pygame "K_F5"%string, "f5"%string);
    (pygame "K_F6"%string, "f6"%string);
    (pygame "K_F7"%string, "f7"%string);
    (pygame "K_F8"%string, "f8"%string);
    (pygame "K_F9"%string, "f9"%string);
    (pygame "K_F10"%string, "f10"%string);
    (pygame "K_F11"%string, "f11"%string);
    (pygame "K_F12"%string, "f12"%string);
    (pygame "K_BACKQUOTE"%string, "backquote"%string);
    (pygame "K_MINUS"%string, "minus"%string);
    (pygame "K_EQUALS"%string, "equals"%string);
    (pygame "K_LEFTBRACKET"%string, "leftbracket"%string);
    (pygame "K_RIGHTBRACKET"%string, "rightbracket"%string);
    (pygame "K_BACKSLASH"%string, "backslash"%string);
    (pygame "K_SEMICOLON"%string, "semicolon"%string);
    (pygame "K_QUOTE"%string, "quote"%string);
    (pygame "K_COMMA"%string, "comma"%string);
    (pygame "K_PERIOD"%string, "period"%string);
    (pygame "K_SLASH"%string, "slash"%string);
    (pygame "K_INSERT"%string, "insert"%string);
    (pygame "K_HOME"%string, "home"%string);
    (pygame "K_PAGEUP"%string, "pageup"%string);
    (pygame "K_DELETE"%string, "delete"%string);
    (pygame "K_END"%string, "end"%string);
    (pygame "K_PAGEDOWN"%string, "pagedown"%string);
    (getattr "K_PRINTSCREEN"%string (pygame "K_SYSREQ"%string), "printscreen"%string);
    (pygame "K_PAUSE"%string, "pause"%string);
    (pygame "K_KP_DIVIDE"%string, "kp_divide"%string);
    (pygame "K_KP_MULTIPLY"%string, "kp_multiply"%string);
    (pygame "K_KP_MINUS"%string, "kp_minus"%string);
    (pygame "K_KP_PLUS"%string, "kp_plus"%string);
    (pygame "K_KP_ENTER"%string, "kp_enter"%string);
    (pygame "K_KP_EQUALS"%string, "kp_equals"%string);
    (pygame "K_KP_PERIOD"%string, "kp_period"%string);
    (pygame "K_KP0"%string, "kp_0"%string);
    (pygame "K_KP1"%string, "kp_1"%string);
    (pygame "K_KP2"%string, "kp_2"%string);
    (pygame "K_KP3"%string, "kp_3"%string);
    (pygame "K_KP4"%string, "kp_4"%string);
    (pygame "K_KP5"%string, "kp_5"%string);
    (pygame "K_KP6"%string, "kp_6"%string);
    (pygame "K_KP7"%string, "kp_7"%string);
    (pygame "K_KP8"%string, "kp_8"%string);
    (pygame "K_KP9"%string, "kp_9"%string) ].

(** [pygame_key_to_name(k)]; [None] is Python's [None]. *)
Definition pygame_key_to_name (k : Z) : outcome (option string) :=
  if (pygame "K_a"%string <=? k) && (k <=? pygame "K_z"%string) then
    c ←! chr (k - pygame "K_a"%string + 97);
    Done (Some c)
  else if (pygame "K_0"%string <=? k) && (k <=? pygame "K_9"%string) then
    c ←! chr k;
    Done (Some c)
  else Done (dict_get mapping k).

(** The branch [elif ev.type in (pygame.KEYDOWN, pygame.KEYUP)]. *)
Definition handle_key (s : ui) (down : bool) (key mod_ : Z)
  : outcome (ui * list (list Z)) :=
  name ←! pygame_key_to_name key;
  if down && (key =? pygame "K_ESCAPE"%string)
     && negb (Z.land mod_ (pygame "KMOD_GUI"%string) =? 0) then
    Done (set_capture s false, [])
  else
    match name with
    | None => Done (s, [])
    | Some name =>
        let pressed := down in
        sc ←! expand_keys_to_scancodes str_lower [name] pressed;
        w ←! send_sc sc;
        Done (s, w)
    end.

(** The body of [for ev in pygame.event.get()]: the new state and the
    [ser.write] calls. *)
Definition handle_event (s : ui) (ev : event) : outcome (ui * list (list Z)) :=
  match ev with
  | QUIT => Done ({| captured := captured s; buttons := buttons s; running := false |}, [])
  | MOUSEBUTTONDOWN b =>
      if negb (captured s) then Done (set_capture s true, [])
      else
        let buttons :=
          if b =? 1 then Z.lor (buttons s) 0x1
          else if b =? 3 then Z.lor (buttons s) 0x2
          else if b =? 2 then Z.lor (buttons s) 0x4
          else buttons s in
        let pkt := ps2_mouse_packet 0 0 buttons in
        w ←! send_mouse pkt;
        Done ({| captured := captured s; buttons := buttons; running := running s |}, w)
  | MOUSEBUTTONUP b =>
      if captured s then
        let buttons :=
          if b =? 1 then Z.land (buttons s) (Z.lnot 0x1)
          else if b =? 3 then Z.land (buttons s) (Z.lnot 0x2)
          else if b =? 2 then Z.land (buttons s) (Z.lnot 0x4)
          else buttons s in
        let pkt := ps2_mouse_packet 0 0 buttons in
        w ←! send_mouse pkt;
        Done ({| captured := captured s; buttons := buttons; running := running s |}, w)
      else Done (s, [])
  | MOUSEMOTION (dx, dy) =>
      if captured s then
        let pkt := ps2_mouse_packet dx dy (buttons s) in
        w ←! send_mouse pkt;
        Done (s, w)
      else Done (s, [])
  | KEYDOWN key mod_ => handle_key s true key mod_
  | KEYUP key mod_ => handle_key s false key mod_
  | OTHER => Done (s, [])
  end.

(** [for ev in pygame.event.get(): ...] *)
Fixpoint handle_events (s : ui) (evs : list event) : outcome (ui * list (list Z)) :=
  match evs with
  | [] => Done (s, [])
  | ev :: rest =>
      '(s', w) ←! handle_event s ev;
      '(s'', more) ←! handle_events s' rest;
      Done (s'', w ++ more)
  end.

End Loop.

(** [chr] on the ASCII range, where the character is one byte, and the key
    codes and the modifier mask of pygame 2 (those of SDL 2).  They evaluate
    the examples; the properties are proved for any [chr] that agrees with
    this one on the ASCII range and for any key codes within the stated
    bounds. *)
Definition ascii_chr (n : Z) : outcome string :=
  if (0 <=? n) && (n <? 128) then Done (String (Ascii.ascii_of_nat (Z.to_nat n)) EmptyString)
  else Raised (ValueError "chr() arg outside the ASCII range").

Definition sdl2_attributes : list (string * Z) :=
  [ ("K_a", 97); ("K_z", 122); ("K_0", 48); ("K_9", 57); ("K_RETURN", 13);
    ("K_ESCAPE", 27); ("K_BACKSPACE", 8); ("K_TAB", 9); ("K_SPACE", 32);
    ("K_LSHIFT", 1073742049); ("K_RSHIFT", 1073742053); ("K_LCTRL", 1073742048);
    ("K_RCTRL", 1073742052); ("K_LALT", 1073742050); ("K_RALT", 1073742054);
    ("K_CAPSLOCK", 1073741881); ("K_NUMLOCKCLEAR", 1073741907);
    ("K_CLEAR", 1073741980); ("K_SCROLLOCK", 1073741895); ("K_SCROLLLOCK", 1073741895);
    ("K_UP", 1073741906); ("K_DOWN", 1073741905); ("K_LEFT", 1073741904);
    ("K_RIGHT", 1073741903); ("K_BACKQUOTE", 96); ("K_MINUS", 45); ("K_EQUALS", 61);
    ("K_LEFTBRACKET", 91); ("K_RIGHTBRACKET", 93); ("K_BACKSLASH", 92);
    ("K_SEMICOLON", 59); ("K_QUOTE", 39); ("K_COMMA", 44); ("K_PERIOD", 46);
    ("K_SLASH", 47); ("K_INSERT", 1073741897); ("K_HOME", 1073741898);
    ("K_PAGEUP", 1073741899); ("K_DELETE", 127); ("K_END", 1073741901);
    ("K_PAGEDOWN", 1073741902); ("K_PRINTSCREEN", 1073741894);
    ("K_SYSREQ", 1073741978); ("K_PAUSE", 1073741896); ("K_KP_DIVIDE", 1073741908);
    ("K_KP_MULTIPLY", 1073741909); ("K_KP_MINUS", 1073741910);
    ("K_KP_PLUS", 1073741911); ("K_KP_ENTER", 1073741912); ("K_KP_EQUALS", 1073741927);
    ("K_KP_PERIOD", 1073741923); ("K_KP0", 1073741922); ("KMOD_GUI", 3072);
    ("K_F1", 1073741882); ("K_F2", 1073741883); ("K_F3", 1073741884);
    ("K_F4", 1073741885); ("K_F5", 1073741886); ("K_F6", 1073741887);
    ("K_F7", 1073741888); ("K_F8", 1073741889); ("K_F9", 1073741890);
    ("K_F10", 1073741891); ("K_F11", 1073741892); ("K_F12", 1073741893);
    ("K_KP1", 1073741913); ("K_KP2", 1073741914); ("K_KP3", 1073741915);
    ("K_KP4", 1073741916); ("K_KP5", 1073741917); ("K_KP6", 1073741918);
    ("K_KP7", 1073741919); ("K_KP8", 1073741920); ("K_KP9", 1073741921) ]%string.

Definition sdl2 (name : string) : Z :=
  default 0 (list_to_map (M := gmap string Z) sdl2_attributes !! name).

Definition sdl2_has (name : string) : bool :=
  bool_decide (is_Some (list_to_map (M := gmap string Z) sdl2_attributes !! name)).


(** The frames a poll dispatches drive the device emulation in order. *)
Fixpoint dispatch_all (m : mouse) (frames : list rx_frame) : mouse * list Z :=
  match frames with
  | [] => (m, [])
  | f :: rest =>
      let '(m', replies) := dispatch m f in
      let '(m'', more) := dispatch_all m' rest in
      (m'', replies ++ more)
  end.

(** [# Poll UART for incoming frames]: [chunks] are the non-empty results
    of [ser.read(256)] before the empty one that ends the poll.  The result
    is the reader, the emulation and the [ser.write] calls; [None] when the
    reader's fuel runs out.  The reader and the emulation share no variable,
    so the frames are collected first and dispatched afterwards. *)
Definition poll (r : rx) (m : mouse) (chunks : list (list Z))
  : option (outcome (rx * mouse * list (list Z))) :=
  match feed_chunks r chunks with
  | None => None
  | Some (Raised e) => Some (Raised e)
  | Some (Done (r', frames)) =>
      let '(m', replies) := dispatch_all m frames in
      Some (w ←! reply_writes replies; Done (r', m', w))
  end.

(** The two kinds of frame the event loop writes, as the receiver sees
    them: a mouse frame carries a three-byte packet with the sync bit set, a
    scancode frame carries the bytes of one key. *)
Definition mouse_frame_of (d : list Z) : Prop :=
  ∃ status bx by',
    d = [0xAA; 0; 4; 0x0E; status; bx; by']
    ∧ is_byte status ∧ is_byte bx ∧ is_byte by' ∧ Z.testbit status 3 = true.

Definition scancode_frame_of (d : list Z) : Prop :=
  ∃ sc, d = [0xAA; 0; 1 + len sc; 0x0C] ++ sc ∧ is_bytes sc ∧ len sc ≤ 8.

End Interactive.

(** ** The GUI's helper that creates an empty disk image *)

Module Gui.
Import Mksdcard.

(** The [while remaining > 0] loop of [create_thread] in [create_empty_vhd]:
    the bytes written to the file and the percentages shown, in order.
    [None] when the fuel runs out. *)
Fixpoint write_loop (fuel : nat) (size_bytes chunk_size remaining : Z)
    (f : list Z) (progress : list Z) : option (list Z * list Z) :=
  match fuel with
  | O => None
  | S fuel' =>
      if 0 <? remaining then
        let write_size := Z.min chunk_size remaining in
        let f := f ++ zeros write_size in
        let remaining := remaining - write_size in
        let percent := ((size_bytes - remaining) * 100) / size_bytes in
        write_loop fuel' size_bytes chunk_size remaining f (progress ++ [percent])
      else Some (f, progress)
  end.

(** How [create_empty_vhd] ends. *)
Inductive vhd_result : Type :=
| VhdError (msg : string)                          (* messagebox.showerror *)
| VhdCancelled                                     (* no file chosen, or no overwrite *)
| VhdCreated (file : string) (content : list Z) (progress : list Z).

Section CreateEmptyVhd.

(** Python's [int(s)]. *)
Variable int10 : string → outcome Z.

(** [create_empty_vhd()]: [size_text] is the content of the size field,
    [file] the answer of the save dialog, [file_exists] and [overwrite] the
    existence test and the answer to the overwrite question.  The loop
    writes one MiB at a time, so [size_mb] iterations are enough; one more
    sees [remaining = 0]. *)
Definition create_empty_vhd (size_text : string) (file : option string)
    (file_exists overwrite : bool) : option (outcome vhd_result) :=
  match int10 size_text with
  | Raised (ValueError _) => Some (Done (VhdError "Invalid size value"))
  | Raised e => Some (Raised e)
  | Done size_mb =>
      if size_mb <=? 0 then Some (Done (VhdError "Size must be greater than 0"))
      else
        match file with
        | None | Some EmptyString => Some (Done VhdCancelled)
        | Some file =>
            if file_exists && negb overwrite then Some (Done VhdCancelled)
            else
              let size_bytes := size_mb * 1024 * 1024 in
              let chunk_size := 1024 * 1024 in
              match write_loop (S (Z.to_nat size_mb)) size_bytes chunk_size size_bytes [] [] with
              | None => None
              | Some (content, progress) => Some (Done (VhdCreated file content progress))
              end
        end
  end.

End CreateEmptyVhd.

End Gui.

(** * Properties *)

(** ** Bit-level arithmetic shared by the proofs *)

Lemma land_0xFF (n : Z) : Z.land n 0xFF = n `mod` 256.
Proof. change 0xFF with (Z.ones 8). now rewrite Z.land_ones by lia. Qed.

Lemma land_0xFFFF (n : Z) : Z.land n 0xFFFF = n `mod` 65536.
Proof. change 0xFFFF with (Z.ones 16). now rewrite Z.land_ones by lia. Qed.

Lemma shiftr_8 (n : Z) : Z.shiftr n 8 = n `div` 256.
Proof. now rewrite Z.shiftr_div_pow2 by lia. Qed.

(** Or-ing a value below [2^k] into a value shifted left by [k] adds them. *)
Lemma lor_shiftl_add (hi lo k : Z) :
  0 ≤ k → 0 ≤ lo < 2 ^ k → Z.lor (Z.shiftl hi k) lo = hi * 2 ^ k + lo.
Proof.
  intros Hk Hlo.
  assert (Hdisj : Z.land (Z.shiftl hi k) lo = 0).
  { apply Z.bits_inj'. intros i Hi.
    rewrite Z.land_spec, Z.bits_0.
    destruct (Z.lt_ge_cases i k) as [Hlt | Hge].
    - rewrite Z.shiftl_spec_low by lia. reflexivity.
    - replace lo with (lo `mod` 2 ^ k) by (apply Z.mod_small; lia).
      rewrite Z.mod_pow2_bits_high by lia. apply andb_false_r. }
  pose proof (Z.add_lor_land (Z.shiftl hi k) lo) as Hadd.
  rewrite Hdisj, Z.add_0_r in Hadd. rewrite Hadd.
  now rewrite Z.shiftl_mul_pow2 by lia.
Qed.

(** The two length bytes of a frame are the big-endian digits of the length,
    and the reader's [(b1 << 8) | b2] puts them back together. *)
Lemma be16_bytes (n : Z) :
  0 ≤ n < 65536 →
  Z.land (Z.shiftr n 8) 0xFF = n `div` 256 ∧ Z.land n 0xFF = n `mod` 256.
Proof.
  intros Hn. rewrite land_0xFF, land_0xFF, shiftr_8. split; [|reflexivity].
  apply Z.mod_small. split; [apply Z.div_pos; lia | apply Z.div_lt_upper_bound; lia].
Qed.

Lemma be16_join (n : Z) :
  0 ≤ n < 65536 →
  Z.lor (Z.shiftl (Z.land (Z.shiftr n 8) 0xFF) 8) (Z.land n 0xFF) = n.
Proof.
  intros Hn. destruct (be16_bytes n Hn) as [-> ->].
  rewrite lor_shiftl_add by (pose proof (Z.mod_pos_bound n 256); lia).
  change (2 ^ 8) with 256. pose proof (Z.div_mod n 256). lia.
Qed.

Lemma len_nonneg {A : Type} (l : list A) : 0 ≤ len l.
Proof. unfold len. lia. Qed.

Lemma len_app {A : Type} (l k : list A) : len (l ++ k) = len l + len k.
Proof. unfold len. rewrite length_app. lia. Qed.

Lemma len_cons {A : Type} (x : A) (l : list A) : len (x :: l) = 1 + len l.
Proof. unfold len. cbn [length]. lia. Qed.

Lemma len_nil {A : Type} : len (@nil A) = 0.
Proof. reflexivity. Qed.

Lemma len_replicate {A : Type} (n : nat) (x : A) : len (replicate n x) = Z.of_nat n.
Proof. unfold len. now rewrite length_replicate. Qed.

(** ** The frame codec *)

Module FrameProofs.
Import Frame.

(** The wire form of a payload whose length fits. *)
Local Abbreviation wire payload :=
  (0xAA :: Z.land (Z.shiftr (len payload) 8) 0xFF :: Z.land (len payload) 0xFF :: payload).

Lemma frame_fits (payload : list Z) :
  len payload ≤ 2047 → frame payload = Done (wire payload).
Proof.
  intros Hlen. unfold frame. cbv zeta.
  destruct (Z.ltb_spec 0x07FF (len payload)) as [Hgt | _]; [lia | reflexivity].
Qed.

Lemma frame_too_long (payload : list Z) :
  2047 < len payload → frame payload = Raised (ValueError "frame too long").
Proof.
  intros Hlen. unfold frame. cbv zeta.
  destruct (Z.ltb_spec 0x07FF (len payload)) as [_ | Hle]; [reflexivity | lia].
Qed.

(** What the [SEEK] block does on a buffer that starts with the marker and
    holds at least four bytes. *)
Lemma seek_block_marker (h lo x : Z) (rest : list Z) (l : Z) (p : list Z) :
  let buf := 0xAA :: h :: lo :: x :: rest in
  let rxlen := Z.lor (Z.shiftl h 8) lo in
  seek_block (mk_rx buf SEEK l p) =
    if len buf <? 3 + rxlen then Done (inl (mk_rx buf SEEK rxlen p))
    else Done (inr (mk_rx (slice_from buf (3 + rxlen)) HAVE rxlen (slice buf 3 (3 + rxlen)))).
Proof.
  intros buf rxlen. unfold seek_block. cbn [rx_state rx_buf rx_len rx_payload].
  subst buf. cbn [find_byte]. rewrite Z.eqb_refl. cbn [drop].
  destruct (Z.ltb_spec (len (0xAA :: h :: lo :: x :: rest)) 4) as [Hlt | _].
  { rewrite !len_cons in Hlt. pose proof (len_nonneg rest). lia. }
  reflexivity.
Qed.

(** On a shorter buffer that starts with the marker it waits. *)
Lemma seek_block_short (buf : list Z) (l : Z) (p : list Z) :
  (length buf < 3)%nat →
  seek_block (mk_rx (0xAA :: buf) SEEK l p) = Done (inl (mk_rx (0xAA :: buf) SEEK l p)).
Proof.
  intros Hshort. unfold seek_block. cbn [rx_state rx_buf rx_len rx_payload find_byte].
  rewrite Z.eqb_refl. cbn [drop].
  destruct (Z.ltb_spec (len (0xAA :: buf)) 4) as [_ | Hge]; [reflexivity|].
  rewrite len_cons in Hge. unfold len in Hge. lia.
Qed.

Lemma seek_block_empty (l : Z) (p : list Z) :
  seek_block (mk_rx [] SEEK l p) = Done (inl (mk_rx [] SEEK l p)).
Proof. reflexivity. Qed.

(** A buffer that holds a proper prefix of one frame: the reader waits. *)
Lemma parse_pass_prefix (st : rx) (payload q : list Z) :
  len payload ≤ 2047 →
  rx_state st = SEEK →
  rx_buf st ++ q = wire payload → q ≠ [] →
  ∃ st', parse_pass st = Done (Break st') ∧ rx_state st' = SEEK ∧ rx_buf st' = rx_buf st.
Proof.
  intros Hlen Hst Hbuf Hq. unfold parse_pass.
  destruct st as [buf s l p]; cbn [rx_buf rx_state rx_len rx_payload] in *. subst s.
  destruct buf as [|a buf].
  { rewrite seek_block_empty. cbn. eauto. }
  injection Hbuf as -> Hbuf.
  destruct (decide (length buf < 3)%nat) as [Hshort | Hlong].
  { rewrite seek_block_short by done. cbn. eauto. }
  destruct buf as [|h [|lo [|x rest]]]; cbn [length] in Hlong; try lia.
  injection Hbuf as -> -> Hpay.
  rewrite seek_block_marker. cbv zeta.
  rewrite be16_join by (pose proof (len_nonneg payload); lia).
  match goal with |- context [?a <? ?b] => destruct (Z.ltb_spec a b) as [_ | Hge] end.
  { cbn. eauto. }
  exfalso. rewrite <- Hpay in Hge. rewrite !len_cons, len_app in Hge.
  destruct q; [done|]. rewrite len_cons in Hge. pose proof (len_nonneg q). lia.
Qed.

Lemma slice_wire (payload : list Z) (a h lo : Z) :
  slice (a :: h :: lo :: payload) 3 (3 + len payload) = payload
  ∧ slice_from (a :: h :: lo :: payload) (3 + len payload) = [].
Proof.
  unfold slice, slice_from, len.
  replace (Z.to_nat (3 + Z.of_nat (length payload))) with (3 + length payload)%nat by lia.
  change (Z.to_nat 3) with 3%nat.
  replace (3 + length payload - 3)%nat with (length payload) by lia.
  cbn [drop Nat.add]. split; [apply firstn_all | apply drop_all].
Qed.

(** A buffer that holds exactly one frame with a non-empty payload: the
    frame is dispatched and the buffer is left empty. *)
Lemma parse_pass_complete (t : Z) (b : list Z) (l : Z) (p : list Z) :
  len (t :: b) ≤ 2047 →
  parse_pass (mk_rx (wire (t :: b)) SEEK l p) =
    Done (Again (mk_rx [] SEEK (len (t :: b)) (t :: b)) [(t, b)]).
Proof.
  intros Hlen. unfold parse_pass. rewrite seek_block_marker. cbv zeta.
  rewrite be16_join by (pose proof (len_nonneg (t :: b)); lia).
  match goal with |- context [?a <? ?b] => destruct (Z.ltb_spec a b) as [Hlt | _] end.
  { rewrite !len_cons in Hlt. lia. }
  destruct (slice_wire (t :: b) 0xAA (Z.land (Z.shiftr (len (t :: b)) 8) 0xFF)
              (Z.land (len (t :: b)) 0xFF)) as [-> ->].
  reflexivity.
Qed.

Lemma parse_frames_prefix (st : rx) (payload q : list Z) :
  len payload ≤ 2047 →
  rx_state st = SEEK →
  rx_buf st ++ q = wire payload → q ≠ [] →
  ∃ st', parse_frames st = Some (Done (st', [])) ∧ rx_state st' = SEEK
         ∧ rx_buf st' = rx_buf st.
Proof.
  intros Hlen Hst Hbuf Hq.
  destruct (parse_pass_prefix st payload q Hlen Hst Hbuf Hq) as (st' & Hpass & Hst' & Hbuf').
  exists st'. unfold parse_frames, parse_fuel. cbn [parse_loop]. rewrite Hpass. done.
Qed.

Lemma parse_frames_complete (t : Z) (b : list Z) (l : Z) (p : list Z) :
  len (t :: b) ≤ 2047 →
  parse_frames (mk_rx (wire (t :: b)) SEEK l p) =
    Some (Done (mk_rx [] SEEK (len (t :: b)) (t :: b), [(t, b)])).
Proof.
  intros Hlen. unfold parse_frames, parse_fuel. cbn [rx_buf length parse_loop].
  rewrite parse_pass_complete by done. reflexivity.
Qed.

Lemma feed_prefix (st : rx) (payload data q : list Z) :
  len payload ≤ 2047 →
  rx_state st = SEEK →
  (rx_buf st ++ data) ++ q = wire payload → q ≠ [] →
  ∃ st', feed st data = Some (Done (st', [])) ∧ rx_state st' = SEEK
         ∧ rx_buf st' = rx_buf st ++ data.
Proof.
  intros Hlen Hst Hbuf Hq. unfold feed.
  exact (parse_frames_prefix (mk_rx (rx_buf st ++ data) _ _ _) payload q Hlen Hst Hbuf Hq).
Qed.

Lemma feed_complete (st : rx) (t : Z) (b data : list Z) :
  len (t :: b) ≤ 2047 →
  rx_state st = SEEK →
  rx_buf st ++ data = wire (t :: b) →
  feed st data = Some (Done (mk_rx [] SEEK (len (t :: b)) (t :: b), [(t, b)])).
Proof.
  intros Hlen Hst Hbuf. unfold feed. rewrite Hbuf, Hst.
  now apply parse_frames_complete.
Qed.

(** However the bytes of a frame are cut into polls, nothing is dispatched
    while a part of the frame is still missing. *)
Lemma feed_chunks_prefix (chunks : list (list Z)) :
  ∀ (st : rx) (payload q : list Z),
    len payload ≤ 2047 →
    rx_state st = SEEK →
    (rx_buf st ++ concat chunks) ++ q = wire payload → q ≠ [] →
    ∃ st', feed_chunks st chunks = Some (Done (st', [])) ∧ rx_state st' = SEEK
           ∧ rx_buf st' = rx_buf st ++ concat chunks.
Proof.
  induction chunks as [|data chunks IH]; intros st payload q Hlen Hst Hbuf Hq.
  - exists st. cbn. rewrite app_nil_r. done.
  - cbn [concat feed_chunks] in *.
    destruct (feed_prefix st payload data (concat chunks ++ q)) as (st1 & -> & Hst1 & Hbuf1).
    + done.
    + done.
    + rewrite <- Hbuf. now rewrite <- !app_assoc.
    + intros Hnil. apply app_eq_nil in Hnil as [_ ?]. done.
    + destruct (IH st1 payload q) as (st2 & -> & Hst2 & Hbuf2); try done.
      { rewrite Hbuf1, <- Hbuf. now rewrite <- !app_assoc. }
      exists st2. rewrite Hbuf2, Hbuf1. now rewrite <- app_assoc.
Qed.

(** ... and the poll that brings the last byte dispatches the frame. *)
Lemma feed_chunks_complete (chunks : list (list Z)) :
  ∀ (st : rx) (t : Z) (b : list Z),
    len (t :: b) ≤ 2047 →
    chunks ≠ [] → Forall (λ data, data ≠ []) chunks →
    rx_state st = SEEK →
    rx_buf st ++ concat chunks = wire (t :: b) →
    feed_chunks st chunks = Some (Done (mk_rx [] SEEK (len (t :: b)) (t :: b), [(t, b)])).
Proof.
  induction chunks as [|data chunks IH]; intros st t b Hlen Hne Hall Hst Hbuf; [done|].
  apply Forall_cons in Hall as [Hdata Hall].
  cbn [concat feed_chunks] in *.
  destruct chunks as [|data' chunks].
  - cbn [concat] in Hbuf. rewrite app_nil_r in Hbuf.
    rewrite (feed_complete st t b data) by done. reflexivity.
  - destruct (feed_prefix st (t :: b) data (concat (data' :: chunks)))
      as (st1 & -> & Hst1 & Hbuf1).
    + done.
    + done.
    + now rewrite <- app_assoc.
    + apply Forall_cons in Hall as [Hdata' _]. cbn [concat].
      intros Hnil. apply app_eq_nil in Hnil as [? _]. done.
    + rewrite (IH st1 t b); try done.
      rewrite Hbuf1, <- app_assoc. done.
Qed.

Lemma concat_singletons (bytes : list Z) : concat ((λ b, [b]) <$> bytes) = bytes.
Proof. induction bytes as [|x bytes IH]; [done|]. cbn. now rewrite IH. Qed.

Lemma singletons_nonempty (bytes : list Z) :
  Forall (λ data : list Z, data ≠ []) ((λ b, [b]) <$> bytes).
Proof. induction bytes; constructor; done. Qed.

(** The round trip from any idle reader state (state [SEEK], nothing
    buffered), whatever [rx_len] and [rx_payload] still hold. *)
Lemma feed_bytes_roundtrip (st : rx) (t : Z) (b : list Z) :
  len (t :: b) ≤ 2047 →
  rx_state st = SEEK → rx_buf st = [] →
  feed_bytes st (wire (t :: b)) =
    Some (Done (mk_rx [] SEEK (len (t :: b)) (t :: b), [(t, b)])).
Proof.
  intros Hlen Hst Hbuf. unfold feed_bytes.
  apply feed_chunks_complete; try done.
  - apply singletons_nonempty.
  - now rewrite Hbuf, concat_singletons.
Qed.

Lemma feed_bytes_partial (st : rx) (payload p q : list Z) :
  len payload ≤ 2047 →
  rx_state st = SEEK → rx_buf st = [] →
  p ++ q = wire payload → q ≠ [] →
  ∃ st', feed_bytes st p = Some (Done (st', [])) ∧ rx_state st' = SEEK ∧ rx_buf st' = p.
Proof.
  intros Hlen Hst Hbuf Hpq Hq. unfold feed_bytes.
  destruct (feed_chunks_prefix ((λ b, [b]) <$> p) st payload q) as (st' & -> & Hst' & Hbuf');
    try done.
  { now rewrite Hbuf, concat_singletons. }
  exists st'. now rewrite Hbuf', Hbuf, concat_singletons.
Qed.

Lemma feed_chunks_app (c1 c2 : list (list Z)) (st : rx) :
  feed_chunks st (c1 ++ c2) =
    match feed_chunks st c1 with
    | Some (Done (st', got)) =>
        match feed_chunks st' c2 with
        | Some (Done (st'', more)) => Some (Done (st'', got ++ more))
        | other => other
        end
    | other => other
    end.
Proof.
  revert st. induction c1 as [|data c1 IH]; intros st.
  - cbn. destruct (feed_chunks st c2) as [[[? ?]|]|]; done.
  - cbn [app feed_chunks]. destruct (feed st data) as [[[st1 got]|]|]; try done.
    rewrite IH. destruct (feed_chunks st1 c1) as [[[st2 got2]|]|]; try done.
    destruct (feed_chunks st2 c2) as [[[st3 got3]|]|]; try done.
    now rewrite app_assoc.
Qed.

(** A stream of frames, delivered one byte at a time, is dispatched frame
    by frame: after each frame the reader starts afresh on the next byte. *)
Lemma feed_bytes_stream (frames : list rx_frame) :
  ∀ st : rx,
    Forall (λ f : rx_frame, len (f.1 :: f.2) ≤ 2047) frames →
    rx_state st = SEEK → rx_buf st = [] →
    ∃ st', feed_bytes st (concat ((λ f : rx_frame, wire (f.1 :: f.2)) <$> frames))
             = Some (Done (st', frames))
           ∧ rx_state st' = SEEK ∧ rx_buf st' = [].
Proof.
  induction frames as [|[t b] frames IH]; intros st Hall Hst Hbuf.
  - exists st. done.
  - apply Forall_cons in Hall as [Hlen Hall]. cbn [fst snd] in Hlen.
    cbn [fmap list_fmap concat fst snd].
    unfold feed_bytes. rewrite fmap_app, feed_chunks_app.
    fold (feed_bytes st (wire (t :: b))). rewrite feed_bytes_roundtrip by done.
    destruct (IH (mk_rx [] SEEK (len (t :: b)) (t :: b))) as (st' & Hrun & Hst' & Hbuf');
      try done.
    unfold feed_bytes in Hrun. rewrite Hrun. exists st'. done.
Qed.

(** *** The reader never raises and its loop always ends *)

Lemma find_byte_drop (b : Z) (buf : list Z) (idx : nat) :
  find_byte b buf = Some idx → (idx ≤ length buf)%nat.
Proof.
  revert idx. induction buf as [|x buf IH]; intros idx; cbn; [done|].
  destruct (x =? b).
  - intros [= <-]. lia.
  - destruct (find_byte b buf) as [i|]; cbn; [|done].
    intros [= <-]. specialize (IH i eq_refl). lia.
Qed.

Lemma have_block_total (st : rx) :
  rx_state st = HAVE →
  ∃ got, have_block st = Done (Again (mk_rx (rx_buf st) SEEK (rx_len st) (rx_payload st)) got).
Proof.
  intros Hst. unfold have_block. rewrite Hst.
  destruct (rx_payload st) as [|x l]; cbn; eauto.
Qed.

(** One pass: no exception; a [break] or the end of the body leaves the
    reader in [SEEK]; and a pass that started in [SEEK] and did not break
    took at least three bytes out of the buffer. *)
Lemma parse_pass_total (st : rx) :
  is_bytes (rx_buf st) →
  ∃ p, parse_pass st = Done p ∧
    match p with
    | Break st' => is_bytes (rx_buf st') ∧ rx_state st' = SEEK
    | Again st' _ =>
        is_bytes (rx_buf st') ∧ rx_state st' = SEEK ∧
        match rx_state st with
        | SEEK => (length (rx_buf st') + 3 ≤ length (rx_buf st))%nat
        | HAVE => rx_buf st' = rx_buf st
        end
    end.
Proof.
  intros Hbytes. unfold parse_pass.
  destruct st as [buf s l p]; cbn [rx_buf rx_state rx_len rx_payload] in *.
  destruct s.
  - unfold seek_block. cbn [rx_buf rx_state rx_len rx_payload].
    destruct (find_byte 0xAA buf) as [idx|] eqn:Hfind.
    2:{ eexists. split; [reflexivity|]. cbn. split; [constructor | done]. }
    pose proof (find_byte_drop _ _ _ Hfind) as Hidx.
    assert (Hdrop : is_bytes (drop idx buf)) by now apply Forall_drop.
    assert (Hlen : (length (drop idx buf) ≤ length buf)%nat) by (rewrite length_drop; lia).
    destruct (Z.ltb_spec (len (drop idx buf)) 4) as [Hlt | Hge].
    { eexists. split; [reflexivity|]. done. }
    destruct (drop idx buf) as [|a [|h [|lo [|x rest]]]] eqn:Hbuf';
      try (unfold len in Hge; cbn [length] in Hge; lia).
    change (index (a :: h :: lo :: x :: rest) 1) with (Done h).
    change (index (a :: h :: lo :: x :: rest) 2) with (Done lo).
    cbn [obind].
    assert (Hrx : 0 ≤ Z.lor (Z.shiftl h 8) lo).
    { apply Forall_cons in Hdrop as [_ Hdrop]. apply Forall_cons in Hdrop as [Hh Hdrop].
      apply Forall_cons in Hdrop as [Hlo _]. unfold is_byte in *.
      apply Z.lor_nonneg. split; [apply Z.shiftl_nonneg|]; lia. }
    destruct (Z.ltb_spec (len (a :: h :: lo :: x :: rest)) (3 + Z.lor (Z.shiftl h 8) lo))
      as [Hlt | Hge'].
    { eexists. split; [reflexivity|]. done. }
    cbn [obind].
    edestruct (have_block_total (mk_rx (slice_from (a :: h :: lo :: x :: rest)
                 (3 + Z.lor (Z.shiftl h 8) lo)) HAVE (Z.lor (Z.shiftl h 8) lo)
                 (slice (a :: h :: lo :: x :: rest) 3 (3 + Z.lor (Z.shiftl h 8) lo))))
      as [got ->]; [done|].
    eexists. split; [reflexivity|]. cbn [rx_buf rx_state rx_len rx_payload].
    split; [now apply Forall_drop | split; [done|]].
    unfold slice_from. rewrite length_drop. cbn [length] in *. lia.
  - cbn [seek_block rx_state obind].
    edestruct (have_block_total (mk_rx buf HAVE l p)) as [got ->]; [done|].
    eexists. split; [reflexivity|]. done.
Qed.

Lemma parse_loop_total (fuel : nat) :
  ∀ st : rx,
    is_bytes (rx_buf st) →
    (match rx_state st with
     | SEEK => length (rx_buf st) < fuel
     | HAVE => S (length (rx_buf st)) < fuel
     end)%nat →
    ∃ st' got, parse_loop fuel st = Some (Done (st', got))
               ∧ is_bytes (rx_buf st') ∧ rx_state st' = SEEK.
Proof.
  induction fuel as [|fuel IH]; intros st Hbytes Hfuel.
  { destruct (rx_state st); lia. }
  cbn [parse_loop].
  destruct (parse_pass_total st Hbytes) as (p & -> & Hp).
  destruct p as [st' | st' got].
  - destruct Hp as [? ?]. eauto.
  - destruct Hp as (Hbytes' & Hst' & Hshrink).
    destruct (IH st' Hbytes') as (st'' & more & -> & ? & ?).
    { rewrite Hst'. destruct (rx_state st); [lia | rewrite Hshrink; lia]. }
    eauto.
Qed.

Lemma parse_frames_terminates (st : rx) :
  is_bytes (rx_buf st) →
  ∃ st' got, parse_frames st = Some (Done (st', got))
             ∧ is_bytes (rx_buf st') ∧ rx_state st' = SEEK.
Proof.
  intros Hbytes. apply parse_loop_total; [done|].
  unfold parse_fuel. destruct (rx_state st); lia.
Qed.

Lemma feed_chunks_total (chunks : list (list Z)) :
  ∀ st : rx,
    is_bytes (rx_buf st) → rx_state st = SEEK → Forall is_bytes chunks →
    ∃ st' got, feed_chunks st chunks = Some (Done (st', got))
               ∧ is_bytes (rx_buf st') ∧ rx_state st' = SEEK.
Proof.
  induction chunks as [|data chunks IH]; intros st Hbytes Hst Hall.
  - cbn. eauto.
  - apply Forall_cons in Hall as [Hdata Hall]. cbn [feed_chunks]. unfold feed.
    destruct (parse_frames_terminates
                (mk_rx (rx_buf st ++ data) (rx_state st) (rx_len st) (rx_payload st)))
      as (st1 & got & -> & Hbytes1 & Hst1).
    { cbn. now apply Forall_app. }
    destruct (IH st1 Hbytes1 Hst1 Hall) as (st2 & more & -> & ? & ?). eauto.
Qed.

Lemma feed_bytes_total (bytes : list Z) :
  is_bytes bytes →
  ∃ st' got, feed_bytes rx_init bytes = Some (Done (st', got)) ∧ rx_state st' = SEEK.
Proof.
  intros Hbytes.
  destruct (feed_chunks_total ((λ b, [b]) <$> bytes) rx_init) as (st' & got & ? & _ & ?).
  - constructor.
  - done.
  - apply Forall_fmap. eapply Forall_impl; [exact Hbytes|].
    intros x Hx. cbn. constructor; [done | constructor].
  - eauto.
Qed.

(** *** A frame with an empty payload *)

Lemma feed_after_empty_frame (x : Z) :
  feed (mk_rx [0xAA; 0; 0] SEEK 0 []) [x] = feed rx_init [x].
Proof.
  unfold feed, parse_frames, parse_fuel.
  cbn [rx_init rx_buf rx_state rx_len rx_payload app length parse_loop].
  unfold parse_pass at 1. rewrite seek_block_marker. cbv zeta.
  change (len [0xAA; 0; 0; x] <? 3 + Z.lor (Z.shiftl 0 8) 0) with false. cbv iota.
  change (slice_from [0xAA; 0; 0; x] (3 + Z.lor (Z.shiftl 0 8) 0)) with [x].
  change (slice [0xAA; 0; 0; x] 3 (3 + Z.lor (Z.shiftl 0 8) 0)) with (@nil Z).
  cbn [obind have_block rx_state rx_payload rx_buf rx_len].
  unfold parse_pass, seek_block. cbn [rx_buf rx_state rx_len rx_payload find_byte].
  destruct (x =? 0xAA); reflexivity.
Qed.

Lemma feed_chunks_cons (st st' : rx) (data : list Z) (rest : list (list Z))
    (got : list rx_frame) :
  feed st data = Some (Done (st', got)) →
  feed_chunks st (data :: rest) =
    match feed_chunks st' rest with
    | Some (Done (st'', more)) => Some (Done (st'', got ++ more))
    | other => other
    end.
Proof. intros Hfeed. cbn [feed_chunks]. now rewrite Hfeed. Qed.

(** Once one more byte has arrived the empty frame is gone: the reader goes
    on exactly as if the three bytes had never been received. *)
Lemma feed_bytes_empty_frame (x : Z) (rest : list Z) :
  feed_bytes rx_init ([0xAA; 0; 0] ++ x :: rest) = feed_bytes rx_init (x :: rest).
Proof.
  unfold feed_bytes. cbn [app fmap list_fmap].
  rewrite (feed_chunks_cons rx_init (mk_rx [0xAA] SEEK 0 []) [0xAA] _ []) by reflexivity.
  rewrite (feed_chunks_cons _ (mk_rx [0xAA; 0] SEEK 0 []) [0] _ []) by reflexivity.
  rewrite (feed_chunks_cons _ (mk_rx [0xAA; 0; 0] SEEK 0 []) [0] _ []) by reflexivity.
  cbn [feed_chunks]. rewrite feed_after_empty_frame.
  destruct (feed rx_init [x]) as [[[st1 got]|]|]; [|done..].
  destruct (feed_chunks st1 ((λ b : Z, [b]) <$> rest)) as [[[st2 more]|]|]; done.
Qed.

(** *** The claims about the codec *)

(** C8.  [frame] raises (ValueError "frame too long", the specification's
    PayloadTooLarge) if and only if the payload is longer than 2047 bytes.
    Otherwise it returns the marker byte 0xAA, the payload length as a
    big-endian 16-bit field, and the payload.  The payload that
    [build_scancode_frame] and [build_mouse_frame] hand to [frame] is the
    command byte followed by the body. *)
Theorem frame_raises_iff_too_long (payload : list Z) :
  (frame payload = Raised (ValueError "frame too long") ↔ 2047 < len payload)
  ∧ (frame payload = Done ([0xAA; len payload `div` 256; len payload `mod` 256] ++ payload)
     ↔ len payload ≤ 2047)
  ∧ (len payload ≤ 2047 →
     is_byte (len payload `div` 256) ∧ is_byte (len payload `mod` 256)
     ∧ 256 * (len payload `div` 256) + len payload `mod` 256 = len payload)
  ∧ build_scancode_frame payload = frame (CMD_PS2_SCANCODE :: payload)
  ∧ build_mouse_frame payload = frame (CMD_PS2_MOUSE :: payload).
Proof.
  pose proof (len_nonneg payload) as Hnn.
  assert (Hfit : len payload ≤ 2047 →
    frame payload = Done ([0xAA; len payload `div` 256; len payload `mod` 256] ++ payload)).
  { intros Hlen. rewrite frame_fits by done.
    destruct (be16_bytes (len payload)) as [-> ->]; [lia | reflexivity]. }
  repeat split.
  - intros Hraised. destruct (Z.le_gt_cases (len payload) 2047) as [Hle | Hgt]; [|lia].
    rewrite Hfit in Hraised by done. discriminate.
  - apply frame_too_long.
  - intros Hdone. destruct (Z.le_gt_cases (len payload) 2047) as [Hle | Hgt]; [done|].
    rewrite frame_too_long in Hdone by lia. discriminate.
  - exact Hfit.
  - apply Z.div_pos; lia.
  - apply Z.div_lt_upper_bound; lia.
  - apply Z.mod_pos_bound; lia.
  - apply Z.mod_pos_bound; lia.
  - pose proof (Z.div_mod (len payload) 256). lia.
Qed.

(** The encoder at a two-byte payload, and at a payload that is too long. *)
Lemma frame_raises_iff_too_long_witness :
  frame [0x0C; 0x1C] = Done [0xAA; 0; 2; 0x0C; 0x1C]
  ∧ frame (replicate 2048 0) = Raised (ValueError "frame too long").
Proof.
  split.
  - apply (proj2 (proj1 (proj2 (frame_raises_iff_too_long [0x0C; 0x1C])))).
    vm_compute. discriminate.
  - apply (proj2 (proj1 (frame_raises_iff_too_long (replicate 2048 0)))).
    vm_compute. reflexivity.
Defined.

(** C1 as stated fails in one clause: the frame of an empty payload is not
    discarded once it is fully received.  The reader does not look at the
    length field before the buffer holds four bytes, so the three bytes of
    the frame are still in the buffer after the last of them has arrived; a
    frame with a payload, here of one byte, leaves the buffer empty. *)
Lemma empty_frame_not_discarded_counterexample :
  frame [] = Done [0xAA; 0; 0]
  ∧ feed_bytes rx_init [0xAA; 0; 0] = Some (Done (mk_rx [0xAA; 0; 0] SEEK 0 [], []))
  ∧ rx_buf (mk_rx [0xAA; 0; 0] SEEK 0 []) ≠ []
  ∧ feed_bytes rx_init [0xAA; 0; 1; 0x06] = Some (Done (mk_rx [] SEEK 1 [0x06], [(0x06, [])])).
Proof.
  split; [reflexivity|]. split; [vm_compute; reflexivity|].
  split; [discriminate | vm_compute; reflexivity].
Qed.

(** C1, amended.  Round trip under byte-at-a-time delivery.  For a type byte
    [t] and a body [b] whose frame payload [t :: b] has at most 2047 bytes,
    feeding the encoded frame to an idle reader one byte at a time dispatches
    exactly [(t, b)] and leaves the reader in [SEEK] with an empty buffer; no
    proper prefix of the frame dispatches anything; and the bytes that follow
    the frame are read as a fresh stream, so a marker byte inside the payload
    is never taken for the start of a frame.  The frame of an empty payload
    dispatches nothing: its three bytes stay buffered until one more byte
    arrives, and from then on the reader behaves as if they had never been
    sent.  On every sequence of bytes the reader returns (its loop ends)
    without raising, back in [SEEK]. *)
Theorem frame_roundtrip_bytewise :
  (∀ (t : Z) (b : list Z),
     len (t :: b) ≤ 2047 →
     ∃ enc st',
       frame (t :: b) = Done enc
       ∧ feed_bytes rx_init enc = Some (Done (st', [(t, b)]))
       ∧ rx_state st' = SEEK ∧ rx_buf st' = []
       ∧ (∀ p q, p ++ q = enc → q ≠ [] →
            ∃ st'', feed_bytes rx_init p = Some (Done (st'', []))
                    ∧ rx_state st'' = SEEK ∧ rx_buf st'' = p)
       ∧ (∀ rest,
            feed_bytes rx_init (enc ++ rest) =
              match feed_bytes st' rest with
              | Some (Done (st'', more)) => Some (Done (st'', (t, b) :: more))
              | other => other
              end))
  ∧ (frame [] = Done [0xAA; 0; 0]
     ∧ feed_bytes rx_init [0xAA; 0; 0] = Some (Done (mk_rx [0xAA; 0; 0] SEEK 0 [], []))
     ∧ ∀ x rest,
         feed_bytes rx_init ([0xAA; 0; 0] ++ x :: rest) = feed_bytes rx_init (x :: rest))
  ∧ (∀ bytes,
       is_bytes bytes →
       ∃ st' got, feed_bytes rx_init bytes = Some (Done (st', got)) ∧ rx_state st' = SEEK).
Proof.
  split; [|split].
  - intros t b Hlen.
    exists (wire (t :: b)), (mk_rx [] SEEK (len (t :: b)) (t :: b)).
    split; [now apply frame_fits|].
    split; [now apply feed_bytes_roundtrip|].
    split; [done|]. split; [done|]. split.
    + intros p q Hpq Hq. now apply (feed_bytes_partial rx_init (t :: b) p q).
    + intros rest. unfold feed_bytes at 1. rewrite fmap_app, feed_chunks_app.
      fold (feed_bytes rx_init (wire (t :: b))). rewrite feed_bytes_roundtrip by done.
      reflexivity.
  - split; [reflexivity|]. split; [reflexivity|]. apply feed_bytes_empty_frame.
  - apply feed_bytes_total.
Qed.

(** The round trip at a frame whose body holds the marker byte. *)
Lemma frame_roundtrip_bytewise_witness :
  ∃ enc st',
    frame (0x06 :: [0xAA; 0x00; 0x01; 0xAA]) = Done enc
    ∧ feed_bytes rx_init enc = Some (Done (st', [(0x06, [0xAA; 0x00; 0x01; 0xAA])]))
    ∧ rx_state st' = SEEK ∧ rx_buf st' = [].
Proof.
  destruct (proj1 frame_roundtrip_bytewise 0x06 [0xAA; 0x00; 0x01; 0xAA])
    as (enc & st' & Henc & Hrun & Hst & Hbuf & _).
  - vm_compute. discriminate.
  - exists enc, st'. auto.
Defined.

(** A stream of frames is dispatched frame by frame. *)
Lemma frame_stream_example :
  ∃ st', feed_bytes rx_init
           [0x00; 0xAA; 0; 2; 0x06; 0xAA; 0xAA; 0; 0; 0xAA; 0; 3; 0x07; 0x41; 0x42]
         = Some (Done (st', [(0x06, [0xAA]); (0x07, [0x41; 0x42])])).
Proof. eexists. vm_compute. reflexivity. Qed.

End FrameProofs.

(** ** The keyboard encoder *)

Module KeyboardProofs.
Import Keyboard.

(** *** Break derivation *)

(** As long as no [0xE1] occurs the loop only ever appends to [out]. *)
Lemma derive_loop_acc (n : nat) :
  ∀ out make_bytes : list Z,
    (length make_bytes ≤ n)%nat → 0xE1 ∉ make_bytes →
    derive_loop out make_bytes = out ++ derive_loop [] make_bytes.
Proof.
  induction n as [|n IH]; intros out mk Hlen HE1.
  { destruct mk; [|cbn in Hlen; lia]. cbn. now rewrite app_nil_r. }
  destruct mk as [|b rest]; [cbn; now rewrite app_nil_r|].
  cbn [length] in Hlen. apply not_elem_of_cons in HE1 as [Hb HE1].
  cbn [derive_loop]. destruct (Z.eqb_spec b 0xE0) as [-> | HE0].
  - destruct rest as [|c rest']; [done|].
    apply not_elem_of_cons in HE1 as [_ HE1]. cbn [length] in Hlen.
    rewrite (IH ((out ++ [0xE0]) ++ [0xF0; c])) by (done || lia).
    rewrite (IH (([] ++ [0xE0]) ++ [0xF0; c])) by (done || lia).
    now rewrite <- !app_assoc.
  - destruct (Z.eqb_spec b 0xE1) as [-> | _]; [done|].
    rewrite (IH (out ++ [0xF0; b])) by (done || lia).
    rewrite (IH ([] ++ [0xF0; b])) by (done || lia).
    now rewrite <- !app_assoc.
Qed.

Lemma derive_interleave (make : list Z) :
  0xE0 ∉ make → 0xE1 ∉ make → _derive_break_from_make make = interleave 0xF0 make.
Proof.
  unfold _derive_break_from_make.
  induction make as [|b rest IH]; intros HE0 HE1; [done|].
  apply not_elem_of_cons in HE0 as [Hb0 HE0]. pose proof HE1 as HE1'.
  apply not_elem_of_cons in HE1 as [Hb1 HE1].
  cbn [derive_loop interleave].
  destruct (Z.eqb_spec b 0xE0) as [? | _]; [done|].
  destruct (Z.eqb_spec b 0xE1) as [? | _]; [done|].
  rewrite (derive_loop_acc (length rest)) by done.
  rewrite IH by done. reflexivity.
Qed.

Lemma derive_extended (c : Z) (rest : list Z) :
  0xE1 ∉ rest →
  _derive_break_from_make (0xE0 :: c :: rest) =
    0xE0 :: 0xF0 :: c :: _derive_break_from_make rest.
Proof.
  intros HE1. unfold _derive_break_from_make. cbn [derive_loop Z.eqb Pos.eqb].
  now rewrite (derive_loop_acc (length rest)) by done.
Qed.

Lemma derive_escape (rest : list Z) : _derive_break_from_make (0xE1 :: rest) = [].
Proof. reflexivity. Qed.

(** The bytes of a derived break are make bytes, [0xE0] or [0xF0]. *)
Lemma derive_loop_bytes (n : nat) :
  ∀ out make_bytes : list Z,
    (length make_bytes ≤ n)%nat → is_bytes out → is_bytes make_bytes →
    is_bytes (derive_loop out make_bytes).
Proof.
  assert (HE0 : is_byte 0xE0) by (unfold is_byte; lia).
  assert (HF0 : is_byte 0xF0) by (unfold is_byte; lia).
  induction n as [|n IH]; intros out mk Hlen Hout Hmk.
  { destruct mk; [done | cbn in Hlen; lia]. }
  destruct mk as [|b rest]; [done|].
  cbn [length] in Hlen. apply Forall_cons in Hmk as [Hb Hrest].
  cbn [derive_loop]. destruct (b =? 0xE0).
  - destruct rest as [|c rest'].
    + apply Forall_app. split; [done | now constructor].
    + apply Forall_cons in Hrest as [Hc Hrest']. cbn [length] in Hlen.
      apply IH; [lia | | done].
      apply Forall_app. split; [apply Forall_app; split; [done | now constructor]|].
      constructor; [done | now constructor].
  - destruct (b =? 0xE1); [constructor|].
    apply IH; [lia | | done].
    apply Forall_app. split; [done|]. constructor; [done | now constructor].
Qed.

Lemma derive_bytes (make : list Z) : is_bytes make → is_bytes (_derive_break_from_make make).
Proof.
  intros Hmk. apply (derive_loop_bytes (length make)); [done | constructor | done].
Qed.

(** Without [0xE0] every byte of the sequence is tested, so an [0xE1]
    anywhere ends the walk and the bytes derived so far are dropped. *)
Lemma derive_loop_inner_escape (make_bytes : list Z) :
  ∀ out : list Z, 0xE0 ∉ make_bytes → 0xE1 ∈ make_bytes → derive_loop out make_bytes = [].
Proof.
  induction make_bytes as [|b rest IH]; intros out HE0 HE1.
  { now apply elem_of_nil in HE1. }
  apply not_elem_of_cons in HE0 as [Hb0 HE0].
  cbn [derive_loop].
  destruct (Z.eqb_spec b 0xE0) as [? | _]; [done|].
  destruct (Z.eqb_spec b 0xE1) as [_ | Hb1]; [reflexivity|].
  apply elem_of_cons in HE1 as [? | HE1]; [congruence|].
  now apply IH.
Qed.

(** C7 as stated fails: a make sequence can avoid [0xE0] and hold [0xE1]
    after its first byte.  Such a sequence uses no [0xE0] prefix and has no
    leading [0xE1], so the first clause of the claim is the one that speaks
    of it; and its derived break is empty, the [0xF0 0x14] already derived
    being dropped, not the interleaving. *)
Lemma derive_break_inner_escape_counterexample :
  (0xE0 ∉ [0x14; 0xE1])
  ∧ head [0x14; 0xE1] ≠ Some 0xE1
  ∧ _derive_break_from_make [0x14; 0xE1] = []
  ∧ interleave 0xF0 [0x14; 0xE1] = [0xF0; 0x14; 0xF0; 0xE1]
  ∧ _derive_break_from_make [0x14; 0xE1] ≠ interleave 0xF0 [0x14; 0xE1].
Proof.
  split; [|split; [|split; [|split]]]; [|discriminate|reflexivity|reflexivity|discriminate].
  rewrite !elem_of_cons, elem_of_nil. intros [? | [? | []]]; discriminate.
Qed.

(** C7, amended.  For a make sequence that uses neither the [0xE0] prefix
    nor the [0xE1] escape, the derived break is [0xF0] interleaved with the
    make bytes.  An [0xE0] is copied unchanged and followed by [0xF0] and the
    make byte after it.  A make sequence that starts with [0xE1] has an empty
    derived break; so has a make sequence without [0xE0] that holds [0xE1] at
    any place. *)
Theorem derive_break_spec :
  (∀ make, 0xE0 ∉ make → 0xE1 ∉ make →
           _derive_break_from_make make = interleave 0xF0 make)
  ∧ _derive_break_from_make [0x1C] = [0xF0; 0x1C]
  ∧ (∀ c rest, 0xE1 ∉ rest →
               _derive_break_from_make (0xE0 :: c :: rest)
                 = 0xE0 :: 0xF0 :: c :: _derive_break_from_make rest)
  ∧ _derive_break_from_make [0xE0; 0x75] = [0xE0; 0xF0; 0x75]
  ∧ (∀ rest, _derive_break_from_make (0xE1 :: rest) = [])
  ∧ (∀ make, 0xE0 ∉ make → 0xE1 ∈ make → _derive_break_from_make make = []).
Proof.
  split; [exact derive_interleave|]. split; [reflexivity|].
  split; [exact derive_extended|]. split; [reflexivity|].
  split; [exact derive_escape|].
  intros make HE0 HE1. now apply derive_loop_inner_escape.
Qed.

(** The amended claim at the [PrintScreen]-like sequence without prefixes,
    at an extended key followed by plain bytes, and at a sequence with
    [0xE1] in the middle. *)
Lemma derive_break_spec_witness :
  _derive_break_from_make [0x12; 0x7C] = interleave 0xF0 [0x12; 0x7C]
  ∧ _derive_break_from_make [0xE0; 0x5A; 0x1C]
      = 0xE0 :: 0xF0 :: 0x5A :: _derive_break_from_make [0x1C]
  ∧ _derive_break_from_make [0x14; 0xE1; 0x77] = [].
Proof.
  split; [|split].
  - apply (proj1 derive_break_spec).
    + rewrite !elem_of_cons, elem_of_nil. intros [? | [? | []]]; discriminate.
    + rewrite !elem_of_cons, elem_of_nil. intros [? | [? | []]]; discriminate.
  - apply (proj1 (proj2 (proj2 derive_break_spec))).
    rewrite !elem_of_cons, elem_of_nil. intros [? | []]; discriminate.
  - apply (proj2 (proj2 (proj2 (proj2 (proj2 derive_break_spec))))).
    + rewrite !elem_of_cons, elem_of_nil. intros [? | [? | [? | []]]]; discriminate.
    + rewrite !elem_of_cons. right. left. reflexivity.
Defined.

(** *** The scancode table *)

Lemma KEYMAP_items_NoDup : NoDup (KEYMAP_items.*1).
Proof. compute_done. Qed.

Lemma KEYMAP_lookup (k : string) (v : keyval) :
  KEYMAP !! k = Some v ↔ (k, v) ∈ KEYMAP_items.
Proof. unfold KEYMAP. symmetry. apply elem_of_list_to_map, KEYMAP_items_NoDup. Qed.

Lemma is_byteb_spec (b : Z) : is_byteb b = true ↔ is_byte b.
Proof. unfold is_byteb, is_byte. rewrite andb_true_iff, Z.leb_le, Z.ltb_lt. tauto. Qed.

Lemma forallb_is_bytes (l : list Z) : forallb is_byteb l = true ↔ is_bytes l.
Proof.
  unfold is_bytes. induction l as [|x l IH]; cbn.
  - split; [constructor | done].
  - rewrite andb_true_iff, Forall_cons, IH, is_byteb_spec. tauto.
Qed.

Lemma to_bytes_ok (out : list Z) : is_bytes out → to_bytes out = Done out.
Proof. intros Hout. unfold to_bytes. now rewrite (proj2 (forallb_is_bytes out) Hout). Qed.

(** Every sequence in the table, and every break derived from one, is a
    sequence of bytes. *)
Lemma KEYMAP_bytes (k : string) (v : keyval) (pressed : bool) :
  KEYMAP !! k = Some v → is_bytes (key_bytes v pressed).
Proof.
  intros Hk. apply KEYMAP_lookup in Hk.
  assert (Hall : forallb (λ kv : string * keyval,
            match kv.2 with
            | KList mk => forallb is_byteb mk
            | KTuple mk brk => forallb is_byteb mk && forallb is_byteb brk
            end) KEYMAP_items = true) by (vm_compute; reflexivity).
  rewrite forallb_forall in Hall. apply list_elem_of_In in Hk.
  specialize (Hall _ Hk). cbn in Hall.
  destruct v as [mk | mk brk]; cbn [key_bytes].
  - apply forallb_is_bytes in Hall. destruct pressed; [done | now apply derive_bytes].
  - apply andb_true_iff in Hall as [Hmk Hbrk].
    apply forallb_is_bytes in Hmk, Hbrk. now destruct pressed.
Qed.

Section EncoderProofs.
Variable str_lower : string → string.

(** A known key appends its bytes and the loop goes on. *)
Lemma expand_loop_step (name : string) (rest : list string) (pressed : bool)
    (out : list Z) (v : keyval) :
  KEYMAP !! str_lower name = Some v →
  expand_loop str_lower (name :: rest) pressed out =
    expand_loop str_lower rest pressed (out ++ key_bytes v pressed).
Proof.
  intros Hk. cbn [expand_loop]. rewrite Hk. unfold _get_make_break. rewrite Hk.
  destruct v as [mk | mk brk]; destruct pressed; reflexivity.
Qed.

Lemma expand_loop_known (names : list string) (vals : list keyval) (pressed : bool) :
  Forall2 (λ name v, KEYMAP !! str_lower name = Some v) names vals →
  ∀ out, expand_loop str_lower names pressed out =
           Done (out ++ concat ((λ v, key_bytes v pressed) <$> vals)).
Proof.
  induction 1 as [|name v names vals Hk _ IH]; intros out.
  - cbn. now rewrite app_nil_r.
  - rewrite (expand_loop_step _ _ _ _ v) by done. rewrite IH. cbn. now rewrite app_assoc.
Qed.

Lemma expand_loop_unknown (known : list string) (name : string) (rest : list string)
    (pressed : bool) :
  Forall (λ n, is_Some (KEYMAP !! str_lower n)) known →
  KEYMAP !! str_lower name = None →
  ∀ out, expand_loop str_lower (known ++ name :: rest) pressed out =
           Raised (KeyError ("Unknown key: " +:+ name)).
Proof.
  intros Hknown Hname. induction Hknown as [|n known [v Hv] _ IH]; intros out.
  - cbn [app expand_loop]. now rewrite Hname.
  - cbn [app]. rewrite (expand_loop_step _ _ _ _ v) by done. apply IH.
Qed.

(** Either every name is in the table, or there is a first one that is not. *)
Lemma names_known_or_not (names : list string) :
  (∃ vals, Forall2 (λ name v, KEYMAP !! str_lower name = Some v) names vals)
  ∨ (∃ known name rest,
        names = known ++ name :: rest
        ∧ Forall (λ n, is_Some (KEYMAP !! str_lower n)) known
        ∧ KEYMAP !! str_lower name = None).
Proof.
  induction names as [|name names IH].
  - left. exists []. constructor.
  - destruct (KEYMAP !! str_lower name) as [v|] eqn:Hk.
    + destruct IH as [[vals Hvals] | (known & bad & rest & -> & Hknown & Hbad)].
      * left. exists (v :: vals). now constructor.
      * right. exists (name :: known), bad, rest. split; [done|]. split; [|done].
        constructor; [by eexists | done].
    + right. exists [], name, names. split; [done|]. split; [constructor | done].
Qed.

Lemma expand_known_bytes (names : list string) (vals : list keyval) (pressed : bool) :
  Forall2 (λ name v, KEYMAP !! str_lower name = Some v) names vals →
  is_bytes (concat ((λ v, key_bytes v pressed) <$> vals)).
Proof.
  induction 1 as [|name v names vals Hk _ IH]; [constructor|].
  cbn. apply Forall_app. split; [now apply (KEYMAP_bytes (str_lower name)) | done].
Qed.

Lemma expand_keys_known (names : list string) (vals : list keyval) (pressed : bool) :
  Forall2 (λ name v, KEYMAP !! str_lower name = Some v) names vals →
  expand_keys_to_scancodes str_lower names pressed =
    Done (concat ((λ v, key_bytes v pressed) <$> vals)).
Proof.
  intros Hvals. unfold expand_keys_to_scancodes.
  rewrite (expand_loop_known names vals) by done. cbn [obind app].
  apply to_bytes_ok. now apply (expand_known_bytes names).
Qed.

Lemma expand_keys_unknown (known : list string) (name : string) (rest : list string)
    (pressed : bool) :
  Forall (λ n, is_Some (KEYMAP !! str_lower n)) known →
  KEYMAP !! str_lower name = None →
  expand_keys_to_scancodes str_lower (known ++ name :: rest) pressed =
    Raised (KeyError ("Unknown key: " +:+ name)).
Proof.
  intros Hknown Hname. unfold expand_keys_to_scancodes.
  now rewrite expand_loop_unknown.
Qed.

End EncoderProofs.

(** C9.  Keyboard encode, for any lowering function [str_lower] (Python's
    [str.lower]).  The call raises (KeyError, the specification's UnknownKey)
    if and only if the lowered form of some name is absent from the table;
    the exception names the first such name and no bytes are returned.
    Otherwise the result is the concatenation, in input order, of each key's
    bytes: the make sequence when pressed, else the explicit break when the
    table has one, else the derived break.  The explicit break of Pause is
    empty, so releasing Pause sends nothing. *)
Theorem expand_keys_spec (str_lower : string → string) (names : list string)
    (pressed : bool) :
  ((∃ e, expand_keys_to_scancodes str_lower names pressed = Raised e)
   ↔ ∃ name, name ∈ names ∧ KEYMAP !! str_lower name = None)
  ∧ (∀ known name rest,
       names = known ++ name :: rest →
       Forall (λ n, is_Some (KEYMAP !! str_lower n)) known →
       KEYMAP !! str_lower name = None →
       expand_keys_to_scancodes str_lower names pressed =
         Raised (KeyError ("Unknown key: " +:+ name)))
  ∧ (∀ vals,
       Forall2 (λ name v, KEYMAP !! str_lower name = Some v) names vals →
       expand_keys_to_scancodes str_lower names pressed =
         Done (concat ((λ v, key_bytes v pressed) <$> vals)))
  ∧ (∀ mk brk, key_bytes (KTuple mk brk) false = brk)
  ∧ (∀ mk, key_bytes (KList mk) false = _derive_break_from_make mk)
  ∧ (∀ v, key_bytes v true = match v with KList mk => mk | KTuple mk _ => mk end)
  ∧ KEYMAP !! "pause"%string
      = Some (KTuple [0xE1; 0x14; 0x77; 0xE1; 0xF0; 0x14; 0xE0; 0x77] []).
Proof.
  split; [|split; [|split; [|split; [|split; [|split]]]]].
  - split.
    + intros [e He].
      destruct (names_known_or_not str_lower names)
        as [[vals Hvals] | (known & bad & rest & -> & Hknown & Hbad)].
      * rewrite (expand_keys_known str_lower names vals) in He by done. discriminate.
      * exists bad. split; [|done]. apply elem_of_app. right. apply elem_of_cons. now left.
    + intros (name & Hin & Hname).
      destruct (names_known_or_not str_lower names)
        as [[vals Hvals] | (known & bad & rest & -> & Hknown & Hbad)].
      * apply list_elem_of_lookup in Hin as [i Hi].
        destruct (Forall2_lookup_l _ _ _ _ _ Hvals Hi) as (v & _ & Hv). congruence.
      * eexists. now apply expand_keys_unknown.
  - intros known name rest -> Hknown Hname. now apply expand_keys_unknown.
  - intros vals Hvals. now apply expand_keys_known.
  - reflexivity.
  - reflexivity.
  - now intros [].
  - vm_compute. reflexivity.
Qed.

(** A chord released in one call, with names in mixed case. *)
Lemma expand_keys_spec_witness :
  expand_keys_to_scancodes ascii_lower ["Up"; "A"; "PAUSE"; "rightctrl"]%string false
    = Done [0xE0; 0xF0; 0x75; 0xF0; 0x1C; 0xE0; 0xF0; 0x14]
  ∧ expand_keys_to_scancodes ascii_lower ["a"; "Hyper"; "b"]%string true
    = Raised (KeyError "Unknown key: Hyper").
Proof.
  split.
  - apply (proj1 (proj2 (proj2
      (expand_keys_spec ascii_lower ["Up"; "A"; "PAUSE"; "rightctrl"]%string false)))
      [KList [0xE0; 0x75]; KList [0x1C];
       KTuple [0xE1; 0x14; 0x77; 0xE1; 0xF0; 0x14; 0xE0; 0x77] [];
       KList [0xE0; 0x14]]).
    repeat constructor; vm_compute; reflexivity.
  - apply (proj1 (proj2 (expand_keys_spec ascii_lower ["a"; "Hyper"; "b"]%string true))
             ["a"%string] "Hyper"%string ["b"%string]).
    + reflexivity.
    + repeat constructor. vm_compute. eauto.
    + vm_compute. reflexivity.
Defined.

End KeyboardProofs.

(** ** The PS/2 mouse *)

Module MouseProofs.
Import Mouse.

(** *** The device emulation *)

Lemma last3_short {A : Type} (l : list A) : (length l ≤ 3)%nat → last3 l = l.
Proof. intros Hlen. unfold last3. now replace (length l - 3)%nat with 0%nat by lia. Qed.

(** The byte after [0xF3]: one ACK, the value joins the rolling history of
    the last three, and the id becomes 3 exactly when that history is the
    magic sequence. *)
Lemma sample_rate_byte (m : mouse) (b : Z) :
  expect_value_for m = Some F3 →
  on_host_to_mouse_byte m b =
    (let seq := last3 (rate_seq m ++ [Z.land b 0xFF]) in
     mk_mouse (if decide (seq = [200; 100; 80]) then 0x03 else ps2_id m)
              seq None (streaming_enabled m),
     [0xFA]).
Proof.
  intros Hexp. unfold on_host_to_mouse_byte. rewrite Hexp. cbv zeta.
  destruct (Nat.ltb_spec 3 (length (rate_seq m ++ [Z.land b 0xFF]))) as [_ | Hle];
    [reflexivity|].
  now rewrite last3_short.
Qed.

(** One byte changes the id only by a reset (to 0) or by completing the
    magic history (to 3). *)
Lemma step_id (m : mouse) (b : Z) :
  let m' := (on_host_to_mouse_byte m b).1 in
  (ps2_id m' = 0x03 ∧ rate_seq m' = [200; 100; 80])
  ∨ ps2_id m' = ps2_id m
  ∨ ps2_id m' = 0x00.
Proof.
  cbv zeta. unfold on_host_to_mouse_byte.
  destruct (expect_value_for m) as [[|]|].
  - cbv zeta. cbn [fst ps2_id rate_seq].
    destruct (decide (_ = [200; 100; 80])) as [Heq | _]; [left | right; left]; done.
  - right. left. reflexivity.
  - cbv zeta.
    repeat match goal with
    | |- context [if ?c then _ else _] => destruct c
    end; cbn [fst ps2_id]; auto.
Qed.

(** In the idle state a command other than Reset leaves the id and the
    sample-rate history alone. *)
Lemma command_keeps_history (m : mouse) (b : Z) :
  expect_value_for m = None → Z.land b 0xFF ≠ 0xFF →
  let m' := (on_host_to_mouse_byte m b).1 in
  ps2_id m' = ps2_id m ∧ rate_seq m' = rate_seq m.
Proof.
  intros Hexp Hcmd. cbv zeta. unfold on_host_to_mouse_byte. rewrite Hexp. cbv zeta.
  destruct (Z.eqb_spec (Z.land b 0xFF) 0xFF) as [? | _]; [done|].
  repeat match goal with
  | |- context [if ?c then _ else _] => destruct c
  end; done.
Qed.

Lemma host_to_mouse_cons (m : mouse) (b : Z) (rest : list Z) :
  (host_to_mouse m (b :: rest)).1 = (host_to_mouse (on_host_to_mouse_byte m b).1 rest).1.
Proof.
  cbn [host_to_mouse]. destruct (on_host_to_mouse_byte m b) as [m' replies]. cbn [fst].
  destruct (host_to_mouse m' rest) as [m'' more]. reflexivity.
Qed.

(** The id stays 0 as long as the history never reads 200, 100, 80. *)
Lemma id_zero_without_magic (bytes : list Z) :
  ∀ m : mouse,
    ps2_id m = 0x00 →
    (∀ p q, bytes = p ++ q → rate_seq (host_to_mouse m p).1 ≠ [200; 100; 80]) →
    ps2_id (host_to_mouse m bytes).1 = 0x00.
Proof.
  induction bytes as [|b rest IH]; intros m Hid Hnever; [done|].
  rewrite host_to_mouse_cons. apply IH.
  - destruct (step_id m b) as [[_ Hmagic] | [Hsame | Hzero]]; [|congruence|done].
    exfalso. apply (Hnever [b] rest eq_refl).
    rewrite host_to_mouse_cons. exact Hmagic.
  - intros p q -> Hmagic. apply (Hnever (b :: p) q eq_refl).
    now rewrite host_to_mouse_cons.
Qed.

(** The input read in two parts. *)
Lemma host_to_mouse_app (m : mouse) (a b : list Z) :
  (host_to_mouse m (a ++ b)).1 = (host_to_mouse (host_to_mouse m a).1 b).1.
Proof.
  revert m. induction a as [|x a IH]; intros m; [reflexivity|].
  cbn [app]. rewrite !host_to_mouse_cons. apply IH.
Qed.

(** Commands that neither reset nor take a data byte leave the id, the
    history and the idle state as they are. *)
Lemma quiet_commands (cs : list Z) :
  ∀ m : mouse,
    expect_value_for m = None →
    Forall (λ c, Z.land c 0xFF ∉ [0xFF; 0xF3; 0xE8]) cs →
    ps2_id (host_to_mouse m cs).1 = ps2_id m
    ∧ rate_seq (host_to_mouse m cs).1 = rate_seq m
    ∧ expect_value_for (host_to_mouse m cs).1 = None.
Proof.
  induction cs as [|c cs IH]; intros m Hexp Hcs; [done|].
  apply Forall_cons in Hcs as [Hc Hcs].
  rewrite !not_elem_of_cons in Hc. destruct Hc as (HFF & HF3 & HE8 & _).
  rewrite host_to_mouse_cons.
  assert (Hstep : ps2_id (on_host_to_mouse_byte m c).1 = ps2_id m
                  ∧ rate_seq (on_host_to_mouse_byte m c).1 = rate_seq m
                  ∧ expect_value_for (on_host_to_mouse_byte m c).1 = None).
  { unfold on_host_to_mouse_byte. rewrite Hexp. cbv zeta.
    destruct (Z.eqb_spec (Z.land c 0xFF) 0xFF) as [? | _]; [done|].
    destruct (Z.eqb_spec (Z.land c 0xFF) 0xF3) as [? | _]; [done|].
    destruct (Z.eqb_spec (Z.land c 0xFF) 0xE8) as [? | _]; [done|].
    repeat match goal with
    | |- context [if ?c then _ else _] => destruct c
    end; done. }
  destruct Hstep as (Hid & Hseq & Hexp').
  destruct (IH _ Hexp' Hcs) as (Hid' & Hseq' & Hexp'').
  split; [congruence|]. split; [congruence | done].
Qed.

(** Set Sample Rate with its data byte, from the idle state. *)
Lemma sample_rate_pair (m : mouse) (r : Z) :
  expect_value_for m = None →
  (host_to_mouse m [0xF3; r]).1 =
    (let seq := last3 (rate_seq m ++ [Z.land r 0xFF]) in
     mk_mouse (if decide (seq = [200; 100; 80]) then 0x03 else ps2_id m)
              seq None (streaming_enabled m)).
Proof.
  intros Hexp. rewrite !host_to_mouse_cons. cbn [host_to_mouse fst].
  assert (Hcmd : (on_host_to_mouse_byte m 0xF3).1
                 = mk_mouse (ps2_id m) (rate_seq m) (Some F3) (streaming_enabled m)).
  { unfold on_host_to_mouse_byte. rewrite Hexp. reflexivity. }
  rewrite Hcmd, sample_rate_byte by reflexivity. reflexivity.
Qed.

(** The three pairs with quiet commands before and between them. *)
Lemma knock_with_quiet_commands (cs0 cs1 cs2 : list Z) :
  Forall (λ c, Z.land c 0xFF ∉ [0xFF; 0xF3; 0xE8]) (cs0 ++ cs1 ++ cs2) →
  ps2_id (host_to_mouse mouse_init
            (cs0 ++ [0xF3; 200] ++ cs1 ++ [0xF3; 100] ++ cs2 ++ [0xF3; 80])).1 = 0x03.
Proof.
  intros Hcs. apply Forall_app in Hcs as [H0 Hcs]. apply Forall_app in Hcs as [H1 H2].
  rewrite host_to_mouse_app.
  destruct (quiet_commands cs0 mouse_init eq_refl H0) as (Hid0 & Hseq0 & Hexp0).
  set (m0 := (host_to_mouse mouse_init cs0).1) in *.
  rewrite host_to_mouse_app, (sample_rate_pair m0) by done.
  rewrite Hseq0, Hid0.
  set (m1 := mk_mouse _ _ _ _).
  assert (Hm1 : ps2_id m1 = 0 ∧ rate_seq m1 = [200] ∧ expect_value_for m1 = None)
    by (subst m1; vm_compute; done).
  clearbody m1. destruct Hm1 as (Hid1 & Hseq1 & Hexp1).
  rewrite host_to_mouse_app.
  destruct (quiet_commands cs1 m1 Hexp1 H1) as (Hid1' & Hseq1' & Hexp1').
  set (m1' := (host_to_mouse m1 cs1).1) in *.
  rewrite host_to_mouse_app, (sample_rate_pair m1') by done.
  rewrite Hseq1', Hid1', Hseq1, Hid1.
  set (m2 := mk_mouse _ _ _ _).
  assert (Hm2 : ps2_id m2 = 0 ∧ rate_seq m2 = [200; 100] ∧ expect_value_for m2 = None)
    by (subst m2; vm_compute; done).
  clearbody m2. destruct Hm2 as (Hid2 & Hseq2 & Hexp2).
  rewrite host_to_mouse_app.
  destruct (quiet_commands cs2 m2 Hexp2 H2) as (Hid2' & Hseq2' & Hexp2').
  set (m2' := (host_to_mouse m2 cs2).1) in *.
  rewrite (sample_rate_pair m2') by done.
  rewrite Hseq2', Hseq2. reflexivity.
Qed.

(** C5 as stated fails: a command other than [0xF3] between the three
    sample-rate pairs (here Get ID, [0xF2]) does not break the history, and
    the id still becomes 3. *)
Lemma intellimouse_interleaved_counterexample :
  host_to_mouse mouse_init [0xF3; 200; 0xF2; 0xF3; 100; 0xF3; 80]
  = (mk_mouse 0x03 [200; 100; 80] None false,
     [0xFA; 0xFA; 0xFA; 0x00; 0xFA; 0xFA; 0xFA; 0xFA]).
Proof. vm_compute. reflexivity. Qed.

(** C5, amended.  From the fresh state the bytes 0xF3,200,0xF3,100,0xF3,80
    leave the id at 3, every byte being ACKed.  A byte that follows [0xF3] is
    ACKed, joins the rolling history of the last three sample rates, and sets
    the id to 3 exactly when that history is [200,100,80].  The id is 0 after
    any input during which the history never reads [200,100,80].  Nothing
    else enters the history: a command other than Reset leaves the id and the
    history alone, the data byte of Set Resolution ([0xE8]) is ACKed and
    changes neither, and Reset alone empties the history and puts the id back
    to 0.  So the three pairs set the id to 3 whatever commands without a
    data byte, Reset apart, come before and between them, and also with Set
    Resolution and its data byte between them; and the value 200 sent as the
    data byte of Set Resolution does not count towards the sequence. *)
Theorem intellimouse_detection :
  host_to_mouse mouse_init [0xF3; 200; 0xF3; 100; 0xF3; 80]
    = (mk_mouse 0x03 [200; 100; 80] None false, [0xFA; 0xFA; 0xFA; 0xFA; 0xFA; 0xFA])
  ∧ (∀ m b,
       expect_value_for m = Some F3 →
       on_host_to_mouse_byte m b =
         (let seq := last3 (rate_seq m ++ [Z.land b 0xFF]) in
          mk_mouse (if decide (seq = [200; 100; 80]) then 0x03 else ps2_id m)
                   seq None (streaming_enabled m),
          [0xFA]))
  ∧ (∀ bytes,
       (∀ p q, bytes = p ++ q → rate_seq (host_to_mouse mouse_init p).1 ≠ [200; 100; 80]) →
       ps2_id (host_to_mouse mouse_init bytes).1 = 0x00)
  ∧ (∀ m b,
       expect_value_for m = None → Z.land b 0xFF ≠ 0xFF →
       ps2_id (on_host_to_mouse_byte m b).1 = ps2_id m
       ∧ rate_seq (on_host_to_mouse_byte m b).1 = rate_seq m)
  ∧ (∀ m b,
       expect_value_for m = Some E8 →
       on_host_to_mouse_byte m b
         = (mk_mouse (ps2_id m) (rate_seq m) None (streaming_enabled m), [0xFA]))
  ∧ (∀ m b,
       expect_value_for m = None → Z.land b 0xFF = 0xFF →
       on_host_to_mouse_byte m b = (mouse_init, [0xFA; 0xAA; 0x00]))
  ∧ (∀ cs0 cs1 cs2,
       Forall (λ c, Z.land c 0xFF ∉ [0xFF; 0xF3; 0xE8]) (cs0 ++ cs1 ++ cs2) →
       ps2_id (host_to_mouse mouse_init
                 (cs0 ++ [0xF3; 200] ++ cs1 ++ [0xF3; 100] ++ cs2 ++ [0xF3; 80])).1 = 0x03)
  ∧ (∀ v,
       host_to_mouse mouse_init [0xF3; 200; 0xE8; v; 0xF3; 100; 0xF3; 80]
         = (mk_mouse 0x03 [200; 100; 80] None false,
            [0xFA; 0xFA; 0xFA; 0xFA; 0xFA; 0xFA; 0xFA; 0xFA]))
  ∧ (∀ v,
       host_to_mouse mouse_init [0xE8; v; 0xF3; 100; 0xF3; 80]
         = (mk_mouse 0x00 [100; 80] None false, [0xFA; 0xFA; 0xFA; 0xFA; 0xFA; 0xFA])).
Proof.
  split; [vm_compute; reflexivity|]. split; [exact sample_rate_byte|].
  split; [intros bytes Hnever; now apply id_zero_without_magic|].
  split; [exact command_keeps_history|].
  split; [intros m b Hexp; unfold on_host_to_mouse_byte; now rewrite Hexp|].
  split.
  { intros m b Hexp Hcmd. unfold on_host_to_mouse_byte. rewrite Hexp. cbv zeta.
    rewrite Hcmd. reflexivity. }
  split; [exact knock_with_quiet_commands|].
  split; intros v; reflexivity.
Qed.

(** The amended claim at a history broken by a different sample rate, at a
    Get ID command in the idle state, at the data byte 200 of Set Resolution,
    at a Reset after the knock, and at the three pairs with Get ID, Enable
    and Status between them. *)
Lemma intellimouse_detection_witness :
  ps2_id (host_to_mouse mouse_init [0xF3; 200; 0xF3; 100; 0xF3; 60; 0xF3; 80]).1 = 0x00
  ∧ (ps2_id (on_host_to_mouse_byte mouse_init 0xF2).1 = ps2_id mouse_init
     ∧ rate_seq (on_host_to_mouse_byte mouse_init 0xF2).1 = rate_seq mouse_init)
  ∧ on_host_to_mouse_byte (mk_mouse 0x00 [] (Some E8) false) 200
    = (mk_mouse 0x00 [] None false, [0xFA])
  ∧ on_host_to_mouse_byte (mk_mouse 0x03 [200; 100; 80] None true) 0xFF
    = (mouse_init, [0xFA; 0xAA; 0x00])
  ∧ ps2_id (host_to_mouse mouse_init
              ([0xF2] ++ [0xF3; 200] ++ [0xF4; 0xE9] ++ [0xF3; 100] ++ [] ++ [0xF3; 80])).1
    = 0x03.
Proof.
  pose proof intellimouse_detection
    as (_ & _ & Hnever & Hcommand & Hresolution & Hreset & Hquiet & _).
  split; [|split; [|split; [|split]]].
  - apply Hnever.
    intros p q Hpq.
    repeat (destruct p as [|? p]; [vm_compute; discriminate | injection Hpq as <- Hpq]).
    destruct p; [vm_compute; discriminate | discriminate Hpq].
  - apply Hcommand.
    + reflexivity.
    + vm_compute. discriminate.
  - apply Hresolution. reflexivity.
  - apply Hreset; reflexivity.
  - apply Hquiet. compute_done.
Defined.

(** *** The packet encoder *)

Lemma land_bit (a k : Z) :
  0 ≤ k → Z.land a (2 ^ k) = if Z.testbit a k then 2 ^ k else 0.
Proof.
  intros Hk. apply Z.bits_inj'. intros i Hi.
  rewrite Z.land_spec, Z.pow2_bits_eqb by lia.
  destruct (Z.eqb_spec k i) as [-> | Hne].
  - destruct (Z.testbit a i); cbn; [|now rewrite Z.bits_0].
    rewrite Z.pow2_bits_eqb by lia. now rewrite Z.eqb_refl.
  - rewrite andb_false_r. destruct (Z.testbit a k); [|now rewrite Z.bits_0].
    rewrite Z.pow2_bits_eqb by lia. symmetry. now apply Z.eqb_neq.
Qed.

(** [if buttons & mask:] tests one bit of [buttons]. *)
Lemma button_test (buttons k : Z) :
  0 ≤ k → (Z.land buttons (2 ^ k) =? 0) = negb (Z.testbit buttons k).
Proof.
  intros Hk. rewrite land_bit by done.
  destruct (Z.testbit buttons k); cbn; [|reflexivity].
  apply Z.eqb_neq. pose proof (Z.pow_pos_nonneg 2 k). lia.
Qed.

Lemma clamp8_range (v : Z) : -128 ≤ clamp8 v ≤ 127.
Proof. unfold clamp8. lia. Qed.

Lemma clamp8_id (v : Z) : -128 ≤ v ≤ 127 → clamp8 v = v.
Proof. unfold clamp8. lia. Qed.

Lemma clamp8_neg (v : Z) : (clamp8 v <? 0) = (v <? 0).
Proof. unfold clamp8. destruct (Z.ltb_spec v 0); [apply Z.ltb_lt | apply Z.ltb_ge]; lia. Qed.

Lemma status_of_bits (l r m xs ys xo yo : bool) :
  let s := status_of l r m xs ys xo yo in
  is_byte s
  ∧ Z.testbit s 0 = l ∧ Z.testbit s 1 = r ∧ Z.testbit s 2 = m ∧ Z.testbit s 3 = true
  ∧ Z.testbit s 4 = xs ∧ Z.testbit s 5 = ys ∧ Z.testbit s 6 = xo ∧ Z.testbit s 7 = yo.
Proof.
  destruct l, r, m, xs, ys, xo, yo; vm_compute; repeat split; discriminate.
Qed.

(** What [ps2_mouse_packet] computes, for all integers: three bytes, the
    status byte with the sync bit, the three button bits, the signs of the
    transmitted values, the X overflow flag for [dx] out of range, and the Y
    overflow flag for the argument [dy] (not its negation) out of range. *)
Lemma ps2_mouse_packet_bytes (dx dy buttons : Z) :
  ps2_mouse_packet dx dy buttons =
    [ status_of (Z.testbit buttons 0) (Z.testbit buttons 1) (Z.testbit buttons 2)
                (dx <? 0) (0 <? dy)
                ((dx <? -128) || (127 <? dx)) ((dy <? -128) || (127 <? dy));
      Z.land (clamp8 dx) 0xFF;
      Z.land (clamp8 (- dy)) 0xFF ].
Proof.
  unfold ps2_mouse_packet. cbv zeta.
  rewrite (button_test buttons 0 (Z.le_refl 0) : (Z.land buttons 0x1 =? 0) = _).
  rewrite (button_test buttons 1 Z.le_0_1 : (Z.land buttons 0x2 =? 0) = _).
  rewrite (button_test buttons 2 Z.le_0_2 : (Z.land buttons 0x4 =? 0) = _).
  rewrite !clamp8_neg.
  replace (- dy <? 0) with (0 <? dy)
    by (destruct (Z.ltb_spec 0 dy); symmetry; [apply Z.ltb_lt | apply Z.ltb_ge]; lia).
  f_equal.
  destruct (Z.testbit buttons 0), (Z.testbit buttons 1), (Z.testbit buttons 2),
    (dx <? 0), (0 <? dy), ((dx <? -128) || (127 <? dx)), ((dy <? -128) || (127 <? dy));
    reflexivity.
Qed.

(** The worked example of the specification. *)
Lemma ps2_mouse_packet_example : ps2_mouse_packet 10 (-5) 1 = [0x09; 0x0A; 0x05].
Proof. reflexivity. Qed.

(** C6 fails on the code at [dy = -128] and [dy = 128].  The value sent for
    Y is [clamp8 (- dy)], but the overflow flag is computed from [dy] before
    the sign is inverted.  So [dy = -128] is sent as 127 although the
    inverted value 128 is out of range, with bit 7 clear; and [dy = 128] is
    sent exactly (as -128) with bit 7 set.  For every other [dy], and for X
    always, the flag is set exactly when the value was clamped. *)
Theorem ps2_mouse_packet_y_overflow :
  ps2_mouse_packet 0 (-128) 0 = [0x08; 0x00; 0x7F]
  ∧ ps2_mouse_packet 0 128 0 = [0xA8; 0x00; 0x80]
  ∧ (∀ dx dy buttons status bx by',
       ps2_mouse_packet dx dy buttons = [status; bx; by'] →
       (Z.testbit status 6 = true ↔ clamp8 dx ≠ dx)
       ∧ (dy ≠ -128 → dy ≠ 128 → (Z.testbit status 7 = true ↔ clamp8 (- dy) ≠ - dy))).
Proof.
  split; [reflexivity|]. split; [reflexivity|].
  intros dx dy buttons status bx by' Hpkt.
  rewrite ps2_mouse_packet_bytes in Hpkt.
  assert (Hs : status = status_of (Z.testbit buttons 0) (Z.testbit buttons 1)
                 (Z.testbit buttons 2) (dx <? 0) (0 <? dy) ((dx <? -128) || (127 <? dx))
                 ((dy <? -128) || (127 <? dy))) by congruence.
  rewrite Hs. clear Hpkt Hs.
  pose proof (status_of_bits (Z.testbit buttons 0) (Z.testbit buttons 1)
                (Z.testbit buttons 2) (dx <? 0) (0 <? dy) ((dx <? -128) || (127 <? dx))
                ((dy <? -128) || (127 <? dy))) as Hbits.
  cbv zeta in Hbits. destruct Hbits as (_ & _ & _ & _ & _ & _ & _ & -> & ->).
  unfold clamp8. rewrite !orb_true_iff, !Z.ltb_lt. split; [lia|]. intros ? ?. lia.
Qed.

End MouseProofs.

(** ** The SD card image *)

Module MksdcardProofs.
Import Mksdcard.

(** *** Reading the partition table *)

Lemma list16 (l : list Z) :
  length l = 16%nat →
  l = [nth 0 l 0; nth 1 l 0; nth 2 l 0; nth 3 l 0; nth 4 l 0; nth 5 l 0; nth 6 l 0;
       nth 7 l 0; nth 8 l 0; nth 9 l 0; nth 10 l 0; nth 11 l 0; nth 12 l 0;
       nth 13 l 0; nth 14 l 0; nth 15 l 0].
Proof.
  intros Hlen.
  do 16 (destruct l as [|? l]; [discriminate Hlen|]).
  destruct l; [reflexivity | discriminate Hlen].
Qed.

Lemma nth_take_drop (mbr : list Z) (k j : nat) :
  (j < 16)%nat → nth j (take 16 (drop k mbr)) 0 = byte_at mbr (k + j).
Proof.
  intros Hj. unfold byte_at. rewrite !nth_lookup.
  now rewrite lookup_take_lt, lookup_drop by lia.
Qed.

(** In a 512-byte MBR each of the four slices has 16 bytes, so
    [struct.unpack] succeeds and reads the fields at their offsets. *)
Lemma unpack_entry_slice (mbr : list Z) (i : nat) :
  length mbr = 512%nat → (i < 4)%nat →
  unpack_entry (slice mbr (0x1BE + Z.of_nat i * 16) (0x1BE + (Z.of_nat i + 1) * 16))
    = Done (entry_of mbr i).
Proof.
  intros Hlen Hi. unfold slice.
  replace (Z.to_nat (0x1BE + (Z.of_nat i + 1) * 16) - Z.to_nat (0x1BE + Z.of_nat i * 16))%nat
    with 16%nat by lia.
  replace (Z.to_nat (0x1BE + Z.of_nat i * 16)) with (446 + 16 * i)%nat by lia.
  rewrite (list16 (take 16 (drop (446 + 16 * i) mbr)))
    by (rewrite length_take, length_drop; lia).
  rewrite !nth_take_drop by lia. reflexivity.
Qed.

(** *** The two loops *)

(** The test the code applies to one unpacked entry. *)
Local Abbreviation entry_okb heads spt p :=
  ((ptype p =? 0) || check_entry heads spt p true).

Lemma check_entry_false (heads spt : Z) (p : pentry) :
  check_entry heads spt p false = false.
Proof.
  unfold check_entry.
  destruct (decode_chs (begHead p) (begSecCyl p) (begCylLo p)) as [[[[] ?] ?] ?];
    destruct (decode_chs (endHead p) (endSecCyl p) (endCylLo p)) as [[[[] ?] ?] ?];
    repeat match goal with |- context [if ?c then _ else _] => destruct c end; reflexivity.
Qed.

Lemma entries_loop_forallb (heads spt : Z) (entries : list (list Z)) (ps : list pentry) :
  Forall2 (λ e p, unpack_entry e = Done p) entries ps →
  entries_loop heads spt entries true = Done (forallb (λ p, entry_okb heads spt p) ps).
Proof.
  induction 1 as [|e p entries ps He _ IH]; [reflexivity|].
  cbn [entries_loop forallb]. rewrite He. cbn [obind].
  destruct (ptype p =? 0); cbn [orb andb]; [exact IH|].
  destruct (check_entry heads spt p true); cbn [negb andb]; [exact IH | reflexivity].
Qed.

Lemma candidates_loop_filter (cands : list (Z * Z)) (entries : list (list Z))
    (ps : list pentry) :
  Forall2 (λ e p, unpack_entry e = Done p) entries ps →
  ∀ plausible,
    candidates_loop cands entries plausible =
      Done (plausible
              ++ List.filter (λ c : Z * Z, forallb (λ p, entry_okb c.1 c.2 p) ps) cands).
Proof.
  intros Hps. induction cands as [|[heads spt] cands IH]; intros plausible.
  - cbn. now rewrite app_nil_r.
  - cbn [candidates_loop List.filter fst snd].
    rewrite (entries_loop_forallb heads spt entries ps) by done. cbn [obind].
    rewrite IH. destruct (forallb _ ps); [|reflexivity].
    now rewrite <- app_assoc.
Qed.

(** *** The code's test is the specification's acceptance *)

Lemma decode_chs_spec (head sec_cyl cyl_lo : Z) :
  (decodable head sec_cyl cyl_lo ∧
   decode_chs head sec_cyl cyl_lo =
     (true, Z.lor (Z.shiftl (Z.land sec_cyl 0xC0) 2) cyl_lo, head, Z.land sec_cyl 0x3F))
  ∨ (¬ decodable head sec_cyl cyl_lo ∧ decode_chs head sec_cyl cyl_lo = (false, 0, 0, 0)).
Proof.
  unfold decode_chs, decodable.
  destruct (Z.eqb_spec head 0xFF) as [-> | Hh]; cbn [andb].
  - destruct (Z.eqb_spec sec_cyl 0xFF) as [-> | Hs]; cbn [andb].
    + destruct (Z.eqb_spec cyl_lo 0xFF) as [-> | Hc].
      * right. split; [tauto | reflexivity].
      * cbv zeta. change (Z.land 255 63 =? 0) with false. cbv iota.
        left. split; [|reflexivity]. split; [tauto | discriminate].
    + cbv zeta. destruct (Z.eqb_spec (Z.land sec_cyl 0x3F) 0) as [Hz | Hnz].
      * right. split; [tauto | reflexivity].
      * left. split; [|reflexivity]. split; [tauto | done].
  - cbv zeta. destruct (Z.eqb_spec (Z.land sec_cyl 0x3F) 0) as [Hz | Hnz].
    + right. split; [tauto | reflexivity].
    + left. split; [|reflexivity]. split; [tauto | done].
Qed.

Lemma entry_okb_spec (heads spt : Z) (p : pentry) :
  entry_okb heads spt p = true ↔ entry_agrees heads spt p.
Proof.
  unfold entry_agrees, check_entry, chs_to_lba, packed_lba. cbv zeta.
  rewrite orb_true_iff, Z.eqb_eq.
  destruct (decode_chs_spec (begHead p) (begSecCyl p) (begCylLo p)) as [[Hb ->] | [Hb ->]];
    destruct (decode_chs_spec (endHead p) (endSecCyl p) (endCylLo p)) as [[He ->] | [He ->]];
    repeat match goal with
    | |- context [?a =? ?b] => destruct (Z.eqb_spec a b)
    end; split; try tauto; try (intros H; right; reflexivity);
    try (intros [? | ?]; [tauto | discriminate]);
    intros H; destruct (Z.eq_dec (ptype p) 0); tauto.
Qed.

Lemma acceptsb_spec (mbr : list Z) (heads spt : Z) :
  forallb (λ p, entry_okb heads spt p)
    [entry_of mbr 0; entry_of mbr 1; entry_of mbr 2; entry_of mbr 3] = true
  ↔ accepted mbr heads spt.
Proof.
  cbn [forallb]. rewrite !andb_true_iff, !entry_okb_spec. unfold accepted. split.
  - intros (H0 & H1 & H2 & H3 & _) i Hi.
    destruct i as [|[|[|[|i]]]]; [done.. | lia].
  - intros H. repeat (split; [apply H; lia|]). reflexivity.
Qed.

(** *** The descending sort *)

(** [x] comes no later than [y] in descending key order. *)
Local Abbreviation key_ge x y := (tuple_ltb (sort_key x) (sort_key y) = false).

Lemma key_ge_spec (x y : Z * Z) : key_ge x y ↔ not_after x.1 x.2 y.1 y.2.
Proof.
  unfold tuple_ltb, sort_key, not_after. cbn [fst snd].
  rewrite orb_false_iff, andb_false_iff, Z.ltb_ge, Z.eqb_neq, Z.ltb_ge. lia.
Qed.

Lemma key_lt_ge (x y : Z * Z) : tuple_ltb (sort_key x) (sort_key y) = true → key_ge y x.
Proof.
  rewrite key_ge_spec. unfold tuple_ltb, sort_key, not_after. cbn [fst snd].
  rewrite orb_true_iff, andb_true_iff, !Z.ltb_lt, Z.eqb_eq. lia.
Qed.

Lemma key_ge_trans (x y z : Z * Z) : key_ge x y → key_ge y z → key_ge x z.
Proof. rewrite !key_ge_spec. unfold not_after. lia. Qed.

Lemma key_ge_refl (x : Z * Z) : key_ge x x.
Proof. rewrite key_ge_spec. unfold not_after. lia. Qed.

Lemma elem_of_insert_desc (x y : Z * Z) (l : list (Z * Z)) :
  y ∈ insert_desc x l ↔ y = x ∨ y ∈ l.
Proof.
  induction l as [|z l IH]; cbn [insert_desc].
  - rewrite list_elem_of_singleton, elem_of_nil. tauto.
  - destruct (tuple_ltb (sort_key x) (sort_key z)).
    + rewrite !elem_of_cons, IH. tauto.
    + rewrite !elem_of_cons. tauto.
Qed.

Lemma elem_of_sort_desc (y : Z * Z) (l : list (Z * Z)) : y ∈ sort_desc l ↔ y ∈ l.
Proof.
  unfold sort_desc. induction l as [|x l IH]; cbn [foldr]; [done|].
  rewrite elem_of_insert_desc, elem_of_cons, IH. tauto.
Qed.

(** A list is in descending order when its head is no later than every
    element of the tail, and the tail is in descending order. *)
Lemma insert_desc_sorted (x : Z * Z) (l : list (Z * Z)) :
  StronglySorted (λ a b, key_ge a b) l →
  StronglySorted (λ a b, key_ge a b) (insert_desc x l).
Proof.
  induction 1 as [|z l Hsorted IH Hz]; cbn [insert_desc].
  - repeat constructor.
  - destruct (tuple_ltb (sort_key x) (sort_key z)) eqn:Hlt.
    + constructor; [exact IH|].
      apply Forall_forall. intros y Hy. apply elem_of_insert_desc in Hy as [-> | Hy].
      * now apply key_lt_ge.
      * rewrite Forall_forall in Hz. now apply Hz.
    + constructor; [now constructor|].
      constructor; [exact Hlt|].
      eapply Forall_impl; [exact Hz|]. intros y Hy. now apply (key_ge_trans x z y).
Qed.

Lemma sort_desc_sorted (l : list (Z * Z)) :
  StronglySorted (λ a b, key_ge a b) (sort_desc l).
Proof.
  unfold sort_desc. induction l as [|x l IH]; cbn [foldr]; [constructor|].
  now apply insert_desc_sorted.
Qed.

(** The first element after the sort is an element of the list that comes
    no later than any other. *)
Lemma sort_desc_first (l : list (Z * Z)) (first : Z * Z) (rest : list (Z * Z)) :
  sort_desc l = first :: rest →
  first ∈ l ∧ ∀ y, y ∈ l → not_after first.1 first.2 y.1 y.2.
Proof.
  intros Hsort. split.
  - apply elem_of_sort_desc. rewrite Hsort. apply elem_of_cons. now left.
  - intros y Hy. apply key_ge_spec. apply elem_of_sort_desc in Hy.
    pose proof (sort_desc_sorted l) as Hsorted. rewrite Hsort in *.
    apply StronglySorted_inv in Hsorted as [_ Hfirst].
    apply elem_of_cons in Hy as [-> | Hy]; [apply key_ge_refl|].
    rewrite Forall_forall in Hfirst. now apply Hfirst.
Qed.

Lemma sort_desc_nil (l : list (Z * Z)) : sort_desc l = [] → l = [].
Proof.
  intros Hsort. destruct l as [|x l]; [done|].
  assert (Hx : x ∈ sort_desc (x :: l)) by (apply elem_of_sort_desc, elem_of_cons; now left).
  rewrite Hsort in Hx. now apply elem_of_nil in Hx.
Qed.

(** *** The geometry *)

Lemma mbr_entries (mbr : list Z) :
  length mbr = 512%nat →
  Forall2 (λ e p, unpack_entry e = Done p)
    ((λ i, slice mbr (0x1BE + i * 16) (0x1BE + (i + 1) * 16)) <$> [0; 1; 2; 3])
    [entry_of mbr 0; entry_of mbr 1; entry_of mbr 2; entry_of mbr 3].
Proof.
  intros Hlen. cbn [fmap list_fmap].
  repeat constructor.
  - apply (unpack_entry_slice mbr 0); [done | lia].
  - apply (unpack_entry_slice mbr 1); [done | lia].
  - apply (unpack_entry_slice mbr 2); [done | lia].
  - apply (unpack_entry_slice mbr 3); [done | lia].
Qed.

(** The geometry of a 512-byte MBR: the first accepted candidate in
    descending order of (spt, heads), or the fallback. *)
Lemma calc_geometry_selected (mbr : list Z) (total_bytes : Z) :
  length mbr = 512%nat →
  ∃ heads spt,
    calc_geometry_from_mbr mbr total_bytes
      = Done (total_bytes / 512 / heads / spt, heads, spt)
    ∧ (((heads, spt) ∈ candidates
        ∧ accepted mbr heads spt
        ∧ ∀ h s, (h, s) ∈ candidates → accepted mbr h s → not_after heads spt h s)
       ∨ ((∀ h s, (h, s) ∈ candidates → ¬ accepted mbr h s)
          ∧ (heads, spt) = (255, 63))).
Proof.
  intros Hlen. unfold calc_geometry_from_mbr.
  rewrite (candidates_loop_filter candidates _ _ (mbr_entries mbr Hlen)).
  cbn [obind app].
  set (ps := [entry_of mbr 0; entry_of mbr 1; entry_of mbr 2; entry_of mbr 3]).
  set (plausible := List.filter _ candidates).
  assert (Hpl : ∀ h s, (h, s) ∈ plausible ↔ (h, s) ∈ candidates ∧ accepted mbr h s).
  { intros h s. unfold plausible, ps.
    rewrite list_elem_of_In, filter_In, <- list_elem_of_In.
    cbn [fst snd]. now rewrite (acceptsb_spec mbr h s). }
  destruct (sort_desc plausible) as [|[heads spt] rest] eqn:Hsort.
  - exists 255, 63. split; [reflexivity|]. right. split; [|reflexivity].
    apply sort_desc_nil in Hsort. intros h s Hin Hacc.
    assert (Hmem : (h, s) ∈ plausible) by now apply Hpl.
    rewrite Hsort in Hmem. now apply elem_of_nil in Hmem.
  - exists heads, spt. split; [reflexivity|]. left.
    apply sort_desc_first in Hsort as [Hin Hfirst].
    apply Hpl in Hin as [Hcand Hacc]. split; [done|]. split; [done|].
    intros h s Hc Ha. apply (Hfirst (h, s)). now apply Hpl.
Qed.

(** The geometry chosen for the synthetic MBR of the specification. *)
Lemma calc_geometry_example (total_bytes : Z) :
  calc_geometry_from_mbr example_mbr total_bytes
    = Done (total_bytes / 512 / 255 / 63, 255, 63).
Proof.
  unfold calc_geometry_from_mbr.
  set (pl := candidates_loop _ _ _).
  vm_compute in pl. subst pl. cbn [obind].
  set (sorted := sort_desc _). vm_compute in sorted. subst sorted. reflexivity.
Qed.

(** Every candidate has at most 255 heads and 63 sectors per track. *)
Lemma candidates_range (h s : Z) : (h, s) ∈ candidates → 0 < h ≤ 255 ∧ 0 < s ≤ 63.
Proof.
  intros Hin.
  assert (Hall : Forall (λ c : Z * Z, 0 < c.1 ≤ 255 ∧ 0 < c.2 ≤ 63) candidates)
    by (repeat constructor; cbn; lia).
  rewrite Forall_forall in Hall. exact (Hall _ Hin).
Qed.

(** An MBR whose only partition starts at CHS (cylinder 0, head 1, sector 1)
    and LBA 63, with an end field that is not decodable, gets heads = 255 and
    spt = 63: that candidate is accepted, and no candidate comes before it. *)
Lemma calc_geometry_single_partition (mbr : list Z) (total_bytes : Z) :
  length mbr = 512%nat →
  ptype (entry_of mbr 0) ≠ 0 →
  decode_chs (begHead (entry_of mbr 0)) (begSecCyl (entry_of mbr 0))
             (begCylLo (entry_of mbr 0)) = (true, 0, 1, 1) →
  lbaStart (entry_of mbr 0) = 63 →
  ¬ decodable (endHead (entry_of mbr 0)) (endSecCyl (entry_of mbr 0))
              (endCylLo (entry_of mbr 0)) →
  (∀ i : nat, (1 ≤ i < 4)%nat → ptype (entry_of mbr i) = 0) →
  calc_geometry_from_mbr mbr total_bytes = Done (total_bytes / 512 / 255 / 63, 255, 63).
Proof.
  intros Hlen Htype Hbeg Hstart Hend Hrest.
  assert (Hacc : accepted mbr 255 63).
  { intros i Hi. destruct i as [|i].
    - remember (entry_of mbr 0) as p eqn:Hp. clear Hp.
      intros _. split; [|tauto]. intros _. rewrite Hstart.
      destruct (decode_chs_spec (begHead p) (begSecCyl p) (begCylLo p))
        as [[_ Hdec] | [_ Hdec]]; rewrite Hdec in Hbeg; [|discriminate].
      unfold packed_lba. cbv zeta.
      assert (Hcyl : Z.lor (Z.shiftl (Z.land (begSecCyl p) 0xC0) 2) (begCylLo p) = 0)
        by congruence.
      assert (Hhead : begHead p = 1) by congruence.
      assert (Hsec : Z.land (begSecCyl p) 0x3F = 1) by congruence.
      rewrite Hcyl, Hhead, Hsec. reflexivity.
    - intros Hne. exfalso. apply Hne, Hrest. lia. }
  assert (Htop : (255, 63) ∈ candidates) by (apply elem_of_cons; now left).
  destruct (calc_geometry_selected mbr total_bytes Hlen)
    as (heads & spt & Hcalc & [(Hcand & _ & Hmax) | (Hnone & Heq)]).
  - specialize (Hmax 255 63 Htop Hacc). unfold not_after in Hmax.
    apply candidates_range in Hcand.
    assert (heads = 255 ∧ spt = 63) as [-> ->] by lia. exact Hcalc.
  - injection Heq as -> ->. exact Hcalc.
Qed.

(** C2.  For a 512-byte MBR, [calc_geometry_from_mbr] returns
    [(total_bytes / 512 / heads / spt, heads, spt)] (integer division), where
    either [(heads, spt)] is a candidate that is accepted, and comes no later
    than any accepted candidate in descending order of (spt, heads), or no
    candidate is accepted and [(heads, spt) = (255, 63)].  A candidate is
    accepted when, for every entry of nonzero type, each decodable CHS field
    converts to the stored LBA: the start field to the starting LBA, the end
    field to start + count - 1.  In particular, when the only partition has a
    CHS start that decodes to (cylinder 0, head 1, sector 1), a stored start
    LBA of 63 and an end field that is not decodable, whatever its type and
    sector count, the result is heads = 255 and spt = 63. *)
Theorem calc_geometry_spec (mbr : list Z) (total_bytes : Z) :
  length mbr = 512%nat →
  (∃ heads spt,
     calc_geometry_from_mbr mbr total_bytes
       = Done (total_bytes / 512 / heads / spt, heads, spt)
     ∧ (((heads, spt) ∈ candidates
         ∧ accepted mbr heads spt
         ∧ ∀ h s, (h, s) ∈ candidates → accepted mbr h s → not_after heads spt h s)
        ∨ ((∀ h s, (h, s) ∈ candidates → ¬ accepted mbr h s)
           ∧ (heads, spt) = (255, 63))))
  ∧ (ptype (entry_of mbr 0) ≠ 0 →
     decode_chs (begHead (entry_of mbr 0)) (begSecCyl (entry_of mbr 0))
                (begCylLo (entry_of mbr 0)) = (true, 0, 1, 1) →
     lbaStart (entry_of mbr 0) = 63 →
     ¬ decodable (endHead (entry_of mbr 0)) (endSecCyl (entry_of mbr 0))
                 (endCylLo (entry_of mbr 0)) →
     (∀ i : nat, (1 ≤ i < 4)%nat → ptype (entry_of mbr i) = 0) →
     calc_geometry_from_mbr mbr total_bytes
       = Done (total_bytes / 512 / 255 / 63, 255, 63)).
Proof.
  intros Hlen. split; [now apply calc_geometry_selected|].
  now apply calc_geometry_single_partition.
Qed.

(** The theorem at the synthetic MBR of the specification (one partition of
    type 0x06, CHS start (0, 1, 1), start LBA 63, 1,000,000 sectors, end CHS
    all 0xFF) on a disk of 1,000,063 sectors: 62 cylinders, 255 heads, 63
    sectors per track. *)
Lemma calc_geometry_spec_witness :
  (entry_of example_mbr 0 = mk_pentry 0x80 0x01 0x01 0x00 0x06 0xFF 0xFF 0xFF 63 1000000
   ∧ decode_chs 0x01 0x01 0x00 = (true, 0, 1, 1)
   ∧ decode_chs 0xFF 0xFF 0xFF = (false, 0, 0, 0))
  ∧ (∃ heads spt,
       calc_geometry_from_mbr example_mbr (512 * 1000063)
         = Done (512 * 1000063 / 512 / heads / spt, heads, spt)
       ∧ (((heads, spt) ∈ candidates
           ∧ accepted example_mbr heads spt
           ∧ ∀ h s, (h, s) ∈ candidates → accepted example_mbr h s → not_after heads spt h s)
          ∨ ((∀ h s, (h, s) ∈ candidates → ¬ accepted example_mbr h s)
             ∧ (heads, spt) = (255, 63))))
  ∧ calc_geometry_from_mbr example_mbr (512 * 1000063) = Done (62, 255, 63).
Proof.
  split; [|split].
  - split; [vm_compute; reflexivity|]. split; reflexivity.
  - exact (proj1 (calc_geometry_spec example_mbr (512 * 1000063) eq_refl)).
  - assert (Htype : ptype (entry_of example_mbr 0) ≠ 0) by (vm_compute; discriminate).
    assert (Hbeg : decode_chs (begHead (entry_of example_mbr 0))
                     (begSecCyl (entry_of example_mbr 0))
                     (begCylLo (entry_of example_mbr 0)) = (true, 0, 1, 1))
      by (vm_compute; reflexivity).
    assert (Hstart : lbaStart (entry_of example_mbr 0) = 63) by (vm_compute; reflexivity).
    assert (Hend : ¬ decodable (endHead (entry_of example_mbr 0))
                     (endSecCyl (entry_of example_mbr 0))
                     (endCylLo (entry_of example_mbr 0))).
    { intros [Hff _]. apply Hff. split; [|split]; vm_compute; reflexivity. }
    assert (Hrest : ∀ i : nat, (1 ≤ i < 4)%nat → ptype (entry_of example_mbr i) = 0).
    { intros i Hi. destruct i as [|[|[|[|i]]]]; [lia | vm_compute; reflexivity.. | lia]. }
    exact (proj2 (calc_geometry_spec example_mbr (512 * 1000063) eq_refl)
             Htype Hbeg Hstart Hend Hrest).
Defined.

(** *** The config stream *)

Lemma pack_I_spec (x : Z) : pack_I x = le32_bytes (x `mod` 2 ^ 32).
Proof.
  unfold pack_I, le32_bytes. cbv zeta.
  change 0xFFFFFFFF with (Z.ones 32). rewrite Z.land_ones by lia.
  rewrite !land_0xFF, !Z.shiftr_div_pow2 by lia. reflexivity.
Qed.

Lemma pack_pairs_spec (pairs : list (Z * Z)) :
  pack_pairs pairs = concat (pair_bytes <$> pairs).
Proof.
  unfold pack_pairs. f_equal. apply list_fmap_ext. intros _ [a v] _.
  unfold pair_bytes. cbn [fst snd]. now rewrite !pack_I_spec.
Qed.

Lemma length_pack_pairs (pairs : list (Z * Z)) :
  length (pack_pairs pairs) = (8 * length pairs)%nat.
Proof.
  unfold pack_pairs. induction pairs as [|p pairs IH]; [reflexivity|].
  rewrite fmap_cons. cbn [concat]. rewrite !length_app, IH. unfold pack_I. cbn [length]. lia.
Qed.

Lemma length_config_pairs (mem_kb cyl heads spt : Z) :
  length (config_pairs mem_kb cyl heads spt) = 142%nat.
Proof.
  unfold config_pairs, identify_pairs.
  rewrite !length_app, length_fmap, length_seq. reflexivity.
Qed.

(** When the geometry is found, the stream is the serialised pairs followed
    by 400 zero bytes: the 4-byte terminator and 396 bytes of padding. *)
Lemma build_config_stream_done (mem_kb : Z) (hdd : list Z) (cyl heads spt : Z) :
  calc_geometry_from_mbr (slice hdd 0 SECTOR_SIZE) (len hdd) = Done (cyl, heads, spt) →
  build_config_stream mem_kb hdd =
    Done (pack_pairs (config_pairs mem_kb cyl heads spt) ++ replicate 400 0).
Proof.
  intros Hgeo. unfold build_config_stream. cbv zeta. rewrite Hgeo. cbn [obind].
  (* 142 pairs of 8 bytes and the 4-byte terminator: 1140 bytes, padded to 1536. *)
  reflexivity.
Qed.

(** *** The geometry that reaches the stream is in range *)

Lemma candidates_loop_subset (cands : list (Z * Z)) (entries : list (list Z)) :
  ∀ plausible result,
    candidates_loop cands entries plausible = Done result →
    ∀ x, x ∈ result → x ∈ plausible ∨ x ∈ cands.
Proof.
  induction cands as [|[heads spt] cands IH]; intros plausible result Hloop x Hx.
  - cbn in Hloop. injection Hloop as <-. now left.
  - cbn [candidates_loop] in Hloop.
    destruct (entries_loop heads spt entries true) as [ok | e]; [|discriminate].
    cbn [obind] in Hloop. destruct (IH _ _ Hloop x Hx) as [Hpl | Hc].
    + destruct ok; [|now left].
      apply elem_of_app in Hpl as [Hpl | Hnew]; [now left|].
      apply list_elem_of_singleton in Hnew as ->. right. apply elem_of_cons. now left.
    + right. apply elem_of_cons. now right.
Qed.

(** Whatever the MBR, a geometry that is returned has its heads and sectors
    per track from the candidate list. *)
Lemma calc_geometry_candidate (mbr : list Z) (total_bytes cyl heads spt : Z) :
  calc_geometry_from_mbr mbr total_bytes = Done (cyl, heads, spt) →
  (heads, spt) ∈ candidates ∧ cyl = total_bytes / 512 / heads / spt.
Proof.
  unfold calc_geometry_from_mbr. intros Hcalc.
  destruct (candidates_loop candidates _ []) as [plausible | e] eqn:Hloop; [|discriminate].
  cbn [obind] in Hcalc.
  destruct (sort_desc plausible) as [|[h s] rest] eqn:Hsort.
  - injection Hcalc as <- <- <-. split; [|reflexivity]. apply elem_of_cons. now left.
  - injection Hcalc as <- <- <-. split; [|reflexivity].
    apply sort_desc_first in Hsort as [Hin _].
    destruct (candidates_loop_subset _ _ _ _ Hloop _ Hin) as [Hnil | Hc]; [|done].
    now apply elem_of_nil in Hnil.
Qed.

(** *** The IDENTIFY words are 16-bit words *)

Local Abbreviation is_word w := (0 ≤ w < 65536).

Lemma length_build_identify_words (cyl heads spt : Z) :
  length (build_identify_words cyl heads spt) = 256%nat.
Proof.
  unfold build_identify_words. cbv zeta. cbn [foldl seq].
  rewrite !length_insert. apply length_replicate.
Qed.

Lemma build_identify_words_range (cyl heads spt : Z) :
  0 ≤ cyl → is_word heads → is_word spt →
  Forall (λ w, is_word w) (build_identify_words cyl heads spt).
Proof.
  intros Hcyl Hheads Hspt.
  unfold build_identify_words. cbv zeta. cbn [foldl seq].
  repeat (apply Forall_insert;
          [| first [ lia
                   | rewrite land_0xFFFF; apply Z.mod_pos_bound; lia
                   | vm_compute; split; [discriminate | reflexivity] ] ]).
  apply Forall_replicate. lia.
Qed.

Lemma nth_Forall {A : Type} (P : A → Prop) (l : list A) (d : A) (i : nat) :
  Forall P l → P d → P (nth i l d).
Proof.
  intros Hall Hd. rewrite nth_lookup. destruct (l !! i) as [x|] eqn:Hx; [|exact Hd].
  cbn. rewrite Forall_forall in Hall. apply Hall. eapply list_elem_of_lookup_2, Hx.
Qed.

(** With 16-bit words the masks in [identify_pairs] do nothing: each value
    is [ident[2i] | ident[2i+1] << 16]. *)
Lemma identify_pairs_spec (ident : list Z) :
  Forall (λ w, is_word w) ident →
  identify_pairs ident =
    (λ i : nat, (0xF000, Z.lor (nth (2 * i) ident 0) (Z.shiftl (nth (2 * i + 1) ident 0) 16)))
      <$> seq 0 128.
Proof.
  intros Hall. unfold identify_pairs. apply list_fmap_ext. intros _ i _. cbv zeta.
  f_equal. rewrite !land_0xFFFF.
  rewrite !Z.mod_small by (apply nth_Forall; [exact Hall | lia]).
  apply Z.lor_comm.
Qed.

(** *** The claims about the stream *)

(** C4 as stated fails on the order and on the set of addresses: the floppy
    type byte (0xF410) comes right after the equipment byte, before the date
    fields, and between them the code writes CMOS register 0x0D (address
    0xF40D, value 0x80), an address the claim does not list. *)
Lemma config_stream_order_counterexample :
  ∃ stream,
    build_config_stream 1024 example_mbr = Done stream
    ∧ take 24 (drop 16 stream)
        = [0x14; 0xF4; 0; 0; 0x25; 0; 0; 0;      (* 0xF414 equipment *)
           0x10; 0xF4; 0; 0; 0x20; 0; 0; 0;      (* 0xF410 floppy type *)
           0x0D; 0xF4; 0; 0; 0x80; 0; 0; 0].     (* 0xF40D *)
Proof. eexists. split; vm_compute; reflexivity. Qed.

(** The pairs of the stream, written out. *)
Lemma config_pairs_explicit (mem_kb : Z) (hdd : list Z) (cyl heads spt : Z) :
  calc_geometry_from_mbr (slice hdd 0 SECTOR_SIZE) (len hdd) = Done (cyl, heads, spt) →
  config_pairs mem_kb cyl heads spt =
    [ (0xF430, mem_kb `mod` 256); (0xF431, (mem_kb / 256) `mod` 256);
      (0xF414, 0x25);
      (0xF410, 0x20);
      (0xF40D, 0x80);
      (0xF409, 0x24); (0xF408, 0x01); (0xF407, 0x01); (0xF432, 0x20);
      (0xF001, cyl); (0xF002, heads); (0xF003, spt);
      (0xF004, heads * spt); (0xF005, heads * spt * cyl) ]
    ++ ((λ i : nat,
           (0xF000,
            Z.lor (nth (2 * i) (build_identify_words cyl heads spt) 0)
                  (Z.shiftl (nth (2 * i + 1) (build_identify_words cyl heads spt) 0) 16)))
          <$> seq 0 128).
Proof.
  intros Hgeo. unfold config_pairs. rewrite identify_pairs_spec.
  - unfold cmos_pairs, geometry_pairs. cbv zeta.
    rewrite land_0xFF, land_0xFF, shiftr_8.
    rewrite (Z.mul_comm spt heads). reflexivity.
  - destruct (calc_geometry_candidate _ _ _ _ _ Hgeo) as [Hcand ->].
    apply candidates_range in Hcand as [Hh Hs].
    apply build_identify_words_range; [|lia..].
    pose proof (len_nonneg hdd).
    repeat apply Z.div_pos; lia.
Qed.

(** C4, amended.  When the geometry [(cyl, heads, spt)] is found, the stream
    is the little-endian (address32, value32) pairs below, in this order,
    followed by 400 zero bytes (the terminator word with address 0 and the
    padding), 1536 bytes in all: the extended-memory bytes (0xF430, 0xF431),
    the equipment byte (0xF414 = 0x25: diskette present, PS/2 mouse present,
    80x25 colour), the floppy type (0xF410), CMOS register 0x0D (0xF40D), the
    date fields (0xF409, 0xF408, 0xF407, 0xF432), the five geometry registers
    0xF001..0xF005 (cylinders, heads, spt, heads*spt, heads*spt*cylinders),
    and 128 pairs at 0xF000 holding [ident[2i] | ident[2i+1] << 16]. *)
Theorem config_stream_layout (mem_kb : Z) (hdd : list Z) (cyl heads spt : Z) :
  calc_geometry_from_mbr (slice hdd 0 SECTOR_SIZE) (len hdd) = Done (cyl, heads, spt) →
  let ident := build_identify_words cyl heads spt in
  let pairs :=
    [ (0xF430, mem_kb `mod` 256); (0xF431, (mem_kb / 256) `mod` 256);
      (0xF414, 0x25);
      (0xF410, 0x20);
      (0xF40D, 0x80);
      (0xF409, 0x24); (0xF408, 0x01); (0xF407, 0x01); (0xF432, 0x20);
      (0xF001, cyl); (0xF002, heads); (0xF003, spt);
      (0xF004, heads * spt); (0xF005, heads * spt * cyl) ]
    ++ ((λ i : nat,
           (0xF000, Z.lor (nth (2 * i) ident 0) (Z.shiftl (nth (2 * i + 1) ident 0) 16)))
          <$> seq 0 128) in
  build_config_stream mem_kb hdd = Done (concat (pair_bytes <$> pairs) ++ replicate 400 0)
  ∧ len (concat (pair_bytes <$> pairs) ++ replicate 400 0) = 3 * 512
  ∧ length pairs = 142%nat
  ∧ length ident = 256%nat
  ∧ (Z.testbit 0x25 0 = true ∧ Z.testbit 0x25 2 = true ∧ Z.land (Z.shiftr 0x25 4) 3 = 2).
Proof.
  intros Hgeo ident pairs.
  assert (Hpairs : config_pairs mem_kb cyl heads spt = pairs)
    by exact (config_pairs_explicit mem_kb hdd cyl heads spt Hgeo).
  split; [|split; [|split; [|split]]].
  - rewrite (build_config_stream_done mem_kb hdd cyl heads spt Hgeo).
    now rewrite pack_pairs_spec, Hpairs.
  - rewrite <- Hpairs, <- pack_pairs_spec. unfold len.
    rewrite length_app, length_pack_pairs, length_config_pairs. reflexivity.
  - rewrite <- Hpairs. apply length_config_pairs.
  - apply length_build_identify_words.
  - repeat split.
Qed.

(** The amended claim on a one-sector disk image that holds the example
    MBR. *)
Lemma config_stream_layout_witness :
  ∃ stream,
    build_config_stream 1024 example_mbr = Done stream
    ∧ len stream = 3 * 512
    ∧ take 16 stream = [0x30; 0xF4; 0; 0; 0; 0; 0; 0; 0x31; 0xF4; 0; 0; 4; 0; 0; 0].
Proof.
  assert (Hgeo : calc_geometry_from_mbr (slice example_mbr 0 SECTOR_SIZE) (len example_mbr)
                 = Done (0, 255, 63)) by (vm_compute; reflexivity).
  destruct (config_stream_layout 1024 example_mbr 0 255 63 Hgeo) as (Hrun & Hlen & _).
  eexists. split; [exact Hrun|]. split; [exact Hlen|]. reflexivity.
Defined.

(** *** The image composer *)

Lemma len_zeros (n : Z) : len (zeros n) = Z.max 0 n.
Proof. unfold zeros. rewrite len_replicate. lia. Qed.

Lemma zeros_nonpos (n : Z) : n ≤ 0 → zeros n = [].
Proof. intros Hn. unfold zeros. now replace (Z.to_nat n) with 0%nat by lia. Qed.

(** The part of a list that starts where a prefix of known length ends. *)
Lemma slice_at {A : Type} (pre x post : list A) (lo : Z) :
  len pre = lo → slice (pre ++ x ++ post) lo (lo + len x) = x.
Proof.
  intros Hlo. unfold slice, len in *.
  replace (Z.to_nat (lo + Z.of_nat (length x)) - Z.to_nat lo)%nat with (length x) by lia.
  replace (Z.to_nat lo) with (length pre) by lia.
  now rewrite drop_app_length, take_app_length.
Qed.

Lemma slice_from_at {A : Type} (pre post : list A) (lo : Z) :
  len pre = lo → slice_from (pre ++ post) lo = post.
Proof.
  intros Hlo. unfold slice_from, len in *.
  replace (Z.to_nat lo) with (length pre) by lia. apply drop_app_length.
Qed.

(** An image of at least one sector has an MBR, so the geometry is found
    and the config stream is built. *)
Lemma geometry_found (hdd : list Z) :
  512 ≤ len hdd →
  ∃ cyl heads spt,
    calc_geometry_from_mbr (slice hdd 0 SECTOR_SIZE) (len hdd) = Done (cyl, heads, spt).
Proof.
  intros Hlen.
  destruct (calc_geometry_selected (slice hdd 0 SECTOR_SIZE) (len hdd))
    as (heads & spt & Hcalc & _).
  - unfold slice, SECTOR_SIZE, len in *. rewrite length_take, length_drop. lia.
  - eauto.
Qed.

Lemma pair_bytes_small (a v : Z) :
  0 ≤ a < 65536 → 0 ≤ v < 256 →
  pair_bytes (a, v) = [a `mod` 256; a / 256; 0; 0; v; 0; 0; 0].
Proof.
  intros Ha Hv. unfold pair_bytes, le32_bytes. cbn [fst snd app].
  change (2 ^ 32) with 4294967296.
  rewrite (Z.mod_small a 4294967296), (Z.mod_small v 4294967296) by lia.
  rewrite (Z.mod_small (a / 256)) by (split; [apply Z.div_pos | apply Z.div_lt_upper_bound]; lia).
  rewrite (Z.mod_small v) by lia.
  rewrite (Z.div_small a 65536), (Z.div_small a 16777216) by lia.
  rewrite (Z.div_small v 256), (Z.div_small v 65536), (Z.div_small v 16777216) by lia.
  reflexivity.
Qed.

Lemma config_stream_built (mem_kb : Z) (hdd : list Z) :
  512 ≤ len hdd →
  ∃ cfg, build_config_stream mem_kb hdd = Done cfg ∧ len cfg = 1536
         ∧ take 16 cfg
           = [0x30; 0xF4; 0; 0; mem_kb `mod` 256; 0; 0; 0;
              0x31; 0xF4; 0; 0; (mem_kb / 256) `mod` 256; 0; 0; 0].
Proof.
  intros Hlen. destruct (geometry_found hdd Hlen) as (cyl & heads & spt & Hgeo).
  eexists. split; [exact (build_config_stream_done mem_kb hdd cyl heads spt Hgeo)|].
  split.
  { unfold len. rewrite length_app, length_pack_pairs, length_config_pairs. reflexivity. }
  rewrite pack_pairs_spec, (config_pairs_explicit mem_kb hdd cyl heads spt Hgeo).
  cbn [app]. rewrite !fmap_cons. cbn [concat].
  rewrite (pair_bytes_small 0xF430) by (pose proof (Z.mod_pos_bound mem_kb 256); lia).
  rewrite (pair_bytes_small 0xF431)
    by (pose proof (Z.mod_pos_bound (mem_kb / 256) 256); lia).
  reflexivity.
Qed.

(** What the composer writes when the inputs pass its two size checks and
    the disk image has an MBR. *)
Lemma create_sdcard_image_written (bios vga hdd : list Z) (mem_mb : Z) :
  len bios ≤ 0x10000 → len vga ≤ 0x10000 → 512 ≤ len hdd →
  ∃ cfg,
    build_config_stream ((mem_mb - 1) * 1024) hdd = Done cfg ∧ len cfg = 1536
    ∧ create_sdcard_image (Some bios) (Some vga) (Some hdd) mem_mb =
        Created (bios ++ zeros (0x10000 - len bios) ++ vga ++ zeros (0x8000 - len vga)
                   ++ cfg
                   ++ zeros (0x20000 - (0x10000 + Z.max (len vga) 0x8000 + 1536))
                   ++ hdd).
Proof.
  intros Hbios Hvga Hhdd.
  destruct (config_stream_built ((mem_mb - 1) * 1024) hdd Hhdd) as (cfg & Hcfg & Hlen & _).
  exists cfg. split; [done|]. split; [done|].
  unfold create_sdcard_image. cbv zeta.
  unfold VGA_BIOS_OFFSET, HDD_OFFSET.
  destruct (Z.ltb_spec (64 * 1024) (len bios)) as [? | _]; [lia|].
  destruct (Z.ltb_spec (128 * 1024) (64 * 1024 + len vga)) as [? | _]; [lia|].
  rewrite Hcfg. f_equal.
  assert (Hroms : write_roms bios vga
                  = bios ++ zeros (0x10000 - len bios) ++ vga ++ zeros (0x8000 - len vga)).
  { unfold write_roms, VGA_BIOS_OFFSET, CFG_OFFSET, CFG_SECTOR, SECTOR_SIZE. cbv zeta.
    destruct (Z.ltb_spec (len bios) (64 * 1024)) as [Hlt | Hge].
    - rewrite !len_app, len_zeros.
      destruct (Z.ltb_spec (len bios + Z.max 0 (64 * 1024 - len bios) + len vga) (192 * 512))
        as [Hlt2 | Hge2].
      + rewrite <- !app_assoc. do 3 f_equal. f_equal. lia.
      + rewrite (zeros_nonpos (0x8000 - len vga)) by lia.
        now rewrite app_nil_r, <- app_assoc.
    - rewrite (zeros_nonpos (0x10000 - len bios)) by lia. cbn [app].
      rewrite len_app.
      destruct (Z.ltb_spec (len bios + len vga) (192 * 512)) as [Hlt2 | Hge2].
      + rewrite <- !app_assoc. do 2 f_equal. f_equal. lia.
      + rewrite (zeros_nonpos (0x8000 - len vga)) by lia. now rewrite app_nil_r. }
  assert (Hlroms : len (write_roms bios vga) = 0x10000 + Z.max (len vga) 0x8000).
  { rewrite Hroms, !len_app, !len_zeros. pose proof (len_nonneg bios).
    pose proof (len_nonneg vga). lia. }
  unfold write_cfg_hdd, HDD_OFFSET. cbv zeta. rewrite len_app, Hlroms, Hlen.
  destruct (Z.ltb_spec (0x10000 + Z.max (len vga) 0x8000 + 1536) (128 * 1024)) as [Hlt | Hge].
  - rewrite Hroms, <- !app_assoc. reflexivity.
  - rewrite (zeros_nonpos (0x20000 - _)) by lia.
    rewrite Hroms, <- !app_assoc. reflexivity.
Qed.

(** The layout the documentation promises, reached when the VGA BIOS is no
    longer than 32 KiB: BIOS at 0, VGA BIOS at 0x10000, config stream at
    0x18000, disk image at 0x20000, zero padding between them. *)
Lemma image_layout (bios vga hdd : list Z) (mem_mb : Z) :
  len bios ≤ 0x10000 → len vga ≤ 0x8000 → 512 ≤ len hdd →
  ∃ cfg image,
    create_sdcard_image (Some bios) (Some vga) (Some hdd) mem_mb = Created image
    ∧ build_config_stream ((mem_mb - 1) * 1024) hdd = Done cfg
    ∧ len image = 0x20000 + len hdd
    ∧ slice image 0 (len bios) = bios
    ∧ slice image (len bios) 0x10000 = zeros (0x10000 - len bios)
    ∧ slice image 0x10000 (0x10000 + len vga) = vga
    ∧ slice image (0x10000 + len vga) 0x18000 = zeros (0x8000 - len vga)
    ∧ slice image 0x18000 (0x18000 + len cfg) = cfg
    ∧ slice image (0x18000 + len cfg) 0x20000 = zeros (0x8000 - len cfg)
    ∧ slice_from image 0x20000 = hdd.
Proof.
  intros Hbios Hvga Hhdd.
  destruct (create_sdcard_image_written bios vga hdd mem_mb) as (cfg & Hcfg & Hlen & Himg);
    [lia..|].
  pose proof (len_nonneg bios) as Hb0. pose proof (len_nonneg vga) as Hv0.
  replace (Z.max (len vga) 0x8000) with 0x8000 in Himg by lia.
  replace (zeros (0x20000 - (0x10000 + 0x8000 + 1536))) with (zeros (0x8000 - len cfg))
    in Himg by (rewrite Hlen; reflexivity).
  set (p1 := zeros (0x10000 - len bios)) in *.
  set (p2 := zeros (0x8000 - len vga)) in *.
  set (p3 := zeros (0x8000 - len cfg)) in *.
  assert (Hp1 : len p1 = 0x10000 - len bios) by (unfold p1; rewrite len_zeros; lia).
  assert (Hp2 : len p2 = 0x8000 - len vga) by (unfold p2; rewrite len_zeros; lia).
  assert (Hp3 : len p3 = 0x8000 - len cfg) by (unfold p3; rewrite len_zeros; lia).
  exists cfg, (bios ++ p1 ++ vga ++ p2 ++ cfg ++ p3 ++ hdd).
  split; [exact Himg|]. split; [exact Hcfg|].
  split; [rewrite !len_app; lia|].
  split. { apply (slice_at [] bios _ 0). reflexivity. }
  split.
  { replace 0x10000 with (len bios + len p1) by lia.
    apply (slice_at bios p1 _ (len bios)). reflexivity. }
  split.
  { replace (bios ++ p1 ++ vga ++ p2 ++ cfg ++ p3 ++ hdd)
      with ((bios ++ p1) ++ vga ++ p2 ++ cfg ++ p3 ++ hdd) by now rewrite <- !app_assoc.
    apply slice_at. rewrite len_app. lia. }
  split.
  { replace (bios ++ p1 ++ vga ++ p2 ++ cfg ++ p3 ++ hdd)
      with ((bios ++ p1 ++ vga) ++ p2 ++ cfg ++ p3 ++ hdd) by now rewrite <- !app_assoc.
    replace 0x18000 with ((0x10000 + len vga) + len p2) by lia.
    apply slice_at. rewrite !len_app. lia. }
  split.
  { replace (bios ++ p1 ++ vga ++ p2 ++ cfg ++ p3 ++ hdd)
      with ((bios ++ p1 ++ vga ++ p2) ++ cfg ++ p3 ++ hdd) by now rewrite <- !app_assoc.
    apply slice_at. rewrite !len_app. lia. }
  split.
  { replace (bios ++ p1 ++ vga ++ p2 ++ cfg ++ p3 ++ hdd)
      with ((bios ++ p1 ++ vga ++ p2 ++ cfg) ++ p3 ++ hdd) by now rewrite <- !app_assoc.
    replace 0x20000 with ((0x18000 + len cfg) + len p3) by lia.
    apply slice_at. rewrite !len_app. lia. }
  replace (bios ++ p1 ++ vga ++ p2 ++ cfg ++ p3 ++ hdd)
    with ((bios ++ p1 ++ vga ++ p2 ++ cfg ++ p3) ++ hdd) by now rewrite <- !app_assoc.
  apply slice_from_at. rewrite !len_app. lia.
Qed.

(** The two size checks. *)
Lemma image_oversize (bios vga hdd : list Z) (mem_mb : Z) :
  (0x10000 < len bios →
   create_sdcard_image (Some bios) (Some vga) (Some hdd) mem_mb = OversizeInput "BIOS")
  ∧ (len bios ≤ 0x10000 → 0x20000 < 0x10000 + len vga →
     create_sdcard_image (Some bios) (Some vga) (Some hdd) mem_mb = OversizeInput "VGA BIOS").
Proof.
  unfold create_sdcard_image, VGA_BIOS_OFFSET, HDD_OFFSET. cbv zeta. split.
  - intros H. destruct (Z.ltb_spec (64 * 1024) (len bios)); [reflexivity | lia].
  - intros H1 H2. destruct (Z.ltb_spec (64 * 1024) (len bios)); [lia|].
    destruct (Z.ltb_spec (128 * 1024) (64 * 1024 + len vga)); [reflexivity | lia].
Qed.

(** The specification's example: BIOS of 100 bytes, VGA BIOS of 50 bytes,
    disk image of 1000 bytes. *)
Lemma image_layout_example (bios vga hdd : list Z) (mem_mb : Z) :
  len bios = 100 → len vga = 50 → len hdd = 1000 →
  ∃ image,
    create_sdcard_image (Some bios) (Some vga) (Some hdd) mem_mb = Created image
    ∧ len image = 0x20000 + 1000
    ∧ slice image 0 100 = bios
    ∧ slice image 0x10000 0x10032 = vga.
Proof.
  intros Hb Hv Hh.
  destruct (image_layout bios vga hdd mem_mb) as (cfg & image & Himg & _ & Hlen & Hs1 & _ & Hs2 & _);
    [lia..|].
  exists image. rewrite Hb in Hs1. rewrite Hv in Hs2. rewrite Hh in Hlen.
  split; [exact Himg|]. split; [exact Hlen|]. split; [exact Hs1 | exact Hs2].
Qed.

(** C3 fails on the code for a VGA BIOS longer than 32 KiB.  The composer
    checks the VGA BIOS against the disk image offset (128 KiB), not against
    the config sector (96 KiB) that the module documents, so such a file is
    accepted; the config stream is then written right after it, past 0x18000,
    and when fewer than 1536 bytes are left before 0x20000 the disk image
    starts late and the output is longer than 0x20000 + len(disk image). *)
Theorem vga_bios_over_32k_accepted (bios vga hdd : list Z) (mem_mb : Z) :
  len bios ≤ 0x10000 → 0x8000 < len vga ≤ 0x10000 → 512 ≤ len hdd →
  ∃ cfg image,
    create_sdcard_image (Some bios) (Some vga) (Some hdd) mem_mb = Created image
    ∧ build_config_stream ((mem_mb - 1) * 1024) hdd = Done cfg
    ∧ slice image (0x10000 + len vga) (0x10000 + len vga + len cfg) = cfg
    ∧ 0x18000 < 0x10000 + len vga
    ∧ len image = Z.max 0x20000 (0x10000 + len vga + 1536) + len hdd
    ∧ slice_from image (Z.max 0x20000 (0x10000 + len vga + 1536)) = hdd.
Proof.
  intros Hbios Hvga Hhdd.
  destruct (create_sdcard_image_written bios vga hdd mem_mb) as (cfg & Hcfg & Hlen & Himg);
    [lia..|].
  pose proof (len_nonneg bios) as Hb0.
  replace (Z.max (len vga) 0x8000) with (len vga) in Himg by lia.
  rewrite (zeros_nonpos (0x8000 - len vga)) in Himg by lia. cbn [app] in Himg.
  set (p1 := zeros (0x10000 - len bios)) in *.
  set (p3 := zeros (0x20000 - (0x10000 + len vga + 1536))) in *.
  assert (Hp1 : len p1 = 0x10000 - len bios) by (unfold p1; rewrite len_zeros; lia).
  assert (Hp3 : len p3 = Z.max 0 (0x20000 - (0x10000 + len vga + 1536)))
    by (unfold p3; now rewrite len_zeros).
  exists cfg, (bios ++ p1 ++ vga ++ cfg ++ p3 ++ hdd).
  split; [exact Himg|]. split; [exact Hcfg|].
  split.
  { replace (bios ++ p1 ++ vga ++ cfg ++ p3 ++ hdd)
      with ((bios ++ p1 ++ vga) ++ cfg ++ p3 ++ hdd) by now rewrite <- !app_assoc.
    apply slice_at. rewrite !len_app. lia. }
  split; [lia|].
  split; [rewrite !len_app; lia|].
  replace (bios ++ p1 ++ vga ++ cfg ++ p3 ++ hdd)
    with ((bios ++ p1 ++ vga ++ cfg ++ p3) ++ hdd) by now rewrite <- !app_assoc.
  apply slice_from_at. rewrite !len_app. lia.
Qed.

(** The failing input: an empty BIOS, a VGA BIOS of exactly 64 KiB and a
    one-sector disk image.  The composer succeeds, the config stream lies at
    0x20000, and the disk image starts at 0x20600. *)
Lemma vga_bios_over_32k_accepted_witness :
  ∃ cfg image,
    create_sdcard_image (Some []) (Some (zeros 0x10000)) (Some example_mbr) 2
      = Created image
    ∧ build_config_stream 1024 example_mbr = Done cfg
    ∧ slice image 0x20000 (0x20000 + len cfg) = cfg
    ∧ len image = 0x20600 + 512
    ∧ slice_from image 0x20600 = example_mbr.
Proof.
  destruct (vga_bios_over_32k_accepted [] (zeros 0x10000) example_mbr 2)
    as (cfg & image & Himg & Hcfg & Hat & _ & Hlen & Hhdd).
  - vm_compute. discriminate.
  - rewrite len_zeros. lia.
  - vm_compute. discriminate.
  - rewrite len_zeros in Hat, Hlen, Hhdd.
    exists cfg, image. split; [exact Himg|]. split; [exact Hcfg|].
    split; [exact Hat|]. split; [exact Hlen | exact Hhdd].
Defined.

(** Where the config stream lies in the image, and how it starts. *)
Lemma config_stream_in_image (bios vga hdd : list Z) (mem_mb : Z) :
  len bios ≤ 0x10000 → len vga ≤ 0x10000 → 512 ≤ len hdd →
  ∃ cfg pre post,
    create_sdcard_image (Some bios) (Some vga) (Some hdd) mem_mb
      = Created (pre ++ cfg ++ post)
    ∧ build_config_stream ((mem_mb - 1) * 1024) hdd = Done cfg
    ∧ len pre = 0x10000 + Z.max (len vga) 0x8000
    ∧ take 16 cfg
      = [0x30; 0xF4; 0; 0; ((mem_mb - 1) * 1024) `mod` 256; 0; 0; 0;
         0x31; 0xF4; 0; 0; ((mem_mb - 1) * 1024 / 256) `mod` 256; 0; 0; 0].
Proof.
  intros Hbios Hvga Hhdd.
  destruct (create_sdcard_image_written bios vga hdd mem_mb) as (cfg & Hcfg & Hlen & Himg);
    [lia..|].
  destruct (config_stream_built ((mem_mb - 1) * 1024) hdd Hhdd) as (cfg' & Hcfg' & _ & Htake).
  rewrite Hcfg in Hcfg'. injection Hcfg' as <-.
  exists cfg, (bios ++ zeros (0x10000 - len bios) ++ vga ++ zeros (0x8000 - len vga)),
    (zeros (0x20000 - (0x10000 + Z.max (len vga) 0x8000 + 1536)) ++ hdd).
  split; [rewrite Himg; now rewrite <- !app_assoc|].
  split; [exact Hcfg|]. split; [|exact Htake].
  rewrite !len_app, !len_zeros. pose proof (len_nonneg bios). pose proof (len_nonneg vga).
  lia.
Qed.

(** C10 as stated fails for [mem_mb] above 64: the two CMOS bytes hold 16
    bits.  With [mem_mb = 65] the value (65 - 1) * 1024 = 65536 KB is written
    as low byte 0 and high byte 0. *)
Lemma extended_memory_wraps_counterexample :
  ∃ cfg pre post,
    create_sdcard_image (Some []) (Some []) (Some example_mbr) 65
      = Created (pre ++ cfg ++ post)
    ∧ build_config_stream ((65 - 1) * 1024) example_mbr = Done cfg
    ∧ take 16 cfg = [0x30; 0xF4; 0; 0; 0; 0; 0; 0; 0x31; 0xF4; 0; 0; 0; 0; 0; 0]
    ∧ (65 - 1) * 1024 = 65536.
Proof.
  destruct (config_stream_in_image [] [] example_mbr 65)
    as (cfg & pre & post & Himg & Hcfg & _ & Htake).
  - vm_compute. discriminate.
  - vm_compute. discriminate.
  - vm_compute. discriminate.
  - exists cfg, pre, post. split; [exact Himg|]. split; [exact Hcfg|].
    split; [exact Htake | reflexivity].
Qed.

(** C10, amended.  The value [create_sdcard_image] passes to the config
    stream is [(mem_mb - 1) * 1024], one megabyte less than [mem_mb] in KB.
    The pair at 0xF430 holds its low byte and the pair at 0xF431 the next
    byte; they are the first two pairs of the stream, which lies in the image
    after the ROMs.  Together the two bytes are the value modulo 65536, which
    is the value itself for 1 <= mem_mb <= 64. *)
Theorem extended_memory_written (bios vga hdd : list Z) (mem_mb : Z) :
  len bios ≤ 0x10000 → len vga ≤ 0x10000 → 512 ≤ len hdd →
  let mem_kb := (mem_mb - 1) * 1024 in
  let lo := mem_kb `mod` 256 in
  let hi := (mem_kb / 256) `mod` 256 in
  ∃ cfg pre post,
    create_sdcard_image (Some bios) (Some vga) (Some hdd) mem_mb
      = Created (pre ++ cfg ++ post)
    ∧ build_config_stream mem_kb hdd = Done cfg
    ∧ len pre = 0x10000 + Z.max (len vga) 0x8000
    ∧ take 16 cfg = [0x30; 0xF4; 0; 0; lo; 0; 0; 0; 0x31; 0xF4; 0; 0; hi; 0; 0; 0]
    ∧ lo + 256 * hi = mem_kb `mod` 65536
    ∧ (1 ≤ mem_mb ≤ 64 → lo = 0 ∧ lo + 256 * hi = (mem_mb - 1) * 1024).
Proof.
  intros Hbios Hvga Hhdd mem_kb lo hi.
  destruct (config_stream_in_image bios vga hdd mem_mb Hbios Hvga Hhdd)
    as (cfg & pre & post & Himg & Hcfg & Hpre & Htake).
  exists cfg, pre, post.
  split; [exact Himg|]. split; [exact Hcfg|]. split; [exact Hpre|]. split; [exact Htake|].
  assert (Hsum : lo + 256 * hi = mem_kb `mod` 65536).
  { unfold lo, hi.
    pose proof (Z.div_mod mem_kb 256). pose proof (Z.div_mod (mem_kb / 256) 256).
    pose proof (Z.div_mod mem_kb 65536). pose proof (Z.mod_pos_bound mem_kb 256).
    pose proof (Z.mod_pos_bound (mem_kb / 256) 256).
    pose proof (Z.mod_pos_bound mem_kb 65536).
    assert (mem_kb / 256 / 256 = mem_kb / 65536) by (rewrite Z.div_div by lia; reflexivity).
    lia. }
  split; [exact Hsum|].
  intros Hmb. split.
  - unfold lo, mem_kb. replace ((mem_mb - 1) * 1024) with ((mem_mb - 1) * 4 * 256) by lia.
    apply Z.mod_mul. lia.
  - rewrite Hsum. apply Z.mod_small. unfold mem_kb. lia.
Qed.

(** The amended claim at the default [mem_mb = 2]: 1024 KB, low byte 0 at
    0xF430 and high byte 4 at 0xF431. *)
Lemma extended_memory_written_witness :
  ∃ cfg pre post,
    create_sdcard_image (Some []) (Some []) (Some example_mbr) 2
      = Created (pre ++ cfg ++ post)
    ∧ build_config_stream 1024 example_mbr = Done cfg
    ∧ take 16 cfg = [0x30; 0xF4; 0; 0; 0; 0; 0; 0; 0x31; 0xF4; 0; 0; 4; 0; 0; 0].
Proof.
  destruct (extended_memory_written [] [] example_mbr 2)
    as (cfg & pre & post & Himg & Hcfg & _ & Htake & _).
  - vm_compute. discriminate.
  - vm_compute. discriminate.
  - vm_compute. discriminate.
  - exists cfg, pre, post. split; [exact Himg|]. split; [exact Hcfg | exact Htake].
Defined.

End MksdcardProofs.

(** * Properties of the callers: reader, emulation, event loop, command line and image tools *)

(** ** The frame reader on arbitrary streams *)

Module ReaderProofs.
Import Frame FrameProofs.

(** The reader's state after [rx_buf.extend(data)]. *)
Local Abbreviation extend st data :=
  (mk_rx (rx_buf st ++ data) (rx_state st) (rx_len st) (rx_payload st)).

(** A result with the frames [got] put in front of those it dispatched. *)
Local Abbreviation after got r :=
  (match r with
   | Done (st, more) => Done (st, got ++ more)
   | Raised e => Raised e
   end).

Lemma parse_loop_mono (fuel : nat) :
  ∀ (st : rx) r (fuel' : nat),
    parse_loop fuel st = Some r → (fuel ≤ fuel')%nat → parse_loop fuel' st = Some r.
Proof.
  induction fuel as [|fuel IH]; intros st r fuel' Hrun Hle; [done|].
  destruct fuel' as [|fuel']; [lia|].
  cbn [parse_loop] in *.
  destruct (parse_pass st) as [[st' | st' got] | e]; try done.
  destruct (parse_loop fuel st') as [r'|] eqn:Hrec; [|done].
  rewrite (IH st' r' fuel' Hrec) by lia. exact Hrun.
Qed.

Lemma find_byte_app_none (b : Z) (buf data : list Z) :
  find_byte b buf = None →
  find_byte b (buf ++ data) = (λ i, (length buf + i)%nat) <$> find_byte b data.
Proof.
  induction buf as [|x buf IH]; cbn [find_byte app length].
  - intros _. now destruct (find_byte b data).
  - destruct (x =? b); [done|].
    destruct (find_byte b buf) as [i|]; [done|]. intros _.
    rewrite IH by done. now destruct (find_byte b data).
Qed.

Lemma find_byte_app_some (b : Z) (buf data : list Z) (idx : nat) :
  find_byte b buf = Some idx →
  find_byte b (buf ++ data) = Some idx
  ∧ ∃ rest, drop idx buf = b :: rest.
Proof.
  revert idx. induction buf as [|x buf IH]; intros idx; cbn [find_byte app]; [done|].
  destruct (Z.eqb_spec x b) as [-> | Hne].
  - intros [= <-]. split; [done|]. cbn. eauto.
  - destruct (find_byte b buf) as [i|]; [|done]. intros [= <-].
    destruct (IH i eq_refl) as [-> Hdrop]. split; [done|]. exact Hdrop.
Qed.

(** The [SEEK] block on a buffer that starts with the marker, whatever the
    stale value of [rx_len]. *)
Lemma seek_block_at_marker (rest : list Z) (l : Z) (p : list Z) :
  seek_block (mk_rx (0xAA :: rest) SEEK l p) =
    let buf := 0xAA :: rest in
    if len buf <? 4 then Done (inl (mk_rx buf SEEK l p))
    else
      b1 ←! index buf 1;
      b2 ←! index buf 2;
      let rxlen := Z.lor (Z.shiftl b1 8) b2 in
      if len buf <? 3 + rxlen then Done (inl (mk_rx buf SEEK rxlen p))
      else Done (inr (mk_rx (slice_from buf (3 + rxlen)) HAVE rxlen (slice buf 3 (3 + rxlen)))).
Proof. reflexivity. Qed.

(** What the [SEEK] block does depends on the buffer from the first marker
    on. *)
Lemma seek_block_skip (buf : list Z) (idx : nat) (rest : list Z) (l : Z) (p : list Z) :
  find_byte 0xAA buf = Some idx → drop idx buf = 0xAA :: rest →
  seek_block (mk_rx buf SEEK l p) = seek_block (mk_rx (0xAA :: rest) SEEK l p).
Proof.
  intros Hfind Hdrop. rewrite seek_block_at_marker.
  unfold seek_block. cbn [rx_state rx_buf rx_len rx_payload]. rewrite Hfind, Hdrop.
  reflexivity.
Qed.

Lemma seek_block_none (buf : list Z) (l : Z) (p : list Z) :
  find_byte 0xAA buf = None →
  seek_block (mk_rx buf SEEK l p) = Done (inl (mk_rx [] SEEK l p)).
Proof.
  intros Hfind. unfold seek_block. cbn [rx_state rx_buf rx_len rx_payload].
  now rewrite Hfind.
Qed.

Lemma drop_app_within {A : Type} (l k : list A) (n : nat) :
  (n ≤ length l)%nat → drop n (l ++ k) = drop n l ++ k.
Proof. intros Hn. rewrite drop_app. now replace (n - length l)%nat with 0%nat by lia. Qed.

Lemma take_app_within {A : Type} (l k : list A) (n : nat) :
  (n ≤ length l)%nat → take n (l ++ k) = take n l.
Proof.
  intros Hn. rewrite take_app. replace (n - length l)%nat with 0%nat by lia.
  cbn. apply app_nil_r.
Qed.

(** One more poll's data behind a buffer that starts with the marker. *)
Lemma seek_block_more (rest data : list Z) (l : Z) (p : list Z) :
  match seek_block (mk_rx (0xAA :: rest) SEEK l p) with
  | Done (inl st1) =>
      seek_block (mk_rx ((0xAA :: rest) ++ data) SEEK l p) = seek_block (extend st1 data)
      ∧ rx_state st1 = SEEK
  | Done (inr st1) =>
      seek_block (mk_rx ((0xAA :: rest) ++ data) SEEK l p) = Done (inr (extend st1 data))
      ∧ rx_state st1 = HAVE
  | Raised _ => True
  end.
Proof.
  rewrite seek_block_at_marker. cbv zeta.
  destruct (Z.ltb_spec (len (0xAA :: rest)) 4) as [Hshort | Hlong]; [done|].
  destruct rest as [|h [|lo [|x rest]]];
    try (unfold len in Hlong; cbn [length] in Hlong; lia).
  change (index (0xAA :: h :: lo :: x :: rest) 1) with (Done h).
  change (index (0xAA :: h :: lo :: x :: rest) 2) with (Done lo).
  cbn [obind].
  set (buf := 0xAA :: h :: lo :: x :: rest).
  set (rxlen := Z.lor (Z.shiftl h 8) lo).
  assert (Hmore : seek_block (mk_rx (buf ++ data) SEEK l p) =
    if len (buf ++ data) <? 3 + rxlen
    then Done (inl (mk_rx (buf ++ data) SEEK rxlen p))
    else Done (inr (mk_rx (slice_from (buf ++ data) (3 + rxlen)) HAVE rxlen
                      (slice (buf ++ data) 3 (3 + rxlen))))).
  { exact (seek_block_marker h lo x (rest ++ data) l p). }
  destruct (Z.ltb_spec (len buf) (3 + rxlen)) as [Hwait | Hhave].
  - split; [|done]. cbn [rx_buf rx_state rx_len rx_payload]. rewrite Hmore.
    symmetry. exact (seek_block_marker h lo x (rest ++ data) rxlen p).
  - split; [|done]. cbn [rx_buf rx_state rx_len rx_payload]. rewrite Hmore.
    destruct (Z.ltb_spec (len (buf ++ data)) (3 + rxlen)) as [Hlt | _].
    { rewrite len_app in Hlt. pose proof (len_nonneg data). lia. }
    do 2 f_equal. unfold slice_from, slice, len in *. f_equal.
    + apply drop_app_within. lia.
    + change (Z.to_nat 3) with 3%nat.
      rewrite drop_app_within by (subst buf; cbn [length]; lia).
      apply take_app_within. rewrite length_drop. lia.
Qed.

(** One pass of the loop, with more data behind the buffer: a pass that
    broke off takes up where it stopped, and a pass that dispatched a frame
    dispatches the same frame. *)
Lemma parse_pass_extend (st : rx) (data : list Z) :
  rx_state st = SEEK →
  match parse_pass st with
  | Done (Break st1) =>
      parse_pass (extend st data) = parse_pass (extend st1 data) ∧ rx_state st1 = SEEK
  | Done (Again st1 got) =>
      parse_pass (extend st data) = Done (Again (extend st1 data) got) ∧ rx_state st1 = SEEK
  | Raised _ => True
  end.
Proof.
  destruct st as [buf s l p]. cbn [rx_state rx_buf rx_len rx_payload]. intros ->.
  unfold parse_pass.
  destruct (find_byte 0xAA buf) as [idx|] eqn:Hfind.
  - destruct (find_byte_app_some _ _ data _ Hfind) as [Hfind' [rest Hdrop]].
    assert (Hidx : (idx ≤ length buf)%nat) by exact (find_byte_drop _ _ _ Hfind).
    rewrite (seek_block_skip buf idx rest l p Hfind Hdrop).
    rewrite (seek_block_skip (buf ++ data) idx (rest ++ data) l p Hfind')
      by (rewrite drop_app_within by done; now rewrite Hdrop).
    pose proof (seek_block_more rest data l p) as Hmore.
    destruct (seek_block (mk_rx (0xAA :: rest) SEEK l p)) as [[st1 | st1] | e];
      cbn [obind]; [| |done].
    + destruct Hmore as [Hmore Hst1]. change (0xAA :: rest ++ data) with ((0xAA :: rest) ++ data).
      rewrite Hmore. done.
    + destruct Hmore as [Hmore Hst1]. change (0xAA :: rest ++ data) with ((0xAA :: rest) ++ data).
      rewrite Hmore. cbn [obind].
      destruct (have_block_total st1 Hst1) as [got Hhave]. rewrite Hhave.
      unfold have_block in *. cbn [rx_state rx_buf rx_len rx_payload] in *.
      rewrite Hst1 in *.
      destruct (rx_payload st1) as [|t body] eqn:Hpay.
      * injection Hhave as <-. done.
      * cbn [obind] in *. change (index (t :: body) 0) with (Done t) in *.
        cbn [obind] in *. injection Hhave as <-. done.
  - rewrite (seek_block_none buf l p Hfind). cbn [obind rx_buf rx_state rx_len rx_payload app].
    split; [|done].
    unfold seek_block. cbn [rx_state rx_buf rx_len rx_payload].
    rewrite (find_byte_app_none _ _ _ Hfind).
    destruct (find_byte 0xAA data) as [i|] eqn:Hdata; cbn [fmap option_fmap option_map];
      [|reflexivity].
    rewrite drop_app_add'; reflexivity.
Qed.

(** The loop with more data behind the buffer: what it dispatched before is
    dispatched first, and then it goes on from the state it had reached. *)
Lemma parse_loop_extend (fuel : nat) :
  ∀ (st : rx) (data : list Z) (st1 : rx) (got1 : list rx_frame),
    rx_state st = SEEK →
    parse_loop fuel st = Some (Done (st1, got1)) →
    rx_state st1 = SEEK
    ∧ ∀ fuel2 r,
        parse_loop fuel2 (extend st1 data) = Some r →
        ∃ fuel3, parse_loop fuel3 (extend st data) = Some (after got1 r).
Proof.
  induction fuel as [|fuel IH]; intros st data st1 got1 Hst Hrun; [done|].
  cbn [parse_loop] in Hrun.
  pose proof (parse_pass_extend st data Hst) as Hpass.
  destruct (parse_pass st) as [[st' | st' got] | e]; [| |done].
  - injection Hrun as <- <-. destruct Hpass as [Hpass Hst']. split; [done|].
    intros fuel2 r Hrun2. exists fuel2.
    destruct fuel2 as [|fuel2]; [done|]. cbn [parse_loop] in *. rewrite Hpass.
    rewrite Hrun2. now destruct r as [[? ?]|].
  - destruct Hpass as [Hpass Hst'].
    destruct (parse_loop fuel st') as [[[st'' more]|]|] eqn:Hrec; try done.
    injection Hrun as <- <-.
    destruct (IH st' data st'' more Hst' Hrec) as [Hst'' Hnext]. split; [done|].
    intros fuel2 r Hrun2. destruct (Hnext fuel2 r Hrun2) as [fuel3 Hrun3].
    exists (S fuel3). cbn [parse_loop]. rewrite Hpass, Hrun3.
    destruct r as [[st2 got2]|]; [|done]. now rewrite app_assoc.
Qed.

(** The same for the whole of a poll. *)
Lemma parse_frames_extend (st : rx) (data : list Z) :
  rx_state st = SEEK → is_bytes (rx_buf st) → is_bytes data →
  ∃ st1 got1 st2 got2,
    parse_frames st = Some (Done (st1, got1))
    ∧ rx_state st1 = SEEK ∧ is_bytes (rx_buf st1)
    ∧ parse_frames (extend st1 data) = Some (Done (st2, got2))
    ∧ rx_state st2 = SEEK ∧ is_bytes (rx_buf st2)
    ∧ parse_frames (extend st data) = Some (Done (st2, got1 ++ got2)).
Proof.
  intros Hst Hbuf Hdata.
  destruct (parse_frames_terminates st Hbuf) as (st1 & got1 & Hrun1 & Hbuf1 & Hst1).
  destruct (parse_frames_terminates (extend st1 data)) as (st2 & got2 & Hrun2 & Hbuf2 & Hst2).
  { cbn. now apply Forall_app. }
  destruct (parse_frames_terminates (extend st data)) as (st3 & got3 & Hrun3 & Hbuf3 & Hst3).
  { cbn. now apply Forall_app. }
  exists st1, got1, st2, got2. repeat (split; [done|]).
  destruct (parse_loop_extend _ st data st1 got1 Hst Hrun1) as [_ Hnext].
  destruct (Hnext _ _ Hrun2) as [fuel3 Hrun].
  unfold parse_frames in *.
  pose proof (parse_loop_mono _ _ _ (fuel3 + parse_fuel (extend st data)) Hrun ltac:(lia)) as H1.
  pose proof (parse_loop_mono _ _ _ (fuel3 + parse_fuel (extend st data)) Hrun3 ltac:(lia)) as H2.
  rewrite Hrun3. congruence.
Qed.

(** A state in which the reader rests: parsing again changes nothing. *)
Local Abbreviation at_rest st :=
  (rx_state st = SEEK ∧ is_bytes (rx_buf st) ∧ parse_frames st = Some (Done (st, []))).

Lemma extend_nil (st : rx) : extend st [] = st.
Proof. destruct st. cbn. now rewrite app_nil_r. Qed.

Lemma parse_frames_rest (st st1 : rx) (got1 : list rx_frame) :
  rx_state st = SEEK → is_bytes (rx_buf st) →
  parse_frames st = Some (Done (st1, got1)) → at_rest st1.
Proof.
  intros Hst Hbuf Hrun.
  destruct (parse_frames_extend st [] Hst Hbuf)
    as (st1' & got1' & st2 & got2 & Hrun1 & Hst1 & Hbuf1 & Hrun2 & _ & _ & Hall);
    [constructor|].
  rewrite !extend_nil in *. rewrite Hrun in Hrun1, Hall.
  injection Hrun1 as <- <-. injection Hall as <- Hgot.
  assert (got2 = []) as -> by (apply (app_inv_head got1); now rewrite app_nil_r).
  done.
Qed.

Lemma feed_chunks_concat (chunks : list (list Z)) :
  ∀ st : rx,
    at_rest st → Forall is_bytes chunks →
    feed_chunks st chunks = feed st (concat chunks)
    ∧ ∃ st' got, feed st (concat chunks) = Some (Done (st', got)) ∧ at_rest st'.
Proof.
  induction chunks as [|data chunks IH]; intros st (Hst & Hbuf & Hrest) Hall.
  - cbn [concat feed_chunks]. unfold feed. rewrite extend_nil, Hrest. eauto 10.
  - apply Forall_cons in Hall as [Hdata Hall]. cbn [concat feed_chunks].
    assert (Hcat : is_bytes (concat chunks)) by now apply Forall_concat.
    destruct (parse_frames_extend (extend st data) (concat chunks))
      as (st1 & got1 & st2 & got2 & Hrun1 & Hst1 & Hbuf1 & Hrun2 & Hst2 & Hbuf2 & Hall2).
    { done. } { cbn. now apply Forall_app. } { done. }
    cbn [rx_buf rx_state rx_len rx_payload] in Hall2. rewrite <- app_assoc in Hall2.
    assert (Hrest1 : at_rest st1).
    { apply (parse_frames_rest (extend st data) st1 got1); [done | | done].
      cbn. now apply Forall_app. }
    destruct (IH st1 Hrest1 Hall) as [Hchunks _].
    unfold feed in *. rewrite Hrun1, Hchunks, Hrun2, Hall2. split; [done|].
    exists st2, (got1 ++ got2). split; [done|].
    apply (parse_frames_rest (extend st1 (concat chunks)) st2 got2); [done | | done].
    cbn. now apply Forall_app.
Qed.

Lemma rx_init_at_rest : at_rest rx_init.
Proof. split; [done|]. split; [constructor | reflexivity]. Qed.

(** How the incoming bytes are cut into polls does not matter: the frames
    dispatched and the state the reader is left in are those of the whole
    stream read in one piece, and those of the stream read one byte at a
    time.  The reader never raises. *)
Theorem reader_chunking_irrelevant (chunks : list (list Z)) :
  Forall is_bytes chunks →
  feed_chunks rx_init chunks = feed rx_init (concat chunks)
  ∧ feed_chunks rx_init chunks = feed_bytes rx_init (concat chunks)
  ∧ ∃ st' got, feed_chunks rx_init chunks = Some (Done (st', got)) ∧ rx_state st' = SEEK.
Proof.
  intros Hall.
  destruct (feed_chunks_concat chunks rx_init rx_init_at_rest Hall)
    as [Hone (st' & got & Hrun & Hst' & _)].
  split; [exact Hone|]. split.
  - rewrite Hone. unfold feed_bytes.
    destruct (feed_chunks_concat ((λ b, [b]) <$> concat chunks) rx_init rx_init_at_rest)
      as [Hbytes _].
    { apply Forall_fmap, Forall_forall. intros b Hb. cbn. constructor; [|constructor].
      assert (Hcat : is_bytes (concat chunks)) by now apply Forall_concat.
      unfold is_bytes in Hcat. rewrite Forall_forall in Hcat. now apply Hcat. }
    now rewrite Hbytes, concat_singletons.
  - exists st', got. now rewrite Hone.
Qed.

(** Three polls that cut a frame and the start of the next one. *)
Lemma reader_chunking_irrelevant_witness :
  feed_chunks rx_init [[0x55; 0xAA; 0]; [2; 6]; [0xF2; 0xAA; 0]]
    = Some (Done (mk_rx [0xAA; 0] SEEK 2 [6; 0xF2], [(6, [0xF2])])).
Proof.
  rewrite (proj1 (reader_chunking_irrelevant [[0x55; 0xAA; 0]; [2; 6]; [0xF2; 0xAA; 0]]
                    ltac:(repeat constructor; unfold is_byte; lia))).
  vm_compute. reflexivity.
Defined.

(** Bytes that come before the first marker byte are dropped: a stream
    that starts with bytes other than [0xAA] is read as if it started at the
    first [0xAA]. *)
Theorem reader_skips_to_marker (junk data : list Z) :
  0xAA ∉ junk → is_bytes data →
  feed rx_init (junk ++ data) = feed rx_init data
  ∧ feed rx_init junk = Some (Done (rx_init, [])).
Proof.
  intros Hjunk Hdata.
  assert (Hnone : find_byte 0xAA junk = None).
  { induction junk as [|x junk IH]; [done|].
    apply not_elem_of_cons in Hjunk as [Hx Hjunk]. cbn.
    destruct (Z.eqb_spec x 0xAA) as [-> | _]; [done|]. now rewrite IH. }
  split.
  - pose proof (parse_pass_extend (mk_rx junk SEEK 0 []) data eq_refl) as Hpass.
    unfold parse_pass in Hpass at 1. rewrite (seek_block_none junk 0 [] Hnone) in Hpass.
    cbn [obind rx_buf rx_state rx_len rx_payload app] in Hpass. destruct Hpass as [Hpass _].
    unfold feed. cbn [rx_buf rx_state rx_len rx_payload rx_init app].
    destruct (parse_frames_terminates (mk_rx data SEEK 0 [])) as (st' & got & Hrun & _);
      [done|].
    rewrite Hrun. unfold parse_frames in *.
    apply (parse_loop_mono _ _ _ (parse_fuel (mk_rx (junk ++ data) SEEK 0 []))) in Hrun.
    2:{ unfold parse_fuel. cbn [rx_buf]. rewrite length_app. lia. }
    unfold parse_fuel in *. cbn [rx_buf parse_loop] in *. now rewrite Hpass.
  - unfold feed, parse_frames, parse_fuel. cbn [rx_buf rx_state rx_len rx_payload rx_init app].
    cbn [parse_loop]. unfold parse_pass. now rewrite (seek_block_none junk 0 [] Hnone).
Qed.

(** Line noise in front of a frame. *)
Lemma reader_skips_to_marker_witness :
  feed rx_init ([0x00; 0xFF; 0x55] ++ [0xAA; 0; 2; 6; 0xF2])
    = Some (Done (mk_rx [] SEEK 2 [6; 0xF2], [(6, [0xF2])])).
Proof.
  rewrite (proj1 (reader_skips_to_marker [0x00; 0xFF; 0x55] [0xAA; 0; 2; 6; 0xF2]
                    ltac:(vm_compute; intros H; repeat (apply elem_of_cons in H as [H | H]; [discriminate|]); now apply elem_of_nil in H)
                    ltac:(repeat constructor; unfold is_byte; lia))).
  vm_compute. reflexivity.
Defined.

End ReaderProofs.

(** ** The device emulation as a protocol *)

Module EmulatorProofs.
Import Frame FrameProofs Mouse MouseProofs Interactive.

Lemma host_to_mouse_step (m : mouse) (b : Z) (rest : list Z) :
  host_to_mouse m (b :: rest) =
    ((host_to_mouse (on_host_to_mouse_byte m b).1 rest).1,
     (on_host_to_mouse_byte m b).2 ++ (host_to_mouse (on_host_to_mouse_byte m b).1 rest).2).
Proof.
  cbn [host_to_mouse]. destruct (on_host_to_mouse_byte m b) as [m' replies].
  cbn [fst snd]. now destruct (host_to_mouse m' rest).
Qed.

Lemma last3_snoc {A : Type} (l : list A) (x : A) :
  ∃ l', last3 (l ++ [x]) = l' ++ [x].
Proof.
  unfold last3. rewrite length_app. cbn [length].
  exists (drop (length l + 1 - 3) l).
  rewrite drop_app. replace (length l + 1 - 3 - length l)%nat with 0%nat by lia.
  reflexivity.
Qed.

Lemma last3_last3_app {A : Type} (l k : list A) :
  last3 (last3 l ++ k) = last3 (l ++ k).
Proof.
  destruct (decide (length l ≤ 3)%nat) as [Hshort | Hlong].
  { now rewrite (last3_short l). }
  unfold last3. rewrite !length_app, length_drop.
  rewrite !drop_app, !length_drop, drop_drop. f_equal; f_equal; lia.
Qed.

Lemma last3_app3 {A : Type} (l : list A) (a b c : A) : last3 (l ++ [a; b; c]) = [a; b; c].
Proof.
  unfold last3. rewrite length_app. cbn [length].
  replace (length l + 3 - 3)%nat with (length l) by lia. apply drop_app_length.
Qed.

(** A command byte in the idle state. *)
Lemma idle_command (m : mouse) (b : Z) :
  expect_value_for m = None →
  on_host_to_mouse_byte m b =
    let cmd := Z.land b 0xFF in
    if cmd =? 0xFF then (mk_mouse 0x00 [] None false, [0xFA; 0xAA; 0x00])
    else if cmd =? 0xF2 then (m, [0xFA; ps2_id m])
    else if cmd =? 0xF3 then
      (mk_mouse (ps2_id m) (rate_seq m) (Some F3) (streaming_enabled m), [0xFA])
    else if cmd =? 0xE8 then
      (mk_mouse (ps2_id m) (rate_seq m) (Some E8) (streaming_enabled m), [0xFA])
    else if bool_decide (cmd ∈ [0xE6; 0xE7; 0xF0; 0xF5; 0xF6; 0xEA]) then
      (mk_mouse (ps2_id m) (rate_seq m) None
         (if cmd =? 0xF5 then false
          else if bool_decide (cmd ∈ [0xEA; 0xF4]) then true
          else streaming_enabled m), [0xFA])
    else if cmd =? 0xF4 then (mk_mouse (ps2_id m) (rate_seq m) None true, [0xFA])
    else if cmd =? 0xE9 then (m, [0xFA; 0x00; 0x00; 0x00])
    else (m, [0xFE]).
Proof. intros Hexp. unfold on_host_to_mouse_byte. now rewrite Hexp. Qed.

(** The reset byte.  In the idle state the byte [0xFF] is answered by ACK, BAT OK
    and the id 0, and puts every variable of the emulation back to its
    initial value: from then on the emulation behaves as a fresh one.  As the
    data byte of Set Sample Rate or Set Resolution the same byte is only
    ACKed: the id and the streaming flag keep their values. *)
Theorem reset_restores_initial_state :
  (∀ (m : mouse) (rest : list Z),
     expect_value_for m = None →
     host_to_mouse m (0xFF :: rest) =
       ((host_to_mouse mouse_init rest).1, [0xFA; 0xAA; 0x00] ++ (host_to_mouse mouse_init rest).2))
  ∧ (∀ (m : mouse) (e : expect),
       expect_value_for m = Some e →
       ∃ m', on_host_to_mouse_byte m 0xFF = (m', [0xFA])
             ∧ ps2_id m' = ps2_id m
             ∧ streaming_enabled m' = streaming_enabled m
             ∧ expect_value_for m' = None).
Proof.
  split.
  - intros m rest Hexp. rewrite host_to_mouse_step, (idle_command m 0xFF Hexp). reflexivity.
  - intros m e Hexp. destruct e.
    + rewrite (sample_rate_byte m 0xFF Hexp). cbv zeta. eexists. split; [reflexivity|].
      cbn [ps2_id streaming_enabled expect_value_for]. split; [|done].
      destruct (decide (_ = [200; 100; 80])) as [Heq | _]; [|reflexivity].
      exfalso. destruct (last3_snoc (rate_seq m) (Z.land 0xFF 0xFF)) as [l' Hl'].
      rewrite Hl' in Heq. change [200; 100; 80] with ([200; 100] ++ [80]) in Heq.
      apply app_inj_tail in Heq as [_ Heq]. discriminate.
    + unfold on_host_to_mouse_byte. rewrite Hexp. eexists. split; [reflexivity|]. done.
Qed.

(** Set Sample Rate with its data byte, from the idle state. *)
Lemma set_sample_rate (m : mouse) (r : Z) (rest : list Z) :
  expect_value_for m = None →
  host_to_mouse m (0xF3 :: r :: rest) =
    let seq := last3 (rate_seq m ++ [Z.land r 0xFF]) in
    let m1 := mk_mouse (if decide (seq = [200; 100; 80]) then 0x03 else ps2_id m)
                       seq None (streaming_enabled m) in
    ((host_to_mouse m1 rest).1, 0xFA :: 0xFA :: (host_to_mouse m1 rest).2).
Proof.
  intros Hexp. rewrite host_to_mouse_step, (idle_command m 0xF3 Hexp).
  cbn [fst snd Z.land Z.eqb Pos.eqb Pos.land].
  rewrite host_to_mouse_step, sample_rate_byte by done. reflexivity.
Qed.

(** The sample rates 200, 100, 80 set the id to 3 from any idle state,
    whatever rates were set before, and Get ID then answers ACK, 3.  The
    id stays 3 as long as no byte [0xFF] arrives. *)
Theorem knock_from_any_idle_state :
  (∀ m : mouse,
     expect_value_for m = None →
     host_to_mouse m [0xF3; 200; 0xF3; 100; 0xF3; 80; 0xF2] =
       (mk_mouse 0x03 [200; 100; 80] None (streaming_enabled m),
        [0xFA; 0xFA; 0xFA; 0xFA; 0xFA; 0xFA; 0xFA; 0x03]))
  ∧ (∀ (body : list Z) (m : mouse),
       ps2_id m = 0x03 →
       Forall (λ b, Z.land b 0xFF ≠ 0xFF) body →
       ps2_id (host_to_mouse m body).1 = 0x03).
Proof.
  split.
  - intros m Hexp.
    rewrite set_sample_rate by done. cbv zeta.
    set (m1 := mk_mouse _ (last3 (rate_seq m ++ [Z.land 200 255])) None _).
    rewrite (set_sample_rate m1) by done. cbv zeta.
    set (m2 := mk_mouse _ (last3 (rate_seq m1 ++ [Z.land 100 255])) None _).
    rewrite (set_sample_rate m2) by done. cbv zeta.
    assert (Hseq : last3 (rate_seq m2 ++ [Z.land 80 255]) = [200; 100; 80]).
    { unfold m2, m1. cbn [rate_seq].
      change (Z.land 200 255) with 200. change (Z.land 100 255) with 100.
      change (Z.land 80 255) with 80.
      rewrite last3_last3_app, <- app_assoc, last3_last3_app, <- app_assoc.
      apply last3_app3. }
    rewrite Hseq.
    destruct (decide ([200; 100; 80] = [200; 100; 80])) as [_ | Hne]; [|done].
    reflexivity.
  - induction body as [|b body IH]; intros m Hid Hall; [done|].
    apply Forall_cons in Hall as [Hb Hall]. rewrite host_to_mouse_cons. apply IH; [|done].
    destruct (step_id m b) as [[Hmagic _] | [Hsame | Hzero]]; [done | congruence |].
    exfalso. revert Hzero. unfold on_host_to_mouse_byte.
    destruct (expect_value_for m) as [[|]|]; cbv zeta; cbn [fst ps2_id].
    + destruct (decide (_ = [200; 100; 80])); [done | congruence].
    + congruence.
    + destruct (Z.eqb_spec (Z.land b 0xFF) 0xFF) as [? | _]; [done|].
      repeat match goal with
      | |- context [if ?c then _ else _] => destruct c
      end; cbn [fst ps2_id]; congruence.
Qed.

(** The replies are bytes, and every byte from the host is answered. *)
Lemma replies_bytes (body : list Z) :
  ∀ m : mouse,
    is_byte (ps2_id m) →
    is_byte (ps2_id (host_to_mouse m body).1)
    ∧ is_bytes (host_to_mouse m body).2
    ∧ (length body ≤ length (host_to_mouse m body).2)%nat.
Proof.
  assert (H00 : is_byte 0x00) by (unfold is_byte; lia).
  assert (H03 : is_byte 0x03) by (unfold is_byte; lia).
  assert (HFA : is_byte 0xFA) by (unfold is_byte; lia).
  assert (HAA : is_byte 0xAA) by (unfold is_byte; lia).
  assert (HFE : is_byte 0xFE) by (unfold is_byte; lia).
  induction body as [|b body IH]; intros m Hid.
  { cbn. split; [done|]. split; [constructor | lia]. }
  rewrite host_to_mouse_step. cbn [fst snd].
  assert (Hstep : is_byte (ps2_id (on_host_to_mouse_byte m b).1)
                  ∧ is_bytes (on_host_to_mouse_byte m b).2
                  ∧ (1 ≤ length (on_host_to_mouse_byte m b).2)%nat).
  { unfold on_host_to_mouse_byte, is_bytes.
    destruct (expect_value_for m) as [[|]|]; cbv zeta.
    - cbn [fst snd ps2_id length]. split; [|split; [|lia]].
      + destruct (decide (_ = [200; 100; 80])); assumption.
      + repeat (apply Forall_cons; split; [assumption|]). constructor.
    - cbn [fst snd ps2_id length]. split; [done|]. split; [|lia].
      repeat (apply Forall_cons; split; [assumption|]). constructor.
    - repeat match goal with
      | |- context [if ?c then _ else _] => destruct c
      end; cbn [fst snd ps2_id length]; (split; [assumption|]); (split; [|lia]);
        repeat (apply Forall_cons; split; [assumption|]); constructor. }
  destruct Hstep as (Hid' & Hrep & Hlen).
  destruct (IH _ Hid') as (Hid'' & Hrest & Hlen').
  split; [done|]. split; [now apply Forall_app|]. rewrite length_app. cbn [length]. lia.
Qed.

Lemma reply_writes_bytes (replies : list Z) :
  is_bytes replies →
  reply_writes replies = Done ((λ b, [0xAA; 0; 2; 0x0E; b]) <$> replies).
Proof.
  induction replies as [|b replies IH]; intros Hall; [done|].
  apply Forall_cons in Hall as [Hb Hall]. cbn [reply_writes fmap list_fmap].
  rewrite IH by done.
  unfold mouse_reply_byte, build_mouse_frame. cbv zeta.
  rewrite land_0xFF, Z.mod_small by exact Hb. reflexivity.
Qed.

Lemma dispatch_all_one (m : mouse) (f : rx_frame) :
  dispatch_all m [f] = ((dispatch m f).1, (dispatch m f).2).
Proof.
  cbn [dispatch_all]. destruct (dispatch m f) as [m' replies]. cbn [fst snd].
  now rewrite app_nil_r.
Qed.

(** A frame of type 0x06 from the host, however it is cut into reads, is
    answered on the serial port by one five-byte frame [AA 00 02 0E r] for
    each reply byte [r] of the emulation, in order, and there is at least one
    reply for each byte of the frame's body.  A frame of any other type is
    answered by nothing and leaves the emulation as it was. *)
Theorem poll_answers_host_frame (m : mouse) (t : Z) (body : list Z)
    (chunks : list (list Z)) :
  is_byte (ps2_id m) → len (t :: body) ≤ 2047 →
  chunks ≠ [] → Forall (λ data, data ≠ []) chunks →
  frame (t :: body) = Done (concat chunks) →
  ∃ r',
    poll rx_init m chunks =
      Some (Done (r',
                  (if t =? 0x06 then (host_to_mouse m body).1 else m),
                  (if t =? 0x06
                   then (λ b, [0xAA; 0; 2; 0x0E; b]) <$> (host_to_mouse m body).2
                   else [])))
    ∧ rx_buf r' = [] ∧ rx_state r' = SEEK
    ∧ (length body ≤ length (host_to_mouse m body).2)%nat.
Proof.
  intros Hid Hlen Hne Hall Henc.
  rewrite frame_fits in Henc by done. injection Henc as Henc.
  destruct (replies_bytes body m Hid) as (_ & Hbytes & Hcount).
  eexists. split; [|split; [|split]]; [| | |exact Hcount].
  - unfold poll.
    rewrite (feed_chunks_complete chunks rx_init t body Hlen Hne Hall eq_refl)
      by (cbn [rx_buf rx_init app]; now rewrite <- Henc).
    rewrite dispatch_all_one. unfold dispatch.
    destruct (t =? 0x06).
    + rewrite reply_writes_bytes by done. reflexivity.
    + reflexivity.
  - reflexivity.
  - reflexivity.
Qed.

(** Get ID after the knock, delivered in two polls. *)
Lemma poll_answers_host_frame_witness :
  ∃ r',
    poll rx_init (mk_mouse 0x03 [200; 100; 80] None false) [[0xAA; 0]; [2; 0x06; 0xF2]]
      = Some (Done (r', mk_mouse 0x03 [200; 100; 80] None false,
                    [[0xAA; 0; 2; 0x0E; 0xFA]; [0xAA; 0; 2; 0x0E; 0x03]])).
Proof.
  destruct (poll_answers_host_frame (mk_mouse 0x03 [200; 100; 80] None false) 0x06 [0xF2]
              [[0xAA; 0]; [2; 0x06; 0xF2]]) as (r' & Hpoll & _).
  - unfold is_byte. cbn. lia.
  - vm_compute. discriminate.
  - discriminate.
  - repeat constructor; discriminate.
  - reflexivity.
  - exists r'. exact Hpoll.
Defined.

(** *** The packet as the host decodes it *)

(** Whatever the three integers, the packet is three bytes; bits 0 to 2 of
    the status byte are those of [buttons] and nothing else of [buttons]
    matters; and each movement byte with its sign bit from the status byte,
    read as a 9-bit two's complement number, is the clamped movement: [dx]
    for X, [-dy] for Y. *)
Theorem ps2_mouse_packet_decodes (dx dy buttons : Z) :
  ∃ status bx by',
    ps2_mouse_packet dx dy buttons = [status; bx; by']
    ∧ is_byte status ∧ is_byte bx ∧ is_byte by'
    ∧ Z.testbit status 3 = true
    ∧ Z.testbit status 0 = Z.testbit buttons 0
    ∧ Z.testbit status 1 = Z.testbit buttons 1
    ∧ Z.testbit status 2 = Z.testbit buttons 2
    ∧ bx - 256 * Z.b2z (Z.testbit status 4) = clamp8 dx
    ∧ by' - 256 * Z.b2z (Z.testbit status 5) = clamp8 (- dy)
    ∧ ps2_mouse_packet dx dy (Z.land buttons 7) = [status; bx; by'].
Proof.
  rewrite !ps2_mouse_packet_bytes.
  pose proof (status_of_bits (Z.testbit buttons 0) (Z.testbit buttons 1)
                (Z.testbit buttons 2) (dx <? 0) (0 <? dy) ((dx <? -128) || (127 <? dx))
                ((dy <? -128) || (127 <? dy))) as Hbits.
  cbv zeta in Hbits. destruct Hbits as (Hbyte & H0 & H1 & H2 & H3 & H4 & H5 & _ & _).
  do 3 eexists. split; [reflexivity|]. split; [exact Hbyte|].
  assert (Hx : is_byte (Z.land (clamp8 dx) 0xFF))
    by (rewrite land_0xFF; apply Z.mod_pos_bound; lia).
  assert (Hy : is_byte (Z.land (clamp8 (- dy)) 0xFF))
    by (rewrite land_0xFF; apply Z.mod_pos_bound; lia).
  repeat (split; [done|]). rewrite H4, H5. split; [|split].
  - rewrite land_0xFF. pose proof (clamp8_range dx) as Hr.
    destruct (Z.ltb_spec dx 0) as [Hneg | Hpos]; cbn [Z.b2z].
    + assert (clamp8 dx < 0) by (unfold clamp8; lia).
      rewrite <- (Z.mod_add _ 1 256), Z.mod_small by lia. lia.
    + assert (0 ≤ clamp8 dx) by (unfold clamp8; lia). rewrite Z.mod_small by lia. lia.
  - rewrite land_0xFF. pose proof (clamp8_range (- dy)) as Hr.
    destruct (Z.ltb_spec 0 dy) as [Hneg | Hpos]; cbn [Z.b2z].
    + assert (clamp8 (- dy) < 0) by (unfold clamp8; lia).
      rewrite <- (Z.mod_add _ 1 256), Z.mod_small by lia. lia.
    + assert (0 ≤ clamp8 (- dy)) by (unfold clamp8; lia). rewrite Z.mod_small by lia. lia.
  - assert (Hmask : ∀ k, 0 ≤ k < 3 → Z.testbit (Z.land buttons 7) k = Z.testbit buttons k).
    { intros k Hk. change 7 with (Z.ones 3).
      rewrite Z.land_spec, Z.testbit_ones_nonneg by lia.
      destruct (Z.ltb_spec k 3); [apply andb_true_r | lia]. }
    rewrite !Hmask by lia. reflexivity.
Qed.

End EmulatorProofs.

(** ** The event loop *)

Module InteractiveProofs.
Import Frame FrameProofs Keyboard KeyboardProofs Mouse MouseProofs Interactive.

(** No key of the table sends more than eight bytes. *)
Lemma KEYMAP_short (k : string) (v : keyval) (pressed : bool) :
  KEYMAP !! k = Some v → len (key_bytes v pressed) ≤ 8.
Proof.
  intros Hk. apply KEYMAP_lookup in Hk.
  assert (Hall : forallb (λ kv : string * keyval,
            (len (key_bytes kv.2 true) <=? 8) && (len (key_bytes kv.2 false) <=? 8))
            KEYMAP_items = true) by (vm_compute; reflexivity).
  rewrite forallb_forall in Hall. apply list_elem_of_In in Hk.
  specialize (Hall _ Hk). cbn [snd] in Hall.
  apply andb_true_iff in Hall as [Hmk Hbrk]. apply Z.leb_le in Hmk, Hbrk.
  now destruct pressed.
Qed.

Lemma one_key (str_lower : string → string) (name : string) (v : keyval) (pressed : bool) :
  KEYMAP !! str_lower name = Some v →
  expand_keys_to_scancodes str_lower [name] pressed = Done (key_bytes v pressed).
Proof.
  intros Hk. rewrite (expand_keys_known str_lower [name] [v]) by (now repeat constructor).
  cbn. now rewrite app_nil_r.
Qed.

Lemma send_sc_short (sc : list Z) :
  len sc ≤ 8 → send_sc sc = Done [[0xAA; 0; 1 + len sc; 0x0C] ++ sc].
Proof.
  intros Hlen. pose proof (len_nonneg sc) as Hnn.
  unfold send_sc, build_scancode_frame. cbv zeta.
  rewrite frame_fits
    by (rewrite len_app; change (len [CMD_PS2_SCANCODE]) with 1; lia).
  cbn [obind].
  destruct (be16_bytes (len ([CMD_PS2_SCANCODE] ++ sc))) as [-> ->].
  { rewrite len_app. change (len [CMD_PS2_SCANCODE]) with 1. lia. }
  rewrite len_app. change (len [CMD_PS2_SCANCODE]) with 1.
  rewrite Z.div_small, Z.mod_small by lia. reflexivity.
Qed.

Lemma send_mouse_packet (dx dy buttons : Z) :
  ∃ status bx by',
    ps2_mouse_packet dx dy buttons = [status; bx; by']
    ∧ send_mouse (ps2_mouse_packet dx dy buttons) = Done [[0xAA; 0; 4; 0x0E; status; bx; by']]
    ∧ is_byte status ∧ is_byte bx ∧ is_byte by' ∧ Z.testbit status 3 = true.
Proof.
  rewrite ps2_mouse_packet_bytes.
  pose proof (status_of_bits (Z.testbit buttons 0) (Z.testbit buttons 1)
                (Z.testbit buttons 2) (dx <? 0) (0 <? dy) ((dx <? -128) || (127 <? dx))
                ((dy <? -128) || (127 <? dy))) as Hbits.
  cbv zeta in Hbits. destruct Hbits as (Hbyte & _ & _ & _ & H3 & _).
  do 3 eexists. split; [reflexivity|]. split; [reflexivity|].
  split; [exact Hbyte|].
  split; [rewrite land_0xFF; apply Z.mod_pos_bound; lia|].
  split; [rewrite land_0xFF; apply Z.mod_pos_bound; lia|]. exact H3.
Qed.

(** Setting or clearing one of the three button bits keeps the mask within
    three bits. *)
Lemma buttons_range (x : Z) :
  0 ≤ x ≤ 7 →
  0 ≤ Z.lor x 0x1 ≤ 7 ∧ 0 ≤ Z.lor x 0x2 ≤ 7 ∧ 0 ≤ Z.lor x 0x4 ≤ 7
  ∧ 0 ≤ Z.land x (Z.lnot 0x1) ≤ 7 ∧ 0 ≤ Z.land x (Z.lnot 0x2) ≤ 7
  ∧ 0 ≤ Z.land x (Z.lnot 0x4) ≤ 7.
Proof.
  intros Hx.
  assert (Hcases : x = 0 ∨ x = 1 ∨ x = 2 ∨ x = 3 ∨ x = 4 ∨ x = 5 ∨ x = 6 ∨ x = 7) by lia.
  destruct Hcases as [-> | [-> | [-> | [-> | [-> | [-> | [-> | ->]]]]]]];
    vm_compute; repeat split; discriminate.
Qed.

Lemma dict_get_elem (items : list (Z * string)) (k : Z) (v : string) :
  dict_get items k = Some v → v ∈ items.*2.
Proof.
  induction items as [|[k' v'] items IH]; [done|]. cbn [dict_get fmap list_fmap snd].
  destruct (dict_get items k) as [w|].
  - intros [= ->]. apply elem_of_cons. right. now apply IH.
  - destruct (k' =? k); [|done]. intros [= ->]. apply elem_of_cons. now left.
Qed.

Section LoopProofs.

Variable str_lower : string → string.
Variable chr : Z → outcome string.
Variable pygame : string → Z.
Variable pygame_has : string → bool.

Local Abbreviation handle_event' := (handle_event str_lower chr pygame pygame_has).
Local Abbreviation handle_events' := (handle_events str_lower chr pygame pygame_has).
Local Abbreviation key_name := (pygame_key_to_name chr pygame pygame_has).

(** The key codes that keep the two [chr] calls on letters and digits. *)
Local Abbreviation ascii_keys :=
  ((∀ n, 0 ≤ n < 128 →
      chr n = Done (String (Ascii.ascii_of_nat (Z.to_nat n)) EmptyString))
   ∧ pygame "K_z"%string - pygame "K_a"%string ≤ 25
   ∧ 48 ≤ pygame "K_0"%string ∧ pygame "K_9"%string ≤ 57).

Lemma mapping_names :
  (mapping pygame pygame_has).*2 =
  [ "enter"; "esc"; "backspace"; "tab"; "space"; "leftshift"; "rightshift"; "leftctrl"; "rightctrl"; "leftalt"; "rightalt"; "capslock"; "numlock"; "scrolllock"; "up"; "down"; "left"; "right"; "f1"; "f2"; "f3"; "f4"; "f5"; "f6"; "f7"; "f8"; "f9"; "f10"; "f11"; "f12"; "backquote"; "minus"; "equals"; "leftbracket"; "rightbracket"; "backslash"; "semicolon"; "quote"; "comma"; "period"; "slash"; "insert"; "home"; "pageup"; "delete"; "end"; "pagedown"; "printscreen"; "pause"; "kp_divide"; "kp_multiply"; "kp_minus"; "kp_plus"; "kp_enter"; "kp_equals"; "kp_period"; "kp_0"; "kp_1"; "kp_2"; "kp_3"; "kp_4"; "kp_5"; "kp_6"; "kp_7"; "kp_8"; "kp_9" ]%string.
Proof. reflexivity. Qed.

(** With such key codes [pygame_key_to_name] does not raise, and a name it
    returns is a key of the scancode table. *)
Lemma key_names_known (k : Z) :
  ascii_keys →
  ∃ r, key_name k = Done r ∧ ∀ name, r = Some name → is_Some (KEYMAP !! name).
Proof.
  intros (Hchr & Hletters & H0 & H9). unfold pygame_key_to_name.
  assert (Hchars : ∀ n, (97 ≤ n < 123 ∨ 48 ≤ n < 58) →
            is_Some (KEYMAP !! String (Ascii.ascii_of_nat (Z.to_nat n)) EmptyString)).
  { intros n Hn.
    assert (Hall : forallb (λ n, bool_decide
                     (is_Some (KEYMAP !! String (Ascii.ascii_of_nat (Z.to_nat n)) EmptyString)))
                     (seqZ 97 26 ++ seqZ 48 10) = true) by (vm_compute; reflexivity).
    rewrite forallb_forall in Hall. eapply bool_decide_eq_true_1, (Hall n).
    apply list_elem_of_In, elem_of_app. rewrite !elem_of_seqZ. lia. }
  destruct ((pygame "K_a"%string <=? k) && (k <=? pygame "K_z"%string)) eqn:Hletter.
  - apply andb_prop in Hletter as [Hlo%Z.leb_le Hhi%Z.leb_le].
    rewrite Hchr by lia. cbn [obind]. eexists. split; [reflexivity|].
    intros name [= <-]. apply Hchars. lia.
  - destruct ((pygame "K_0"%string <=? k) && (k <=? pygame "K_9"%string)) eqn:Hdigit.
    + apply andb_prop in Hdigit as [Hlo%Z.leb_le Hhi%Z.leb_le].
      rewrite Hchr by lia. cbn [obind]. eexists. split; [reflexivity|].
      intros name [= <-]. apply Hchars. lia.
    + eexists. split; [reflexivity|].
      intros name Hname. apply dict_get_elem in Hname. rewrite mapping_names in Hname.
      assert (Hall : forallb (λ name, bool_decide (is_Some (KEYMAP !! name)))
  [ "enter"; "esc"; "backspace"; "tab"; "space"; "leftshift"; "rightshift"; "leftctrl"; "rightctrl"; "leftalt"; "rightalt"; "capslock"; "numlock"; "scrolllock"; "up"; "down"; "left"; "right"; "f1"; "f2"; "f3"; "f4"; "f5"; "f6"; "f7"; "f8"; "f9"; "f10"; "f11"; "f12"; "backquote"; "minus"; "equals"; "leftbracket"; "rightbracket"; "backslash"; "semicolon"; "quote"; "comma"; "period"; "slash"; "insert"; "home"; "pageup"; "delete"; "end"; "pagedown"; "printscreen"; "pause"; "kp_divide"; "kp_multiply"; "kp_minus"; "kp_plus"; "kp_enter"; "kp_equals"; "kp_period"; "kp_0"; "kp_1"; "kp_2"; "kp_3"; "kp_4"; "kp_5"; "kp_6"; "kp_7"; "kp_8"; "kp_9" ]%string
                     = true) by (vm_compute; reflexivity).
      rewrite forallb_forall in Hall. eapply bool_decide_eq_true_1, (Hall name).
      now apply list_elem_of_In.
Qed.

Lemma handle_event_safe (s : ui) (ev : event) :
  ascii_keys → (∀ k v, KEYMAP !! k = Some v → str_lower k = k) →
  0 ≤ buttons s ≤ 7 →
  ∃ s' w,
    handle_event' s ev = Done (s', w)
    ∧ 0 ≤ buttons s' ≤ 7
    ∧ Forall (λ d, mouse_frame_of d ∨ scancode_frame_of d) w
    ∧ (length w ≤ 1)%nat.
Proof.
  intros Hkeys Hlower Hb.
  destruct (buttons_range (buttons s) Hb) as (H1 & H2 & H4 & H1' & H2' & H4').
  assert (Hmouse : ∀ dx dy b s', 0 ≤ buttons s' ≤ 7 →
    ∃ s'' w, (w ←! send_mouse (ps2_mouse_packet dx dy b); Done (s', w)) = Done (s'', w)
             ∧ 0 ≤ buttons s'' ≤ 7
             ∧ Forall (λ d, mouse_frame_of d ∨ scancode_frame_of d) w
             ∧ (length w ≤ 1)%nat).
  { intros dx dy b s' Hs'.
    destruct (send_mouse_packet dx dy b) as (st & bx & by' & _ & -> & Hst & Hbx & Hby & Hsync).
    cbn [obind]. do 2 eexists. split; [reflexivity|]. split; [done|]. split; [|cbn; lia].
    constructor; [|constructor]. left. exists st, bx, by'. done. }
  assert (Hkey : ∀ down key mod_,
    ∃ s' w, handle_key str_lower chr pygame pygame_has s down key mod_ = Done (s', w)
            ∧ 0 ≤ buttons s' ≤ 7
            ∧ Forall (λ d, mouse_frame_of d ∨ scancode_frame_of d) w
            ∧ (length w ≤ 1)%nat).
  { intros down key mod_. unfold handle_key. cbv zeta.
    destruct (key_names_known key Hkeys) as (r & -> & Hr). cbn [obind].
    destruct (down && (key =? pygame "K_ESCAPE"%string)
              && negb (Z.land mod_ (pygame "KMOD_GUI"%string) =? 0)).
    { do 2 eexists. split; [reflexivity|]. cbn. split; [done|]. split; [constructor | lia]. }
    destruct r as [name|].
    2:{ do 2 eexists. split; [reflexivity|]. cbn. split; [done|]. split; [constructor | lia]. }
    destruct (Hr name eq_refl) as [v Hv].
    assert (Hv' : KEYMAP !! str_lower name = Some v) by now rewrite (Hlower name v).
    rewrite (one_key str_lower name v down Hv'). cbn [obind].
    pose proof (KEYMAP_short _ v down Hv) as Hshort.
    rewrite send_sc_short by done. cbn [obind].
    do 2 eexists. split; [reflexivity|]. split; [done|]. split; [|cbn; lia].
    constructor; [|constructor]. right. exists (key_bytes v down).
    split; [done|]. split; [|done]. now apply (KEYMAP_bytes name). }
  destruct ev as [|b|b|[dx dy]|key mod_|key mod_|]; cbn [handle_event].
  - do 2 eexists. split; [reflexivity|]. cbn. split; [done|]. split; [constructor | lia].
  - destruct (captured s); cbn [negb].
    + cbv zeta.
      destruct (b =? 1); [apply Hmouse; exact H1|].
      destruct (b =? 3); [apply Hmouse; exact H2|].
      destruct (b =? 2); [apply Hmouse; exact H4|].
      apply Hmouse; exact Hb.
    + do 2 eexists. split; [reflexivity|]. cbn. split; [done|]. split; [constructor | lia].
  - destruct (captured s).
    + cbv zeta.
      destruct (b =? 1); [apply Hmouse; exact H1'|].
      destruct (b =? 3); [apply Hmouse; exact H2'|].
      destruct (b =? 2); [apply Hmouse; exact H4'|].
      apply Hmouse; exact Hb.
    + do 2 eexists. split; [reflexivity|]. cbn. split; [done|]. split; [constructor | lia].
  - destruct (captured s).
    + cbv zeta. apply Hmouse; exact Hb.
    + do 2 eexists. split; [reflexivity|]. cbn. split; [done|]. split; [constructor | lia].
  - apply Hkey.
  - apply Hkey.
  - do 2 eexists. split; [reflexivity|]. cbn. split; [done|]. split; [constructor | lia].
Qed.

End LoopProofs.

(** The scancode table's keys are in lower case, and [ascii_chr] is [chr]
    on the ASCII range. *)
Lemma ascii_lower_keys (k : string) (v : keyval) :
  KEYMAP !! k = Some v → ascii_lower k = k.
Proof.
  intros Hk. apply KEYMAP_lookup in Hk.
  assert (Hall : forallb (λ kv : string * keyval, bool_decide (ascii_lower kv.1 = kv.1))
                   KEYMAP_items = true) by (vm_compute; reflexivity).
  rewrite forallb_forall in Hall. apply list_elem_of_In in Hk.
  specialize (Hall _ Hk). now apply bool_decide_eq_true in Hall.
Qed.

Lemma ascii_chr_spec (n : Z) :
  0 ≤ n < 128 → ascii_chr n = Done (String (Ascii.ascii_of_nat (Z.to_nat n)) EmptyString).
Proof.
  intros Hn. unfold ascii_chr.
  destruct (Z.leb_spec 0 n); [|lia]. destruct (Z.ltb_spec n 128); [reflexivity | lia].
Qed.

(** [pygame_key_to_name] and the scancode table agree.  When pygame's key
    codes for the letters span at most 26 values and those for the digits lie
    within the ASCII digits, as they do in pygame, the function returns for
    every key code without raising, and every name it returns is a key of
    [KEYMAP]: a letter, a digit, or one of the 66 names of [mapping]. *)
Theorem key_names_are_scancode_keys (chr : Z → outcome string) (pygame : string → Z)
    (pygame_has : string → bool) (k : Z) :
  (∀ n, 0 ≤ n < 128 →
     chr n = Done (String (Ascii.ascii_of_nat (Z.to_nat n)) EmptyString)) →
  pygame "K_z"%string - pygame "K_a"%string ≤ 25 →
  48 ≤ pygame "K_0"%string → pygame "K_9"%string ≤ 57 →
  ∃ r, pygame_key_to_name chr pygame pygame_has k = Done r
       ∧ ∀ name, r = Some name → is_Some (KEYMAP !! name).
Proof. intros Hchr Hl H0 H9. now apply key_names_known. Qed.

(** The key codes of pygame 2: the letter q, F1, and a key without a name
    (the left GUI key). *)
Lemma key_names_are_scancode_keys_witness :
  pygame_key_to_name ascii_chr sdl2 sdl2_has 113 = Done (Some "q"%string)
  ∧ pygame_key_to_name ascii_chr sdl2 sdl2_has 1073741882 = Done (Some "f1"%string)
  ∧ pygame_key_to_name ascii_chr sdl2 sdl2_has 1073742051 = Done None
  ∧ ∃ r, pygame_key_to_name ascii_chr sdl2 sdl2_has 27 = Done r
         ∧ ∀ name, r = Some name → is_Some (KEYMAP !! name).
Proof.
  split; [vm_compute; reflexivity|]. split; [vm_compute; reflexivity|].
  split; [vm_compute; reflexivity|].
  apply (key_names_are_scancode_keys ascii_chr sdl2 sdl2_has 27).
  - exact ascii_chr_spec.
  - vm_compute. discriminate.
  - vm_compute. discriminate.
  - vm_compute. discriminate.
Defined.

(** The event loop cannot fail on its events.  With key codes as above and
    a [str.lower] that leaves the keys of the scancode table as they are,
    whatever the events, no exception is raised, the button mask stays
    within its three bits, each event writes at most one frame, and every
    frame written is a well-formed mouse frame (seven bytes, sync bit set) or
    scancode frame (at most eight scancode bytes). *)
Theorem event_loop_safe (str_lower : string → string) (chr : Z → outcome string)
    (pygame : string → Z) (pygame_has : string → bool) (evs : list event) (s : ui) :
  (∀ n, 0 ≤ n < 128 →
     chr n = Done (String (Ascii.ascii_of_nat (Z.to_nat n)) EmptyString)) →
  pygame "K_z"%string - pygame "K_a"%string ≤ 25 →
  48 ≤ pygame "K_0"%string → pygame "K_9"%string ≤ 57 →
  (∀ k v, KEYMAP !! k = Some v → str_lower k = k) →
  0 ≤ buttons s ≤ 7 →
  ∃ s' w,
    handle_events str_lower chr pygame pygame_has s evs = Done (s', w)
    ∧ 0 ≤ buttons s' ≤ 7
    ∧ Forall (λ d, mouse_frame_of d ∨ scancode_frame_of d) w
    ∧ (length w ≤ length evs)%nat.
Proof.
  intros Hchr Hl H0 H9 Hlower. revert s. induction evs as [|ev evs IH]; intros s Hb.
  - do 2 eexists. split; [reflexivity|]. cbn. split; [done|]. split; [constructor | lia].
  - cbn [handle_events].
    destruct (handle_event_safe str_lower chr pygame pygame_has s ev) as
      (s1 & w1 & -> & Hb1 & Hw1 & Hl1); [done.. |].
    cbn [obind]. destruct (IH s1 Hb1) as (s2 & w2 & -> & Hb2 & Hw2 & Hl2). cbn [obind].
    do 2 eexists. split; [reflexivity|]. split; [done|].
    split; [now apply Forall_app|]. rewrite length_app. cbn [length]. lia.
Qed.

(** With the key codes of pygame 2: a click that captures, a press of the
    left button, a movement, and the letter a. *)
Lemma event_loop_safe_witness :
  ∃ s' w,
    handle_events ascii_lower ascii_chr sdl2 sdl2_has ui_init
        [MOUSEBUTTONDOWN 1; MOUSEBUTTONDOWN 1; MOUSEMOTION (3, -2); KEYDOWN 97 0]
      = Done (s', w)
    ∧ 0 ≤ buttons s' ≤ 7
    ∧ Forall (λ d, mouse_frame_of d ∨ scancode_frame_of d) w
    ∧ (length w ≤ 4)%nat.
Proof.
  apply (event_loop_safe ascii_lower ascii_chr sdl2 sdl2_has).
  - exact ascii_chr_spec.
  - vm_compute. discriminate.
  - vm_compute. discriminate.
  - vm_compute. discriminate.
  - exact ascii_lower_keys.
  - cbn. lia.
Defined.

(** The mouse is forwarded only while it is captured.  Until then movement
    and button releases write nothing and change nothing; the click that
    captures the mouse is not forwarded either, and does not set its button;
    and the release of that click is forwarded, as a packet with no button
    down. *)
Theorem mouse_needs_capture (str_lower : string → string) (chr : Z → outcome string)
    (pygame : string → Z) (pygame_has : string → bool) (s : ui) :
  captured s = false →
  (∀ evs,
     Forall (λ ev, match ev with
                   | MOUSEMOTION _ | MOUSEBUTTONUP _ | OTHER => True
                   | _ => False
                   end) evs →
     handle_events str_lower chr pygame pygame_has s evs = Done (s, []))
  ∧ (∀ b, handle_event str_lower chr pygame pygame_has s (MOUSEBUTTONDOWN b)
          = Done ({| captured := true; buttons := buttons s; running := running s |}, []))
  ∧ (∀ b,
       buttons s = 0 →
       handle_events str_lower chr pygame pygame_has s
           [MOUSEBUTTONDOWN b; MOUSEBUTTONUP b]
         = Done ({| captured := true; buttons := 0; running := running s |},
                 [[0xAA; 0; 4; 0x0E; 0x08; 0; 0]])).
Proof.
  intros Hcap. split; [|split].
  - induction 1 as [|ev evs Hev _ IH]; [reflexivity|].
    cbn [handle_events].
    destruct ev as [|b|b|[dx dy]|key mod_|key mod_|]; try done;
      cbn [handle_event]; rewrite ?Hcap; cbn [obind]; rewrite IH; reflexivity.
  - intros b. cbn [handle_event]. rewrite Hcap. reflexivity.
  - intros b Hzero. cbn [handle_events handle_event]. rewrite Hcap.
    cbn [negb obind set_capture captured buttons running]. rewrite Hzero. cbv zeta.
    assert (Hclear : (if b =? 1 then Z.land 0 (Z.lnot 1)
                      else if b =? 3 then Z.land 0 (Z.lnot 2)
                      else if b =? 2 then Z.land 0 (Z.lnot 4) else 0) = 0)
      by (destruct (b =? 1), (b =? 3), (b =? 2); reflexivity).
    rewrite Hclear. reflexivity.
Qed.

(** The fresh state: movement before any click, then a click on the window
    and its release. *)
Lemma mouse_needs_capture_witness :
  handle_events ascii_lower ascii_chr sdl2 sdl2_has ui_init
      [MOUSEMOTION (5, 5); MOUSEBUTTONUP 1]
    = Done (ui_init, [])
  ∧ handle_events ascii_lower ascii_chr sdl2 sdl2_has ui_init
        [MOUSEBUTTONDOWN 1; MOUSEBUTTONUP 1]
      = Done ({| captured := true; buttons := 0; running := true |},
              [[0xAA; 0; 4; 0x0E; 0x08; 0; 0]]).
Proof.
  destruct (mouse_needs_capture ascii_lower ascii_chr sdl2 sdl2_has ui_init eq_refl)
    as (Hquiet & _ & Hclick).
  split.
  - apply Hquiet. repeat constructor.
  - apply Hclick. reflexivity.
Defined.

(** GUI + Escape.  A press of Escape while a GUI modifier is held releases
    the mouse and sends nothing; the release of the same key is sent as the
    break code of Escape, so the machine sees a release without a press. *)
Theorem gui_escape_releases_capture (str_lower : string → string)
    (chr : Z → outcome string) (pygame : string → Z) (pygame_has : string → bool)
    (s : ui) (mod_ : Z) :
  pygame_key_to_name chr pygame pygame_has (pygame "K_ESCAPE"%string)
    = Done (Some "esc"%string) →
  str_lower "esc"%string = "esc"%string →
  Z.land mod_ (pygame "KMOD_GUI"%string) ≠ 0 →
  handle_event str_lower chr pygame pygame_has s (KEYDOWN (pygame "K_ESCAPE"%string) mod_)
    = Done ({| captured := false; buttons := buttons s; running := running s |}, [])
  ∧ handle_event str_lower chr pygame pygame_has s (KEYUP (pygame "K_ESCAPE"%string) mod_)
    = Done (s, [[0xAA; 0; 3; 0x0C; 0xF0; 0x76]])
  ∧ ∀ mod', Z.land mod' (pygame "KMOD_GUI"%string) = 0 →
      handle_event str_lower chr pygame pygame_has s
          (KEYDOWN (pygame "K_ESCAPE"%string) mod')
        = Done (s, [[0xAA; 0; 2; 0x0C; 0x76]]).
Proof.
  intros Hname Hlower Hgui. split; [|split].
  - cbn [handle_event]. unfold handle_key. rewrite Hname. cbn [obind]. rewrite Z.eqb_refl.
    destruct (Z.eqb_spec (Z.land mod_ (pygame "KMOD_GUI"%string)) 0) as [? | _]; [done|].
    reflexivity.
  - cbn [handle_event]. unfold handle_key. rewrite Hname. cbn [obind andb]. cbv zeta.
    rewrite (one_key str_lower "esc" (KList [0x76]) false)
      by (rewrite Hlower; vm_compute; reflexivity).
    reflexivity.
  - intros mod' Hmod. cbn [handle_event]. unfold handle_key. rewrite Hname. cbn [obind].
    rewrite Z.eqb_refl, Hmod. cbn [andb negb Z.eqb]. cbv zeta.
    rewrite (one_key str_lower "esc" (KList [0x76]) true)
      by (rewrite Hlower; vm_compute; reflexivity).
    reflexivity.
Qed.

(** The key codes of pygame 2, with the left GUI key (modifier 1024) held. *)
Lemma gui_escape_releases_capture_witness :
  handle_event ascii_lower ascii_chr sdl2 sdl2_has
      {| captured := true; buttons := 0; running := true |} (KEYDOWN 27 1024)
    = Done ({| captured := false; buttons := 0; running := true |}, [])
  ∧ handle_event ascii_lower ascii_chr sdl2 sdl2_has
        {| captured := true; buttons := 0; running := true |} (KEYUP 27 1024)
      = Done ({| captured := true; buttons := 0; running := true |},
              [[0xAA; 0; 3; 0x0C; 0xF0; 0x76]]).
Proof.
  destruct (gui_escape_releases_capture ascii_lower ascii_chr sdl2 sdl2_has
              {| captured := true; buttons := 0; running := true |} 1024)
    as (Hdown & Hup & _).
  - vm_compute. reflexivity.
  - reflexivity.
  - vm_compute. discriminate.
  - split; [exact Hdown | exact Hup].
Defined.

End InteractiveProofs.

(** ** The command line *)

Module CliProofs.
Import Frame FrameProofs Keyboard KeyboardProofs Cli.

Lemma parse_hex_loop_done (int16 : string → outcome Z) (args : list string) (vals : list Z) :
  Forall2 (λ a v, int16 a = Done v) args vals →
  ∀ out, parse_hex_loop int16 args out = Done (out ++ ((λ v, v `mod` 256) <$> vals)).
Proof.
  induction 1 as [|a v args vals Ha _ IH]; intros out.
  - cbn. now rewrite app_nil_r.
  - cbn [parse_hex_loop]. rewrite Ha. cbn [obind]. rewrite IH, land_0xFF.
    cbn. now rewrite <- app_assoc.
Qed.

Lemma parse_hex_loop_raised (int16 : string → outcome Z) (known : list string) (a : string)
    (rest : list string) (e : exn) :
  Forall (λ x, ∃ v, int16 x = Done v) known → int16 a = Raised e →
  ∀ out, parse_hex_loop int16 (known ++ a :: rest) out = Raised e.
Proof.
  intros Hknown Ha. induction Hknown as [|x known [v Hv] _ IH]; intros out.
  - cbn [app parse_hex_loop]. now rewrite Ha.
  - cbn [app parse_hex_loop]. rewrite Hv. cbn [obind]. apply IH.
Qed.

Lemma mod_256_bytes (vals : list Z) : is_bytes ((λ v, v `mod` 256) <$> vals).
Proof.
  apply Forall_fmap, Forall_forall. intros v _. cbn. apply Z.mod_pos_bound. lia.
Qed.

(** [parse_hex_bytes], for any parsing function standing for [int(a, 16)].
    When every argument parses, the result has one byte per argument, the
    value of the argument reduced modulo 256: a value above 255 or below 0 is
    wrapped, not refused.  When an argument does not parse, the exception of
    the first such argument is raised and no bytes are returned. *)
Theorem parse_hex_bytes_wraps (int16 : string → outcome Z) (args : list string) :
  (∀ vals,
     Forall2 (λ a v, int16 a = Done v) args vals →
     parse_hex_bytes int16 args = Done ((λ v, v `mod` 256) <$> vals)
     ∧ is_bytes ((λ v, v `mod` 256) <$> vals)
     ∧ length ((λ v, v `mod` 256) <$> vals) = length args)
  ∧ (∀ known a rest e,
       args = known ++ a :: rest →
       Forall (λ x, ∃ v, int16 x = Done v) known →
       int16 a = Raised e →
       parse_hex_bytes int16 args = Raised e).
Proof.
  split.
  - intros vals Hvals. split; [|split].
    + unfold parse_hex_bytes. rewrite (parse_hex_loop_done int16 args vals Hvals).
      cbn [obind app]. apply to_bytes_ok, mod_256_bytes.
    + apply mod_256_bytes.
    + rewrite length_fmap. symmetry. exact (Forall2_length _ _ _ Hvals).
  - intros known a rest e -> Hknown Ha. unfold parse_hex_bytes.
    now rewrite (parse_hex_loop_raised int16 known a rest e).
Qed.

(** Hexadecimal arguments with a prefix, above 255 and below 0; and an
    argument that is not a number. *)
Lemma parse_hex_bytes_example :
  parse_hex_bytes (ascii_int 16) ["1c"; "0xF0"; "1ff"; "-1"]%string
    = Done [0x1C; 0xF0; 0xFF; 0xFF]
  ∧ parse_hex_bytes (ascii_int 16) ["1c"; "zz"; "2"]%string
    = Raised (ValueError "invalid literal for int()").
Proof. split; vm_compute; reflexivity. Qed.

Section MainProofs.

Variable str_lower : string → string.
Variable int16 : string → outcome Z.
Variable int10 : string → outcome Z.
Variable auto_detect_port : option string.

Local Abbreviation main' := (main str_lower int16 int10 auto_detect_port).
Local Abbreviation with_defaults' := (with_defaults str_lower int16 auto_detect_port).
Local Abbreviation execute_mode' := (execute_mode str_lower int16).

Lemma to_bytes_done (out sc : list Z) : to_bytes out = Done sc → sc = out ∧ is_bytes sc.
Proof.
  unfold to_bytes. destruct (forallb is_byteb out) eqn:Hall; [|done].
  intros [= <-]. split; [done|]. now apply forallb_is_bytes.
Qed.

Lemma expand_keys_bytes (names : list string) (pressed : bool) (sc : list Z) :
  expand_keys_to_scancodes str_lower names pressed = Done sc → is_bytes sc.
Proof.
  unfold expand_keys_to_scancodes.
  destruct (expand_loop str_lower names pressed []) as [out|]; [|done]. cbn [obind].
  intros Hsc. now apply to_bytes_done in Hsc as [_ ?].
Qed.

Lemma parse_hex_bytes_bytes (args : list string) (sc : list Z) :
  parse_hex_bytes int16 args = Done sc → is_bytes sc.
Proof.
  unfold parse_hex_bytes.
  destruct (parse_hex_loop int16 args []) as [out|]; [|done]. cbn [obind].
  intros Hsc. now apply to_bytes_done in Hsc as [_ ?].
Qed.

Lemma execute_mode_send (port : string) (baud : Z) (mode : string) (tail : list string)
    (p : string) (b : Z) (data : list Z) :
  execute_mode' port baud mode tail = Done (Send p b data) →
  p = port ∧ b = baud ∧ ∃ sc, is_bytes sc ∧ build_scancode_frame sc = Done data.
Proof.
  unfold execute_mode.
  destruct (decide (mode = "hex"%string)) as [_ | _].
  { destruct (parse_hex_bytes int16 tail) as [sc|] eqn:Hsc; [|done]. cbn [obind].
    destruct (build_scancode_frame sc) as [d|] eqn:Hd; [|done]. cbn [obind].
    intros [= <- <- <-]. split; [done|]. split; [done|]. exists sc.
    split; [|done]. now apply (parse_hex_bytes_bytes tail). }
  destruct (decide (mode = "keys"%string)) as [_ | _].
  { destruct (expand_keys_to_scancodes str_lower tail true) as [sc|] eqn:Hsc; [|done].
    cbn [obind]. destruct (build_scancode_frame sc) as [d|] eqn:Hd; [|done]. cbn [obind].
    intros [= <- <- <-]. split; [done|]. split; [done|]. exists sc.
    split; [|done]. now apply (expand_keys_bytes tail true). }
  destruct (decide (mode = "key"%string)) as [_ | _].
  { destruct tail as [|name [|act [|? ?]]]; try done. cbv zeta.
    destruct (bool_decide (str_lower act ∈ ["down"; "up"]%string)); [|done].
    destruct (expand_keys_to_scancodes str_lower [name] _) as [sc|] eqn:Hsc; [|done].
    cbn [obind]. destruct (build_scancode_frame sc) as [d|] eqn:Hd; [|done]. cbn [obind].
    intros [= <- <- <-]. split; [done|]. split; [done|]. exists sc.
    split; [|done]. now apply (expand_keys_bytes [name] _ sc Hsc). }
  destruct (decide (mode = "interactive"%string)); done.
Qed.

Lemma with_defaults_send (port : option string) (baud : option Z) (mode : string)
    (tail : list string) (p : string) (b : Z) (data : list Z) :
  with_defaults' port baud mode tail = Done (Send p b data) →
  (port = Some p ∨ (port = None ∧ auto_detect_port = Some p))
  ∧ (baud = Some b ∨ (baud = None ∧ b = 115200))
  ∧ ∃ sc, is_bytes sc ∧ build_scancode_frame sc = Done data.
Proof.
  unfold with_defaults. cbv zeta.
  destruct port as [port|].
  - intros Hrun. apply execute_mode_send in Hrun as (-> & -> & Hsc).
    split; [now left|]. split; [|done]. destruct baud; [now left | now right].
  - destruct (str_true auto_detect_port) eqn:Hauto; [|done].
    destruct auto_detect_port as [port|]; [|done].
    intros Hrun. apply execute_mode_send in Hrun as (-> & -> & Hsc).
    split; [now right|]. split; [|done]. destruct baud; [now left | now right].
Qed.

Lemma main_send (gui : bool) (port : option string) (baud : option Z) (rest : list string)
    (p : string) (b : Z) (data : list Z) :
  main' gui port baud rest = Done (Send p b data) →
  ∃ sc, is_bytes sc ∧ build_scancode_frame sc = Done data.
Proof.
  unfold main.
  destruct (gui || _); [done|].
  destruct rest as [|r0 tail0]; [done|].
  destruct (bool_decide (r0 ∈ MODES)).
  { intros Hrun. now apply with_defaults_send in Hrun as (_ & _ & ?). }
  destruct tail0 as [|r1 [|r2 tail3]]; try done.
  destruct (bool_decide (r2 ∈ MODES)); [|done]. cbv zeta.
  destruct baud as [baud|].
  { intros Hrun. now apply with_defaults_send in Hrun as (_ & _ & ?). }
  destruct (int10 r1) as [n | [msg | msg | |]]; try done.
  intros Hrun. now apply with_defaults_send in Hrun as (_ & _ & ?).
Qed.

End MainProofs.

(** Whatever the arguments, when [main] sends something it sends exactly
    one frame: the marker, the length, the command byte 0x0C and at most
    2046 scancode bytes; and the frame reader of the interactive mode reads
    that frame back as one frame of type 0x0C with the same bytes. *)
Theorem main_sends_one_scancode_frame (str_lower : string → string)
    (int16 int10 : string → outcome Z) (auto_detect_port : option string)
    (gui : bool) (port : option string) (baud : option Z) (rest : list string)
    (p : string) (b : Z) (data : list Z) :
  main str_lower int16 int10 auto_detect_port gui port baud rest = Done (Send p b data) →
  ∃ sc,
    is_bytes sc ∧ len sc ≤ 2046
    ∧ data = [0xAA; (1 + len sc) / 256; (1 + len sc) `mod` 256; 0x0C] ++ sc
    ∧ feed_bytes rx_init data
        = Some (Done (mk_rx [] SEEK (1 + len sc) (0x0C :: sc), [(0x0C, sc)])).
Proof.
  intros Hrun. apply main_send in Hrun as (sc & Hbytes & Hframe).
  exists sc. split; [done|].
  unfold build_scancode_frame in Hframe. cbv zeta in Hframe.
  change ([CMD_PS2_SCANCODE] ++ sc) with (0x0C :: sc) in Hframe.
  assert (Hlen : len (0x0C :: sc) ≤ 2047).
  { destruct (Z.le_gt_cases (len (0x0C :: sc)) 2047) as [? | Hgt]; [done|].
    rewrite frame_too_long in Hframe by lia. discriminate. }
  pose proof (len_nonneg sc) as Hnn. rewrite len_cons in Hlen.
  split; [lia|].
  rewrite frame_fits in Hframe by (rewrite len_cons; lia). injection Hframe as <-.
  split.
  - destruct (be16_bytes (len (0x0C :: sc))) as [-> ->]; [rewrite len_cons; lia|].
    now rewrite len_cons.
  - rewrite (feed_bytes_roundtrip rx_init 0x0C sc) by (rewrite ?len_cons; done || lia).
    now rewrite len_cons.
Qed.

(** The key a, by [keys]. *)
Lemma main_sends_one_scancode_frame_witness :
  ∃ sc,
    is_bytes sc ∧ len sc ≤ 2046
    ∧ [0xAA; 0; 2; 0x0C; 0x1C] = [0xAA; (1 + len sc) / 256; (1 + len sc) `mod` 256; 0x0C] ++ sc
    ∧ feed_bytes rx_init [0xAA; 0; 2; 0x0C; 0x1C]
        = Some (Done (mk_rx [] SEEK (1 + len sc) (0x0C :: sc), [(0x0C, sc)])).
Proof.
  apply (main_sends_one_scancode_frame ascii_lower (ascii_int 16) (ascii_int 10) None
           false (Some "/dev/ttyUSB0"%string) None ["keys"; "A"]%string
           "/dev/ttyUSB0"%string 115200).
  vm_compute. reflexivity.
Defined.

(** The legacy form of the command line, [<port> <baud> <mode> ...], does
    what the new form does with the same port and baud rate given as
    options.  When both options are given as well, the two legacy arguments
    are skipped: the baud argument is not even parsed. *)
Theorem main_legacy_form (str_lower : string → string)
    (int16 int10 : string → outcome Z) (auto_detect_port : option string)
    (p b m : string) (tail : list string) :
  p ∉ MODES → m ∈ MODES →
  (∀ n, int10 b = Done n →
     main str_lower int16 int10 auto_detect_port false None None (p :: b :: m :: tail)
       = main str_lower int16 int10 auto_detect_port false (Some p) (Some n) (m :: tail))
  ∧ (∀ msg, int10 b = Raised (ValueError msg) →
       main str_lower int16 int10 auto_detect_port false None None (p :: b :: m :: tail)
         = Done (ParserError "Invalid baud in legacy form"))
  ∧ (∀ c P B,
       main str_lower int16 int10 auto_detect_port false (Some (String c P)) (Some B)
         (p :: b :: m :: tail)
         = main str_lower int16 int10 auto_detect_port false (Some (String c P)) (Some B)
             (m :: tail)).
Proof.
  intros Hp Hm. unfold main. cbn [orb andb].
  rewrite (bool_decide_eq_false_2 _ Hp), (bool_decide_eq_true_2 _ Hm).
  split; [|split].
  - intros n Hn. rewrite Hn. reflexivity.
  - intros msg Hb. rewrite Hb. reflexivity.
  - intros c P B. reflexivity.
Qed.

(** One key, the legacy way and the new way. *)
Lemma main_legacy_form_witness :
  main ascii_lower (ascii_int 16) (ascii_int 10) None false None None
      ["/dev/ttyUSB0"; "9600"; "keys"; "a"]%string
    = Done (Send "/dev/ttyUSB0" 9600 [0xAA; 0; 2; 0x0C; 0x1C])
  ∧ main ascii_lower (ascii_int 16) (ascii_int 10) None false None None
      ["/dev/ttyUSB0"; "fast"; "keys"; "a"]%string
    = Done (ParserError "Invalid baud in legacy form").
Proof.
  split.
  - rewrite (proj1 (main_legacy_form ascii_lower (ascii_int 16) (ascii_int 10) None
                      "/dev/ttyUSB0" "9600" "keys" ["a"%string]
                      ltac:(vm_compute; intros H;
                            repeat (apply elem_of_cons in H as [H | H]; [discriminate|]);
                            now apply elem_of_nil in H)
                      ltac:(apply elem_of_cons; right; apply elem_of_cons; now left))
               9600 eq_refl).
    vm_compute. reflexivity.
  - apply (proj1 (proj2 (main_legacy_form ascii_lower (ascii_int 16) (ascii_int 10) None
                      "/dev/ttyUSB0" "fast" "keys" ["a"%string]
                      ltac:(vm_compute; intros H;
                            repeat (apply elem_of_cons in H as [H | H]; [discriminate|]);
                            now apply elem_of_nil in H)
                      ltac:(apply elem_of_cons; right; apply elem_of_cons; now left)))
             "invalid literal for int()"%string).
    vm_compute. reflexivity.
Defined.

(** The mode [key] with the action [down] (in any case that [str.lower]
    maps to it) does what the mode [keys] does with the one name; with the
    action [up] it sends the key's break sequence in one frame; any other
    action, or a number of arguments other than two, is a usage error and
    nothing is sent. *)
Theorem key_mode_is_one_key (str_lower : string → string)
    (int16 int10 : string → outcome Z) (auto_detect_port : option string)
    (gui : bool) (port : option string) (baud : option Z) (name act : string) :
  (str_lower act = "down"%string →
   main str_lower int16 int10 auto_detect_port gui port baud ["key"; name; act]%string
     = main str_lower int16 int10 auto_detect_port gui port baud ["keys"; name]%string)
  ∧ (str_lower act = "up"%string →
     ∀ p v, port = Some p → gui = false → KEYMAP !! str_lower name = Some v →
       main str_lower int16 int10 auto_detect_port gui port baud ["key"; name; act]%string
         = Done (Send p (default 115200 baud)
                   ([0xAA; 0; 1 + len (key_bytes v false); 0x0C] ++ key_bytes v false)))
  ∧ (str_lower act ≠ "down"%string → str_lower act ≠ "up"%string →
     ∀ p, port = Some p → gui = false →
       main str_lower int16 int10 auto_detect_port gui port baud ["key"; name; act]%string
         = Done (ParserError "action must be down|up"))
  ∧ (∀ p, port = Some p → gui = false →
       main str_lower int16 int10 auto_detect_port gui port baud ["key"; name]%string
         = Done (ParserError "key mode: need <name> <down|up>")).
Proof.
  split; [|split; [|split]].
  - intros Hact. unfold main.
    destruct (gui || _); [reflexivity|].
    change (bool_decide ("key"%string ∈ MODES)) with true.
    change (bool_decide ("keys"%string ∈ MODES)) with true. cbv iota.
    unfold with_defaults. cbv zeta.
    destruct (match port with Some p => Some p | None => _ end) as [port'|]; [|reflexivity].
    unfold execute_mode. cbv zeta. rewrite Hact. reflexivity.
  - intros Hact p v -> -> Hv. unfold main. cbn [orb andb].
    change (bool_decide ("key"%string ∈ MODES)) with true. cbv iota.
    unfold with_defaults, execute_mode. cbv zeta. rewrite Hact.
    change (bool_decide ("up"%string ∈ ["down"; "up"]%string)) with true.
    change (bool_decide ("up"%string = "down"%string)) with false.
    cbn [decide]. 
    rewrite (InteractiveProofs.one_key str_lower name v false Hv). cbn [obind].
    pose proof (InteractiveProofs.KEYMAP_short _ v false Hv) as Hshort.
    pose proof (InteractiveProofs.send_sc_short (key_bytes v false) Hshort) as Hsend.
    unfold Interactive.send_sc in Hsend.
    destruct (build_scancode_frame (key_bytes v false)) as [d|]; [|done].
    cbn [obind] in *. injection Hsend as ->. now destruct baud.
  - intros Hdown Hup p -> ->. unfold main. cbn [orb andb].
    change (bool_decide ("key"%string ∈ MODES)) with true. cbv iota.
    unfold with_defaults, execute_mode. cbv zeta.
    rewrite bool_decide_eq_false_2; [reflexivity|].
    intros Hin. apply elem_of_cons in Hin as [? | Hin]; [done|].
    apply elem_of_cons in Hin as [? | Hin]; [done|]. now apply elem_of_nil in Hin.
  - intros p -> ->. reflexivity.
Qed.

End CliProofs.

(** ** Disk geometry beyond the 512-byte MBR *)

Module GeometryProofs.
Import Mksdcard MksdcardProofs.

(** *** Packed CHS fields *)

(** The two masks of [decode_chs] on a byte. *)
Lemma sec_cyl_fields (x : Z) :
  is_byte x → Z.land x 0x3F = x `mod` 64 ∧ Z.land x 0xC0 = x / 64 * 64.
Proof.
  intros Hx.
  assert (Hall : forallb (λ x, (Z.land x 0x3F =? x `mod` 64) && (Z.land x 0xC0 =? x / 64 * 64))
                   (seqZ 0 256) = true) by (vm_compute; reflexivity).
  rewrite forallb_forall in Hall.
  specialize (Hall x). rewrite andb_true_iff, !Z.eqb_eq in Hall. apply Hall.
  apply list_elem_of_In, elem_of_seqZ. unfold is_byte in Hx. lia.
Qed.

(** [decode_chs] on three bytes. *)
Lemma decode_chs_bytes (head sec_cyl cyl_lo : Z) :
  is_byte sec_cyl → is_byte cyl_lo →
  decode_chs head sec_cyl cyl_lo =
    if (head =? 0xFF) && (sec_cyl =? 0xFF) && (cyl_lo =? 0xFF) then (false, 0, 0, 0)
    else if sec_cyl `mod` 64 =? 0 then (false, 0, 0, 0)
    else (true, sec_cyl / 64 * 256 + cyl_lo, head, sec_cyl `mod` 64).
Proof.
  intros Hsc Hcl. unfold decode_chs. cbv zeta.
  destruct (sec_cyl_fields sec_cyl Hsc) as [-> ->].
  replace (Z.shiftl (sec_cyl / 64 * 64) 2) with (Z.shiftl (sec_cyl / 64) 8)
    by (rewrite !Z.shiftl_mul_pow2 by lia; lia).
  rewrite lor_shiftl_add by (unfold is_byte in Hcl; lia).
  reflexivity.
Qed.

(** [decode_chs] is the inverse of the packing of a CHS address into the
    three bytes of a partition entry, on every address but one.  A cylinder
    below 1024, a head below 256 and a sector from 1 to 63, packed as the
    head byte, the byte [(cyl >> 8) << 6 | sector] and the byte [cyl & 0xFF],
    decode to themselves, unless they are (1023, 255, 63): that address packs
    to three bytes 0xFF and is reported as not valid.  Conversely a valid
    result from three bytes is in those ranges and packs back to the
    bytes. *)
Theorem decode_chs_inverts_packing :
  (∀ cyl head sec,
     0 ≤ cyl < 1024 → 0 ≤ head < 256 → 1 ≤ sec ≤ 63 →
     let sec_cyl := Z.lor (Z.shiftl (Z.shiftr cyl 8) 6) sec in
     let cyl_lo := Z.land cyl 0xFF in
     is_byte sec_cyl ∧ is_byte cyl_lo
     ∧ decode_chs head sec_cyl cyl_lo =
         if (cyl =? 1023) && (head =? 255) && (sec =? 63) then (false, 0, 0, 0)
         else (true, cyl, head, sec))
  ∧ (∀ head sec_cyl cyl_lo cyl hd sec,
       is_byte head → is_byte sec_cyl → is_byte cyl_lo →
       decode_chs head sec_cyl cyl_lo = (true, cyl, hd, sec) →
       hd = head ∧ 0 ≤ cyl < 1024 ∧ 1 ≤ sec ≤ 63
       ∧ sec_cyl = Z.lor (Z.shiftl (Z.shiftr cyl 8) 6) sec
       ∧ cyl_lo = Z.land cyl 0xFF).
Proof.
  assert (Hpack : ∀ cyl sec, 0 ≤ cyl < 1024 → 0 ≤ sec < 64 →
            Z.lor (Z.shiftl (Z.shiftr cyl 8) 6) sec = cyl / 256 * 64 + sec).
  { intros cyl sec Hcyl Hsec. rewrite lor_shiftl_add by lia. now rewrite shiftr_8. }
  split.
  - intros cyl head sec Hcyl Hhead Hsec sec_cyl cyl_lo.
    assert (Hq : 0 ≤ cyl / 256 < 4)
      by (split; [apply Z.div_pos | apply Z.div_lt_upper_bound]; lia).
    assert (Hsc : sec_cyl = cyl / 256 * 64 + sec) by (apply Hpack; lia).
    assert (Hcl : cyl_lo = cyl `mod` 256) by apply land_0xFF.
    pose proof (Z.mod_pos_bound cyl 256 ltac:(lia)) as Hlo.
    pose proof (Z.div_mod cyl 256 ltac:(lia)) as Hdm.
    assert (Hbsc : is_byte sec_cyl) by (unfold is_byte; lia).
    assert (Hbcl : is_byte cyl_lo) by (unfold is_byte; lia).
    split; [done|]. split; [done|].
    rewrite decode_chs_bytes by done.
    assert (Hmod : sec_cyl `mod` 64 = sec)
      by (rewrite Hsc, Z.add_comm, Z.mod_add by lia; apply Z.mod_small; lia).
    assert (Hdiv : sec_cyl / 64 = cyl / 256)
      by (rewrite Hsc, Z.add_comm, Z.div_add by lia; rewrite Z.div_small by lia; lia).
    rewrite Hmod, Hdiv.
    destruct (Z.eqb_spec sec 0) as [? | _]; [lia|].
    replace (cyl / 256 * 256 + cyl_lo) with cyl by lia.
    destruct (Z.eqb_spec head 0xFF) as [-> | Hh]; cbn [andb].
    2:{ now rewrite andb_false_r. }
    destruct (Z.eqb_spec sec_cyl 0xFF) as [Hff | Hnf]; cbn [andb].
    + assert (cyl / 256 = 3 ∧ sec = 63) as [Hq3 ->] by lia.
      destruct (Z.eqb_spec cyl_lo 0xFF) as [Hlf | Hnl].
      * assert (cyl = 1023) as -> by lia. reflexivity.
      * destruct (Z.eqb_spec cyl 1023) as [-> | _]; [|reflexivity].
        exfalso. apply Hnl. rewrite Hcl. reflexivity.
    + destruct (Z.eqb_spec cyl 1023) as [-> | _]; [|reflexivity].
      destruct (Z.eqb_spec sec 63) as [-> | _]; [|reflexivity].
      exfalso. apply Hnf. rewrite Hsc. reflexivity.
  - intros head sec_cyl cyl_lo cyl hd sec Hhead Hsc Hcl Hdec.
    rewrite decode_chs_bytes in Hdec by done.
    destruct ((head =? 0xFF) && (sec_cyl =? 0xFF) && (cyl_lo =? 0xFF)); [done|].
    destruct (Z.eqb_spec (sec_cyl `mod` 64) 0) as [? | Hnz]; [done|].
    injection Hdec as <- <- <-.
    unfold is_byte in *.
    pose proof (Z.mod_pos_bound sec_cyl 64 ltac:(lia)) as Hm.
    pose proof (Z.div_mod sec_cyl 64 ltac:(lia)) as Hdm.
    assert (Hq : 0 ≤ sec_cyl / 64 < 4)
      by (split; [apply Z.div_pos | apply Z.div_lt_upper_bound]; lia).
    split; [done|]. split; [lia|]. split; [lia|].
    assert (Hcq : (sec_cyl / 64 * 256 + cyl_lo) / 256 = sec_cyl / 64)
      by (rewrite Z.add_comm, Z.div_add by lia; rewrite Z.div_small by lia; lia).
    split.
    + rewrite Hpack by lia. rewrite Hcq. lia.
    + rewrite land_0xFF, Z.add_comm, Z.mod_add by lia. symmetry. apply Z.mod_small. lia.
Qed.

(** The largest address that decodes, and the one that does not. *)
Lemma decode_chs_example :
  decode_chs 254 0xFF 0xFF = (true, 1023, 254, 63)
  ∧ decode_chs 255 0xFF 0xFF = (false, 0, 0, 0)
  ∧ decode_chs 1 0 0 = (false, 0, 0, 0).
Proof. repeat split. Qed.

(** [chs_to_lba] numbers the sectors of a disk without gaps or repeats:
    for a head below [heads] and a sector from 1 to [spt], the cylinder, the
    head and the sector are recovered from the LBA by division, so two
    addresses in range with the same LBA are the same address. *)
Theorem chs_to_lba_is_injective (cyl head sec heads spt : Z) :
  0 ≤ cyl → 0 ≤ head < heads → 1 ≤ sec ≤ spt →
  let lba := chs_to_lba cyl head sec heads spt in
  0 ≤ lba
  ∧ lba / spt / heads = cyl
  ∧ (lba / spt) `mod` heads = head
  ∧ lba `mod` spt + 1 = sec
  ∧ ∀ cyl' head' sec',
      0 ≤ cyl' → 0 ≤ head' < heads → 1 ≤ sec' ≤ spt →
      chs_to_lba cyl' head' sec' heads spt = lba →
      cyl' = cyl ∧ head' = head ∧ sec' = sec.
Proof.
  intros Hcyl Hhead Hsec lba.
  assert (Hinv : ∀ c h s, 0 ≤ c → 0 ≤ h < heads → 1 ≤ s ≤ spt →
            chs_to_lba c h s heads spt / spt / heads = c
            ∧ (chs_to_lba c h s heads spt / spt) `mod` heads = h
            ∧ chs_to_lba c h s heads spt `mod` spt + 1 = s).
  { intros c h s Hc Hh Hs. unfold chs_to_lba.
    assert (Hq : ((c * heads + h) * spt + (s - 1)) / spt = c * heads + h)
      by (rewrite Z.div_add_l by lia; rewrite (Z.div_small (s - 1)) by lia; lia).
    rewrite Hq. split; [|split].
    - rewrite Z.div_add_l by lia. rewrite (Z.div_small h) by lia. lia.
    - rewrite Z.add_comm, Z.mod_add by lia. apply Z.mod_small. lia.
    - rewrite (Z.add_comm ((c * heads + h) * spt)), Z.mod_add by lia.
      rewrite Z.mod_small by lia. lia. }
  destruct (Hinv cyl head sec Hcyl Hhead Hsec) as (H1 & H2 & H3).
  split.
  { unfold lba, chs_to_lba.
    assert (0 ≤ cyl * heads) by (apply Z.mul_nonneg_nonneg; lia).
    assert (0 ≤ (cyl * heads + head) * spt) by (apply Z.mul_nonneg_nonneg; lia).
    lia. }
  split; [exact H1|]. split; [exact H2|]. split; [exact H3|].
  intros cyl' head' sec' Hcyl' Hhead' Hsec' Heq.
  destruct (Hinv cyl' head' sec' Hcyl' Hhead' Hsec') as (H1' & H2' & H3').
  rewrite Heq in H1', H2', H3'. fold lba in H1, H2, H3. lia.
Qed.

(** The first sector of the second head, on 255 heads of 63 sectors. *)
Lemma chs_to_lba_is_injective_witness :
  chs_to_lba 0 1 1 255 63 = 63
  ∧ 63 / 63 / 255 = 0 ∧ (63 / 63) `mod` 255 = 1 ∧ 63 `mod` 63 + 1 = 1.
Proof.
  destruct (chs_to_lba_is_injective 0 1 1 255 63) as (_ & H1 & H2 & H3 & _); [lia..|].
  split; [reflexivity|]. split; [exact H1|]. split; [exact H2 | exact H3].
Defined.

(** *** An MBR of any length *)

(** The four slices are complete as soon as the MBR has 510 bytes. *)
Lemma unpack_entry_present (mbr : list Z) (i : nat) :
  (510 ≤ length mbr)%nat → (i < 4)%nat →
  unpack_entry (slice mbr (0x1BE + Z.of_nat i * 16) (0x1BE + (Z.of_nat i + 1) * 16))
    = Done (entry_of mbr i).
Proof.
  intros Hlen Hi. unfold slice.
  replace (Z.to_nat (0x1BE + (Z.of_nat i + 1) * 16) - Z.to_nat (0x1BE + Z.of_nat i * 16))%nat
    with 16%nat by lia.
  replace (Z.to_nat (0x1BE + Z.of_nat i * 16)) with (446 + 16 * i)%nat by lia.
  rewrite (list16 (take 16 (drop (446 + 16 * i) mbr)))
    by (rewrite length_take, length_drop; lia).
  rewrite !nth_take_drop by lia. reflexivity.
Qed.

Lemma entries_present (mbr : list Z) :
  (510 ≤ length mbr)%nat →
  Forall2 (λ e p, unpack_entry e = Done p)
    ((λ i, slice mbr (0x1BE + i * 16) (0x1BE + (i + 1) * 16)) <$> [0; 1; 2; 3])
    [entry_of mbr 0; entry_of mbr 1; entry_of mbr 2; entry_of mbr 3].
Proof.
  intros Hlen. cbn [fmap list_fmap].
  repeat constructor.
  - apply (unpack_entry_present mbr 0); [done | lia].
  - apply (unpack_entry_present mbr 1); [done | lia].
  - apply (unpack_entry_present mbr 2); [done | lia].
  - apply (unpack_entry_present mbr 3); [done | lia].
Qed.

(** A slice that is not 16 bytes long makes [struct.unpack] raise. *)
Lemma unpack_entry_short (e : list Z) :
  length e ≠ 16%nat → unpack_entry e = Raised StructError.
Proof.
  intros Hlen.
  do 16 (destruct e as [|? e]; [reflexivity|]).
  destruct e; [done | reflexivity].
Qed.

(** The candidate (255, 63) wins whenever it is accepted. *)
Lemma top_candidate_wins (mbr : list Z) (total_bytes : Z) :
  (510 ≤ length mbr)%nat → accepted mbr 255 63 →
  calc_geometry_from_mbr mbr total_bytes = Done (total_bytes / 512 / 255 / 63, 255, 63).
Proof.
  intros Hlen Hacc. unfold calc_geometry_from_mbr.
  rewrite (candidates_loop_filter candidates _ _ (entries_present mbr Hlen)).
  cbn [obind app].
  set (plausible := List.filter _ candidates).
  assert (Hin : (255, 63) ∈ plausible).
  { unfold plausible. rewrite list_elem_of_In, filter_In, <- list_elem_of_In.
    split; [apply elem_of_cons; now left|]. cbn [fst snd].
    now apply (acceptsb_spec mbr 255 63). }
  destruct (sort_desc plausible) as [|[heads spt] rest] eqn:Hsort.
  { apply sort_desc_nil in Hsort. rewrite Hsort in Hin. now apply elem_of_nil in Hin. }
  apply sort_desc_first in Hsort as [Hfirst Hmax].
  specialize (Hmax (255, 63) Hin). unfold not_after in Hmax. cbn [fst snd] in Hmax.
  assert (Hcand : (heads, spt) ∈ candidates).
  { unfold plausible in Hfirst.
    rewrite list_elem_of_In, filter_In, <- list_elem_of_In in Hfirst. tauto. }
  apply candidates_range in Hcand.
  assert (heads = 255 ∧ spt = 63) as [-> ->] by lia. reflexivity.
Qed.

(** An MBR that ends before the first partition entry does cannot be
    unpacked. *)
Lemma calc_geometry_short (mbr : list Z) (total_bytes : Z) :
  (length mbr < 462)%nat → calc_geometry_from_mbr mbr total_bytes = Raised StructError.
Proof.
  intros Hshort. unfold calc_geometry_from_mbr. cbn [fmap list_fmap candidates candidates_loop].
  cbn [entries_loop].
  rewrite unpack_entry_short; [reflexivity|].
  unfold slice. rewrite length_take, length_drop. lia.
Qed.

(** The geometry is found for every MBR of at least 510 bytes, the end of
    the partition table; the two signature bytes are not read.  The heads
    and sectors per track come from the candidate list, and the geometry
    never describes more sectors than the image holds: it falls short of
    them by less than one cylinder.  An MBR of fewer than 462 bytes, which
    cuts the first entry short, makes [struct.unpack] raise.  In between the
    outcome depends on the entries that are complete: an entry that rejects
    every candidate hides the cut, an empty entry does not. *)
Theorem calc_geometry_needs_partition_table (mbr : list Z) (total_bytes : Z) :
  ((510 ≤ length mbr)%nat →
   ∃ cyl heads spt,
     calc_geometry_from_mbr mbr total_bytes = Done (cyl, heads, spt)
     ∧ (heads, spt) ∈ candidates
     ∧ (0 ≤ total_bytes →
        0 ≤ cyl * heads * spt ≤ total_bytes / 512
        ∧ total_bytes / 512 < cyl * heads * spt + heads * spt))
  ∧ ((length mbr < 462)%nat →
     calc_geometry_from_mbr mbr total_bytes = Raised StructError)
  ∧ calc_geometry_from_mbr
      (replicate 446 0 ++ [0x80; 0; 1; 0; 0x06; 0xFF; 0xFF; 0xFF; 5; 0; 0; 0; 9; 0; 0; 0])
      total_bytes
    = Done (total_bytes / 512 / 255 / 63, 255, 63)
  ∧ calc_geometry_from_mbr (replicate 462 0) total_bytes = Raised StructError.
Proof.
  split; [|split; [|split]].
  - intros Hlen.
    assert (Hdone : ∃ r, calc_geometry_from_mbr mbr total_bytes = Done r).
    { unfold calc_geometry_from_mbr.
      rewrite (candidates_loop_filter candidates _ _ (entries_present mbr Hlen)).
      cbn [obind app]. destruct (sort_desc _) as [|[h s] ?]; eauto. }
    destruct Hdone as [[[cyl heads] spt] Hcalc].
    exists cyl, heads, spt. split; [exact Hcalc|].
    destruct (calc_geometry_candidate _ _ _ _ _ Hcalc) as [Hcand ->].
    split; [exact Hcand|]. intros Htotal.
    apply candidates_range in Hcand as [Hh Hs].
    set (n := total_bytes / 512).
    assert (Hn : 0 ≤ n) by (apply Z.div_pos; lia).
    rewrite Z.div_div by lia.
    pose proof (Z.mul_div_le n (heads * spt) ltac:(nia)) as Hle.
    pose proof (Z.mul_succ_div_gt n (heads * spt) ltac:(nia)) as Hgt.
    assert (0 ≤ n / (heads * spt)) by (apply Z.div_pos; nia).
    nia.
  - apply calc_geometry_short.
  - unfold calc_geometry_from_mbr.
    set (pl := candidates_loop _ _ _).
    vm_compute in pl. subst pl. reflexivity.
  - unfold calc_geometry_from_mbr.
    set (pl := candidates_loop _ _ _).
    vm_compute in pl. subst pl. reflexivity.
Qed.

(** On the example MBR, and on an empty file. *)
Lemma calc_geometry_needs_partition_table_witness :
  (∃ cyl heads spt,
     calc_geometry_from_mbr example_mbr (512 * 1000063) = Done (cyl, heads, spt)
     ∧ (heads, spt) ∈ candidates
     ∧ (0 ≤ 512 * 1000063 →
        0 ≤ cyl * heads * spt ≤ 512 * 1000063 / 512
        ∧ 512 * 1000063 / 512 < cyl * heads * spt + heads * spt))
  ∧ calc_geometry_from_mbr [] 0 = Raised StructError.
Proof.
  split.
  - apply (proj1 (calc_geometry_needs_partition_table example_mbr (512 * 1000063))).
    apply Nat.leb_le. vm_compute. reflexivity.
  - apply (proj1 (proj2 (calc_geometry_needs_partition_table [] 0))). cbn. lia.
Defined.

(** Four zero type bytes: every candidate is accepted. *)
Lemma blank_table_accepts (mbr : list Z) (heads spt : Z) :
  (∀ i : nat, (i < 4)%nat → ptype (entry_of mbr i) = 0) → accepted mbr heads spt.
Proof. intros Hblank i Hi Hne. exfalso. apply Hne, Hblank, Hi. Qed.

Lemma blank_table_geometry (mbr : list Z) (total_bytes : Z) :
  (510 ≤ length mbr)%nat →
  (∀ i : nat, (i < 4)%nat → ptype (entry_of mbr i) = 0) →
  calc_geometry_from_mbr mbr total_bytes = Done (total_bytes / 512 / 255 / 63, 255, 63).
Proof.
  intros Hlen Hblank. apply top_candidate_wins; [done | now apply blank_table_accepts].
Qed.

(** A disk without partitions.  When the four type bytes of the partition
    table are zero, nothing constrains the geometry, every candidate is
    plausible, and the sort picks 255 heads of 63 sectors. *)
Theorem blank_partition_table (mbr : list Z) (total_bytes : Z) :
  (510 ≤ length mbr)%nat →
  (∀ i : nat, (i < 4)%nat → ptype (entry_of mbr i) = 0) →
  calc_geometry_from_mbr mbr total_bytes = Done (total_bytes / 512 / 255 / 63, 255, 63)
  ∧ ∀ heads spt, accepted mbr heads spt.
Proof.
  intros Hlen Hblank. split; [now apply blank_table_geometry|].
  intros heads spt. now apply blank_table_accepts.
Qed.

(** A sector of zeros, as the first sector of a new 256 MiB image. *)
Lemma blank_partition_table_witness :
  calc_geometry_from_mbr (replicate 512 0) (256 * 1024 * 1024) = Done (32, 255, 63).
Proof.
  refine (proj1 (blank_partition_table (replicate 512 0) (256 * 1024 * 1024) _ _)).
  - apply Nat.leb_le. vm_compute. reflexivity.
  - intros i Hi. destruct i as [|[|[|[|i]]]]; [reflexivity.. | lia].
Defined.

(** *** The IDENTIFY block and the geometry *)

(** The words of the IDENTIFY block that describe the disk.  For a
    geometry the inference can return, every word fits 16 bits; words 1 and
    54 hold the cylinders, capped at 16383, words 3 and 55 the heads, words 6
    and 56 the sectors per track; and each of the three capacity fields
    (words 57-58, 60-61 and 100-101, low word first) holds the number of
    sectors [cyl * heads * spt] modulo 2^32. *)
Theorem identify_words_describe_geometry (cyl heads spt : Z) :
  0 ≤ cyl → 0 ≤ heads < 65536 → 0 ≤ spt < 65536 →
  let w := build_identify_words cyl heads spt in
  let total := cyl * heads * spt in
  length w = 256%nat
  ∧ Forall (λ x, 0 ≤ x < 65536) w
  ∧ nth 1 w 0 = Z.min 16383 cyl ∧ nth 54 w 0 = Z.min 16383 cyl
  ∧ nth 3 w 0 = heads ∧ nth 55 w 0 = heads
  ∧ nth 6 w 0 = spt ∧ nth 56 w 0 = spt
  ∧ nth 57 w 0 + 65536 * nth 58 w 0 = total `mod` 2 ^ 32
  ∧ nth 60 w 0 + 65536 * nth 61 w 0 = total `mod` 2 ^ 32
  ∧ nth 100 w 0 + 65536 * nth 101 w 0 = total `mod` 2 ^ 32.
Proof.
  intros Hcyl Hheads Hspt w total.
  split; [apply length_build_identify_words|].
  split; [apply build_identify_words_range; lia|].
  assert (Hcap : Z.land total 0xFFFF + 65536 * Z.land (Z.shiftr total 16) 0xFFFF
                 = total `mod` 2 ^ 32).
  { rewrite !land_0xFFFF, Z.shiftr_div_pow2 by lia.
    change (2 ^ 16) with 65536. change (2 ^ 32) with (65536 * 65536).
    rewrite Z.rem_mul_r by lia. lia. }
  repeat split; try reflexivity; exact Hcap.
Qed.

(** The geometry of a 256 MiB image: 32 cylinders and 514080 sectors. *)
Lemma identify_words_describe_geometry_witness :
  nth 1 (build_identify_words 32 255 63) 0 = 32
  ∧ nth 60 (build_identify_words 32 255 63) 0
    + 65536 * nth 61 (build_identify_words 32 255 63) 0 = 514080.
Proof.
  destruct (identify_words_describe_geometry 32 255 63)
    as (_ & _ & H1 & _ & _ & _ & _ & _ & _ & H60 & _); [lia..|].
  split; [exact H1 | exact H60].
Defined.

End GeometryProofs.

(** ** The image composer on small inputs, and the empty disk image *)

Module ImageProofs.
Import Mksdcard MksdcardProofs GeometryProofs Gui.

(** The layout that the module documents is the layout of the output when
    the VGA BIOS has at most 32 KiB: the BIOS at 0, the VGA BIOS at 0x10000,
    the config stream of three sectors at 0x18000, the disk image at
    0x20000, zeros in between, and 0x20000 + len(disk image) bytes in all. *)
Theorem documented_image_layout (bios vga hdd : list Z) (mem_mb : Z) :
  len bios ≤ 0x10000 → len vga ≤ 0x8000 → 512 ≤ len hdd →
  ∃ cfg image,
    create_sdcard_image (Some bios) (Some vga) (Some hdd) mem_mb = Created image
    ∧ build_config_stream ((mem_mb - 1) * 1024) hdd = Done cfg
    ∧ len cfg = 3 * 512
    ∧ len image = 0x20000 + len hdd
    ∧ slice image 0 (len bios) = bios
    ∧ slice image (len bios) 0x10000 = zeros (0x10000 - len bios)
    ∧ slice image 0x10000 (0x10000 + len vga) = vga
    ∧ slice image (0x10000 + len vga) 0x18000 = zeros (0x8000 - len vga)
    ∧ slice image 0x18000 (0x18000 + len cfg) = cfg
    ∧ slice image (0x18000 + len cfg) 0x20000 = zeros (0x8000 - len cfg)
    ∧ slice_from image 0x20000 = hdd.
Proof.
  intros Hbios Hvga Hhdd.
  destruct (image_layout bios vga hdd mem_mb Hbios Hvga Hhdd)
    as (cfg & image & Himg & Hcfg & Hrest).
  destruct (config_stream_built ((mem_mb - 1) * 1024) hdd Hhdd) as (cfg' & Hcfg' & Hlen & _).
  rewrite Hcfg in Hcfg'. injection Hcfg' as <-.
  exists cfg, image. split; [exact Himg|]. split; [exact Hcfg|]. split; [exact Hlen|].
  exact Hrest.
Qed.

(** A VGA BIOS of exactly 32 KiB and a BIOS of exactly 64 KiB: no padding
    after either ROM. *)
Lemma documented_image_layout_witness :
  ∃ cfg image,
    create_sdcard_image (Some (zeros 0x10000)) (Some (zeros 0x8000)) (Some example_mbr) 2
      = Created image
    ∧ build_config_stream 1024 example_mbr = Done cfg
    ∧ len image = 0x20000 + 512
    ∧ slice image 0x18000 (0x18000 + len cfg) = cfg
    ∧ slice_from image 0x20000 = example_mbr.
Proof.
  destruct (documented_image_layout (zeros 0x10000) (zeros 0x8000) example_mbr 2)
    as (cfg & image & Himg & Hcfg & _ & Hlen & _ & _ & _ & _ & Hat & _ & Hhdd).
  - rewrite len_zeros. lia.
  - rewrite len_zeros. lia.
  - vm_compute. discriminate.
  - exists cfg, image. split; [exact Himg|]. split; [exact Hcfg|].
    split; [exact Hlen|]. split; [exact Hat | exact Hhdd].
Defined.

Lemma write_roms_layout (bios vga : list Z) :
  len bios ≤ 0x10000 →
  write_roms bios vga = bios ++ zeros (0x10000 - len bios) ++ vga ++ zeros (0x8000 - len vga)
  ∧ len (write_roms bios vga) = 0x10000 + Z.max (len vga) 0x8000.
Proof.
  intros Hbios.
  assert (Hroms : write_roms bios vga
                  = bios ++ zeros (0x10000 - len bios) ++ vga ++ zeros (0x8000 - len vga)).
  { unfold write_roms, VGA_BIOS_OFFSET, CFG_OFFSET, CFG_SECTOR, SECTOR_SIZE. cbv zeta.
    destruct (Z.ltb_spec (len bios) (64 * 1024)) as [Hlt | Hge].
    - rewrite !len_app, len_zeros.
      destruct (Z.ltb_spec (len bios + Z.max 0 (64 * 1024 - len bios) + len vga) (192 * 512))
        as [Hlt2 | Hge2].
      + rewrite <- !app_assoc. do 3 f_equal. f_equal. lia.
      + rewrite (zeros_nonpos (0x8000 - len vga)) by lia.
        now rewrite app_nil_r, <- app_assoc.
    - rewrite (zeros_nonpos (0x10000 - len bios)) by lia. cbn [app].
      rewrite len_app.
      destruct (Z.ltb_spec (len bios + len vga) (192 * 512)) as [Hlt2 | Hge2].
      + rewrite <- !app_assoc. do 2 f_equal. f_equal. lia.
      + rewrite (zeros_nonpos (0x8000 - len vga)) by lia. now rewrite app_nil_r. }
  split; [exact Hroms|].
  rewrite Hroms, !len_app, !len_zeros. pose proof (len_nonneg bios).
  pose proof (len_nonneg vga). lia.
Qed.

(** A disk image that ends before its first partition entry does.  The
    composer has no check for it: the two ROMs pass their size checks, the
    output file is opened and the ROMs and their padding are written, and
    only then reading the partition table raises.  The composer returns
    False, and the output file is left holding the ROM area and nothing
    else. *)
Theorem short_disk_image_leaves_partial_output (bios vga hdd : list Z) (mem_mb : Z) :
  len bios ≤ 0x10000 → len vga ≤ 0x10000 → len hdd < 462 →
  create_sdcard_image (Some bios) (Some vga) (Some hdd) mem_mb
    = Failed StructError
        (bios ++ zeros (0x10000 - len bios) ++ vga ++ zeros (0x8000 - len vga))
  ∧ len (bios ++ zeros (0x10000 - len bios) ++ vga ++ zeros (0x8000 - len vga))
    = 0x10000 + Z.max (len vga) 0x8000
  ∧ build_config_stream ((mem_mb - 1) * 1024) hdd = Raised StructError.
Proof.
  intros Hbios Hvga Hhdd.
  assert (Hcfg : build_config_stream ((mem_mb - 1) * 1024) hdd = Raised StructError).
  { unfold build_config_stream. cbv zeta.
    rewrite calc_geometry_short; [reflexivity|].
    unfold slice, len in *. rewrite length_take, length_drop. lia. }
  destruct (write_roms_layout bios vga Hbios) as [Hroms Hlen].
  split; [|split; [|exact Hcfg]].
  - unfold create_sdcard_image. cbv zeta. unfold VGA_BIOS_OFFSET, HDD_OFFSET.
    destruct (Z.ltb_spec (64 * 1024) (len bios)) as [? | _]; [lia|].
    destruct (Z.ltb_spec (128 * 1024) (64 * 1024 + len vga)) as [? | _]; [lia|].
    now rewrite Hcfg, Hroms.
  - now rewrite <- Hroms.
Qed.

(** An empty disk image file behind two small ROMs. *)
Lemma short_disk_image_leaves_partial_output_witness :
  create_sdcard_image (Some [0xEA]) (Some [0x55; 0xAA]) (Some []) 2
    = Failed StructError ([0xEA] ++ zeros 0xFFFF ++ [0x55; 0xAA] ++ zeros 0x7FFE)
  ∧ len ([0xEA] ++ zeros 0xFFFF ++ [0x55; 0xAA] ++ zeros 0x7FFE) = 0x18000.
Proof.
  destruct (short_disk_image_leaves_partial_output [0xEA] [0x55; 0xAA] [] 2)
    as (Himg & Hlen & _).
  - vm_compute. discriminate.
  - vm_compute. discriminate.
  - vm_compute. reflexivity.
  - split; [exact Himg | exact Hlen].
Defined.

(** *** The empty disk image *)

Lemma zeros_add (a b : Z) : 0 ≤ a → 0 ≤ b → zeros (a + b) = zeros a ++ zeros b.
Proof.
  intros Ha Hb. unfold zeros. rewrite Z2Nat.inj_add by lia. apply replicate_add.
Qed.

(** The loop with [k] chunks of one MiB left to write. *)
Lemma write_loop_chunks (size_mb : Z) (k : nat) :
  ∀ (fuel : nat) (f progress : list Z),
    (k < fuel)%nat → 0 < size_mb → Z.of_nat k ≤ size_mb →
    write_loop fuel (size_mb * 1024 * 1024) (1024 * 1024) (Z.of_nat k * (1024 * 1024))
        f progress
      = Some (f ++ zeros (Z.of_nat k * (1024 * 1024)),
              progress ++ ((λ i, i * 100 / size_mb) <$> seqZ (size_mb - Z.of_nat k + 1)
                                                              (Z.of_nat k))).
Proof.
  induction k as [|k IH]; intros fuel f progress Hfuel Hsize Hk.
  - destruct fuel as [|fuel]; [lia|]. cbn. now rewrite !app_nil_r.
  - destruct fuel as [|fuel]; [lia|]. cbn [write_loop].
    destruct (Z.ltb_spec 0 (Z.of_nat (S k) * (1024 * 1024))) as [_ | ?]; [|lia].
    cbv zeta.
    replace (Z.min (1024 * 1024) (Z.of_nat (S k) * (1024 * 1024))) with (1024 * 1024) by lia.
    replace (Z.of_nat (S k) * (1024 * 1024) - 1024 * 1024) with (Z.of_nat k * (1024 * 1024))
      by lia.
    rewrite IH by lia.
    replace ((size_mb * 1024 * 1024 - Z.of_nat k * (1024 * 1024)) * 100
             / (size_mb * 1024 * 1024))
      with ((size_mb - Z.of_nat k) * 100 / size_mb).
    2:{ replace ((size_mb * 1024 * 1024 - Z.of_nat k * (1024 * 1024)) * 100)
          with ((size_mb - Z.of_nat k) * 100 * (1024 * 1024)) by lia.
        replace (size_mb * 1024 * 1024) with (size_mb * (1024 * 1024)) by lia.
        now rewrite Z.div_mul_cancel_r by lia. }
    f_equal. f_equal.
    + rewrite <- app_assoc. f_equal.
      replace (Z.of_nat (S k) * (1024 * 1024))
        with (1024 * 1024 + Z.of_nat k * (1024 * 1024)) by lia.
      symmetry. apply zeros_add; lia.
    + rewrite <- app_assoc. f_equal.
      rewrite (seqZ_cons (size_mb - Z.of_nat (S k) + 1)) by lia.
      cbn [fmap list_fmap app]. f_equal; [f_equal; lia|].
      f_equal. f_equal; lia.
Qed.

(** Create Empty VHD.  For a size of [size_mb] > 0 and a file that is
    chosen (and, when it exists, may be overwritten), the file is written
    with exactly [size_mb] MiB of zero bytes, in [size_mb] writes, the
    progress shown after write [i] being [i * 100 // size_mb] percent, 100 at
    the end.  Such a file has no partitions, so when it is given to the
    image composer as the disk image the geometry written to the config
    stream is [size_mb * 2048 // 255 // 63] cylinders of 255 heads and 63
    sectors per track. *)
Theorem create_empty_vhd_writes_zeros (int10 : string → outcome Z) (size_text : string)
    (size_mb : Z) (c : Ascii.ascii) (name : string) (file_exists overwrite : bool)
    (mem_kb : Z) :
  int10 size_text = Done size_mb → 0 < size_mb →
  file_exists && negb overwrite = false →
  let content := zeros (size_mb * 1024 * 1024) in
  let progress := (λ i, i * 100 / size_mb) <$> seqZ 1 size_mb in
  create_empty_vhd int10 size_text (Some (String c name)) file_exists overwrite
    = Some (Done (VhdCreated (String c name) content progress))
  ∧ len content = size_mb * 1048576
  ∧ length progress = Z.to_nat size_mb
  ∧ last progress = Some 100
  ∧ calc_geometry_from_mbr (slice content 0 SECTOR_SIZE) (len content)
    = Done (size_mb * 2048 / 255 / 63, 255, 63)
  ∧ build_config_stream mem_kb content
    = Done (pack_pairs (config_pairs mem_kb (size_mb * 2048 / 255 / 63) 255 63)
            ++ replicate 400 0).
Proof.
  intros Hsize Hpos Hover content progress.
  assert (Hlen : len content = size_mb * 1048576)
    by (unfold content; rewrite len_zeros; lia).
  assert (Hgeo : calc_geometry_from_mbr (slice content 0 SECTOR_SIZE) (len content)
                 = Done (size_mb * 2048 / 255 / 63, 255, 63)).
  { assert (Hmbr : slice content 0 SECTOR_SIZE = replicate 512 0).
    { unfold slice, content, zeros, SECTOR_SIZE.
      change (Z.to_nat 0) with 0%nat. change (Z.to_nat 512) with 512%nat.
      rewrite Nat.sub_0_r, drop_0, take_replicate. f_equal. lia. }
    rewrite Hmbr, Hlen.
    rewrite (blank_table_geometry (replicate 512 0) (size_mb * 1048576)
               ltac:(apply Nat.leb_le; vm_compute; reflexivity)
               ltac:(intros i Hi; destruct i as [|[|[|[|i]]]];
                     [reflexivity.. | lia])).
    do 3 f_equal.
    replace (size_mb * 1048576) with (size_mb * 2048 * 512) by lia.
    now rewrite Z.div_mul by lia. }
  split; [|split; [exact Hlen|split; [|split; [|split; [exact Hgeo|]]]]].
  - unfold create_empty_vhd. rewrite Hsize.
    destruct (Z.leb_spec size_mb 0) as [? | _]; [lia|]. rewrite Hover. cbv zeta.
    replace (size_mb * 1024 * 1024) with (Z.of_nat (Z.to_nat size_mb) * (1024 * 1024)) at 2
      by lia.
    rewrite (write_loop_chunks size_mb (Z.to_nat size_mb)) by lia.
    cbn [app]. unfold content, progress. do 3 f_equal.
    + f_equal. lia.
    + f_equal. f_equal; lia.
  - unfold progress. rewrite length_fmap, length_seqZ. reflexivity.
  - unfold progress.
    replace (seqZ 1 size_mb) with (seqZ 1 (size_mb - 1) ++ [size_mb]).
    2:{ replace size_mb with ((size_mb - 1) + 1) at 3 by lia.
        rewrite seqZ_app by lia. f_equal.
        rewrite (seqZ_cons _ 1) by lia. rewrite seqZ_nil by lia. f_equal. lia. }
    rewrite fmap_app. change ((λ i, i * 100 / size_mb) <$> [size_mb]) with [size_mb * 100 / size_mb].
    rewrite last_snoc. f_equal. rewrite Z.mul_comm. apply Z.div_mul. lia.
  - now apply build_config_stream_done.
Qed.

(** The default size of the dialog, 256 MiB: 32 cylinders. *)
Lemma create_empty_vhd_writes_zeros_witness :
  create_empty_vhd (Cli.ascii_int 10) "256" (Some "empty_256mb.vhd"%string) false false
    = Some (Done (VhdCreated "empty_256mb.vhd" (zeros (256 * 1024 * 1024))
                    ((λ i, i * 100 / 256) <$> seqZ 1 256)))
  ∧ calc_geometry_from_mbr (slice (zeros (256 * 1024 * 1024)) 0 SECTOR_SIZE)
        (len (zeros (256 * 1024 * 1024)))
    = Done (32, 255, 63).
Proof.
  destruct (create_empty_vhd_writes_zeros (Cli.ascii_int 10) "256" 256
              (Ascii.ascii_of_nat 101) "mpty_256mb.vhd" false false 1024)
    as (Hrun & _ & _ & _ & Hgeo & _).
  - vm_compute. reflexivity.
  - lia.
  - reflexivity.
  - split; [exact Hrun | exact Hgeo].
Defined.

(** The answers that stop [create_empty_vhd] before anything is written. *)
Lemma create_empty_vhd_refusals (int10 : string → outcome Z) (size_text : string)
    (file : option string) (file_exists overwrite : bool) :
  (∀ msg, int10 size_text = Raised (ValueError msg) →
     create_empty_vhd int10 size_text file file_exists overwrite
       = Some (Done (VhdError "Invalid size value")))
  ∧ (∀ size_mb, int10 size_text = Done size_mb → size_mb ≤ 0 →
       create_empty_vhd int10 size_text file file_exists overwrite
         = Some (Done (VhdError "Size must be greater than 0"))).
Proof.
  split.
  - intros msg Hsize. unfold create_empty_vhd. now rewrite Hsize.
  - intros size_mb Hsize Hle. unfold create_empty_vhd. rewrite Hsize.
    destruct (Z.leb_spec size_mb 0); [reflexivity | lia].
Qed.

End ImageProofs.

(** ** More on the codec and the keyboard encoder *)

Module CodecProofs.
Import Frame FrameProofs Keyboard KeyboardProofs.

(** The frame reader has no limit of its own on the payload: it reads back
    any frame whose length fits the two length bytes, also one that [frame]
    refuses to build. *)
Theorem reader_accepts_longer_frames (t : Z) (b : list Z) :
  len (t :: b) ≤ 65535 →
  feed rx_init ([0xAA; len (t :: b) / 256; len (t :: b) `mod` 256] ++ t :: b)
    = Some (Done (mk_rx [] SEEK (len (t :: b)) (t :: b), [(t, b)]))
  ∧ (2047 < len (t :: b) → frame (t :: b) = Raised (ValueError "frame too long")).
Proof.
  intros Hlen. split; [|apply frame_too_long].
  pose proof (len_nonneg (t :: b)) as Hnn.
  set (n := len (t :: b)) in *.
  assert (Hjoin : Z.lor (Z.shiftl (n / 256) 8) (n `mod` 256) = n).
  { rewrite lor_shiftl_add by (pose proof (Z.mod_pos_bound n 256); lia).
    change (2 ^ 8) with 256. pose proof (Z.div_mod n 256). lia. }
  unfold feed, parse_frames, parse_fuel.
  cbn [rx_buf rx_state rx_len rx_payload rx_init app length parse_loop].
  unfold parse_pass at 1. rewrite seek_block_marker. cbv zeta. rewrite Hjoin.
  destruct (Z.ltb_spec (len (0xAA :: n / 256 :: n `mod` 256 :: t :: b)) (3 + n)) as [Hlt | _].
  { rewrite 3!len_cons in Hlt. fold n in Hlt. lia. }
  destruct (slice_wire (t :: b) 0xAA (n / 256) (n `mod` 256)) as [Hpay Hrest].
  fold n in Hpay, Hrest. rewrite Hpay, Hrest. cbn [obind].
  unfold have_block. cbn [rx_state rx_payload rx_buf rx_len].
  change (index (t :: b) 0) with (Done t). cbn [obind slice_from drop Z.to_nat Pos.to_nat
    Pos.iter_op Nat.add].
  reflexivity.
Qed.

(** A payload of 2048 bytes, one more than [frame] accepts. *)
Lemma reader_accepts_longer_frames_witness :
  feed rx_init ([0xAA; 8; 0] ++ 0x07 :: replicate 2047 0x41)
    = Some (Done (mk_rx [] SEEK 2048 (0x07 :: replicate 2047 0x41),
                  [(0x07, replicate 2047 0x41)]))
  ∧ frame (0x07 :: replicate 2047 0x41) = Raised (ValueError "frame too long").
Proof.
  assert (Hlen : len (0x07 :: replicate 2047 0x41) = 2048)
    by (rewrite len_cons, len_replicate; reflexivity).
  destruct (reader_accepts_longer_frames 0x07 (replicate 2047 0x41)) as [Hfeed Hframe].
  - rewrite Hlen. lia.
  - rewrite Hlen in Hfeed, Hframe. split; [exact Hfeed|]. apply Hframe. lia.
Defined.

(** *** The derived break of any make sequence *)

Lemma derive_plain (b : Z) (rest : list Z) :
  b ≠ 0xE0 → b ≠ 0xE1 → 0xE1 ∉ rest →
  _derive_break_from_make (b :: rest) = 0xF0 :: b :: _derive_break_from_make rest.
Proof.
  intros HE0 HE1 Hrest. unfold _derive_break_from_make. cbn [derive_loop].
  destruct (Z.eqb_spec b 0xE0) as [? | _]; [done|].
  destruct (Z.eqb_spec b 0xE1) as [? | _]; [done|].
  now rewrite (derive_loop_acc (length rest)) by done.
Qed.

Lemma derive_keeps_make (n : nat) :
  ∀ make : list Z,
    (length make ≤ n)%nat → 0xE1 ∉ make → 0xF0 ∉ make →
    filter (λ b, b ≠ 0xF0) (_derive_break_from_make make) = make
    ∧ (0xE1 ∉ _derive_break_from_make make)
    ∧ (length make ≤ length (_derive_break_from_make make) ≤ 2 * length make)%nat.
Proof.
  induction n as [|n IH]; intros make Hlen HE1 HF0.
  { destruct make; [|cbn in Hlen; lia]. cbn. split; [done|]. split; [|lia].
    apply not_elem_of_nil. }
  destruct make as [|b rest].
  { cbn. split; [done|]. split; [apply not_elem_of_nil | lia]. }
  cbn [length] in Hlen.
  apply not_elem_of_cons in HE1 as [Hb1 HE1]. apply not_elem_of_cons in HF0 as [HbF HF0].
  destruct (decide (b = 0xE0)) as [-> | HE0].
  - destruct rest as [|c rest'].
    { cbn. split; [done|]. split; [|lia].
      intros Hin. apply list_elem_of_singleton in Hin. discriminate. }
    apply not_elem_of_cons in HE1 as [Hc1 HE1]. apply not_elem_of_cons in HF0 as [HcF HF0].
    cbn [length] in Hlen.
    rewrite derive_extended by done.
    destruct (IH rest' ltac:(lia) HE1 HF0) as (Hfilter & Hno & Hlen').
    split; [|split].
    + rewrite filter_cons_True by done. rewrite filter_cons_False by (intros ?; done).
      rewrite filter_cons_True by done. now rewrite Hfilter.
    + rewrite !not_elem_of_cons. repeat (split; [done|]). exact Hno.
    + cbn [length]. lia.
  - rewrite derive_plain by done.
    destruct (IH rest ltac:(lia) HE1 HF0) as (Hfilter & Hno & Hlen').
    split; [|split].
    + rewrite filter_cons_False by (intros ?; done).
      rewrite filter_cons_True by done. now rewrite Hfilter.
    + rewrite !not_elem_of_cons. repeat (split; [done|]). exact Hno.
    + cbn [length]. lia.
Qed.

(** The derived break of a make sequence that holds neither [0xE1] nor
    [0xF0] is the make sequence with [0xF0] bytes put in: taking the [0xF0]
    bytes out again gives the make sequence back, in order, so no make byte
    is lost, changed or moved; the break is at most twice as long as the
    make. *)
Theorem derived_break_keeps_make_bytes (make : list Z) :
  0xE1 ∉ make → 0xF0 ∉ make →
  filter (λ b, b ≠ 0xF0) (_derive_break_from_make make) = make
  ∧ (0xE1 ∉ _derive_break_from_make make)
  ∧ (length make ≤ length (_derive_break_from_make make) ≤ 2 * length make)%nat.
Proof. intros HE1 HF0. now apply (derive_keeps_make (length make)). Qed.

(** A make sequence of two extended codes and one plain code. *)
Lemma derived_break_keeps_make_bytes_witness :
  _derive_break_from_make [0xE0; 0x12; 0x1C; 0xE0; 0x7C]
    = [0xE0; 0xF0; 0x12; 0xF0; 0x1C; 0xE0; 0xF0; 0x7C]
  ∧ filter (λ b, b ≠ 0xF0) (_derive_break_from_make [0xE0; 0x12; 0x1C; 0xE0; 0x7C])
    = [0xE0; 0x12; 0x1C; 0xE0; 0x7C].
Proof.
  split; [reflexivity|].
  apply (derived_break_keeps_make_bytes [0xE0; 0x12; 0x1C; 0xE0; 0x7C]).
  - intros H. repeat (apply elem_of_cons in H as [H | H]; [discriminate|]).
    now apply elem_of_nil in H.
  - intros H. repeat (apply elem_of_cons in H as [H | H]; [discriminate|]).
    now apply elem_of_nil in H.
Defined.

(** *** Batches of keys *)

(** Encoding a list of names in one call gives what encoding its two parts
    gives, one after the other: the bytes of the first part followed by the
    bytes of the second, or the exception of the first unknown name. *)
Theorem expand_keys_concatenates (str_lower : string → string)
    (names1 names2 : list string) (pressed : bool) :
  expand_keys_to_scancodes str_lower (names1 ++ names2) pressed =
    (a ←! expand_keys_to_scancodes str_lower names1 pressed;
     b ←! expand_keys_to_scancodes str_lower names2 pressed;
     Done (a ++ b)).
Proof.
  destruct (names_known_or_not str_lower names1)
    as [[vals1 Hvals1] | (known1 & bad1 & rest1 & -> & Hknown1 & Hbad1)].
  - rewrite (expand_keys_known str_lower names1 vals1) by done. cbn [obind].
    destruct (names_known_or_not str_lower names2)
      as [[vals2 Hvals2] | (known2 & bad2 & rest2 & -> & Hknown2 & Hbad2)].
    + rewrite (expand_keys_known str_lower names2 vals2) by done. cbn [obind].
      rewrite (expand_keys_known str_lower (names1 ++ names2) (vals1 ++ vals2))
        by (now apply Forall2_app).
      now rewrite fmap_app, concat_app.
    + rewrite (expand_keys_unknown str_lower known2 bad2 rest2) by done. cbn [obind].
      rewrite app_assoc. apply expand_keys_unknown; [|done].
      apply Forall_app. split; [|done].
      clear -Hvals1. induction Hvals1; constructor; eauto.
  - rewrite (expand_keys_unknown str_lower known1 bad1 rest1) by done. cbn [obind].
    rewrite <- app_assoc. cbn [app]. now apply expand_keys_unknown.
Qed.

End CodecProofs.
